(** * The link-resolution core of the alldebrid command-line client

    A shallow embedding of the Go sources: the tree flatteners in the three
    revisions the sources hold (over [interface{}] without paths, over [any]
    with paths, over [TorrentNode]), the size filter of [run], and the client
    operations [UploadMagnet], [UnrestrictURL], [unrestrictLink],
    [GetTorrentLinks] and [WaitForDownloadLinks] in their latest revision
    (alldebrid/client.go, lines 274-583); then the rest of the program:
    [UploadTorrent], the command line ([parseArgs], [Validate]), [run] and
    the printers of output.go, and the operations of the first revision of
    the client that decode the envelope themselves (alldebrid/client.go,
    lines 53-182).

    Conventions.
    - A Go [int64] is a [Z], a [float64] is a primitive binary64 [float],
      a Go [string] is a [string].
    - A run-time panic (a failed type assertion) is [None] in the [option]
      monad; a Go [(value, error)] pair is a pair whose second component is
      an [option] of the error.
    - Pointers to [Link] are indices into a heap of links.
    - Times and durations are nanoseconds, like [time.Duration]. *)

From Stdlib Require Import ZArith Uint63 Floats.
From stdpp Require Import pretty functions.
From stdpp Require Import base option list strings.

Scheme All for list.
Scheme All for prod.
Scheme All for option.

Local Open Scope Z_scope.

(** ** Go values *)

Module Go.

(** The values [encoding/json] stores in an [any]: [nil], [bool],
    [float64], [string], [[]any] and [map[string]any]. A map is listed by
    the members of the JSON object it was decoded from, in document order. *)
Inductive any : Type :=
| Nil
| Bool (b : bool)
| Float64 (f : float)
| Str (s : string)
| Slice (items : list any)
| Map (members : list (string * any)).

(** [v, ok := m[k]]. Decoding assigns the members in order, so a later
    member replaces an earlier one with the same key. *)
Fixpoint mapIndex {V : Type} (k : string) (m : list (string * V)) : option V :=
  match m with
  | [] => None
  | (k', x) :: rest =>
      match mapIndex k rest with
      | Some y => Some y
      | None => if decide (k' = k) then Some x else None
      end
  end.

(** The type assertions [x.(string)] and [x.(float64)]: they panic on a
    value of another dynamic type, [nil] included. *)
Definition assertString (x : any) : option string :=
  match x with Str s => Some s | _ => None end.

Definition assertFloat64 (x : any) : option float :=
  match x with Float64 f => Some f | _ => None end.

Definition int64_min : Z := - 2 ^ 63.
Definition int64_max : Z := 2 ^ 63 - 1.

(** The integer part of a finite float, rounding toward zero. *)
Definition truncate (f : float) : option Z :=
  match Prim2SF f with
  | S754_zero _ => Some 0
  | S754_finite s m e =>
      let a := if (0 <=? e)%Z then Z.pos m * 2 ^ e else Z.pos m / 2 ^ (- e) in
      Some (if s then - a else a)
  | S754_infinity _ | S754_nan => None
  end.

(** The conversion [int64(f)]. Where the value does not fit, Go leaves the
    result to the implementation; this is the amd64 one. *)
Definition int64_of_float64 (f : float) : Z :=
  match truncate f with
  | Some z => if (int64_min <=? z)%Z && (z <=? int64_max)%Z then z else int64_min
  | None => int64_min
  end.

(** The conversion [float64(n)] of an [int64], rounding to nearest even. *)
Definition float64_of_int64 (n : Z) : float :=
  if (n =? int64_min)%Z then (-9223372036854775808)%float
  else if (n <? 0)%Z then (- PrimFloat.of_uint63 (Uint63.of_Z (- n)))%float
  else PrimFloat.of_uint63 (Uint63.of_Z n).

(** [for _, x := range xs { files = append(files, f(x)...) }] *)
Definition appendEach {A B : Type} (f : A → list B) : list B → list A → list B :=
  fix range (files : list B) (xs : list A) : list B :=
    match xs with
    | [] => files
    | x :: rest => range (files ++ f x) rest
    end.

(** The same loop when [f] can panic: the panic leaves the loop. *)
Definition appendEachM {A B : Type} (f : A → option (list B))
  : list B → list A → option (list B) :=
  fix range (files : list B) (xs : list A) : option (list B) :=
    match xs with
    | [] => Some files
    | x :: rest => fs ← f x; range (files ++ fs) rest
    end.

End Go.

Import Go.

(** ** Records of alldebrid/types.go *)

(** [FileEntry], a file of the torrent tree with its reconstructed path. *)
Module FileEntry.
Record t : Type := mk { Link : string; Path : string; Name : string; Size : Z }.
End FileEntry.

(** [TorrentNode], the tagged node of the latest revision (output.go, lines
    155-171). *)
Module TorrentNode.

Inductive t : Type :=
  mk { Name : string; Link : string; Size : float; Entries : list t }.

Definition zero : t := mk "" "" 0%float [].

(** [IsFile]: [tn.Link != ""]. *)
Definition IsFile (tn : t) : bool := bool_decide (Link tn ≠ "").

(** [IsDirectory]: [len(tn.Entries) > 0]. *)
Definition IsDirectory (tn : t) : bool := bool_decide (0 < length (Entries tn))%nat.

End TorrentNode.

(** ** The flatteners *)

(** The first revision ([flattenTree] over [interface{}], alldebrid/types.go,
    lines 61-89). Its [FileEntry] has no path: [Path] is left empty. *)
Module Legacy.

Fixpoint flattenTree (data : any) : option (list FileEntry.t) :=
  match data with
  | Slice v =>
      appendEachM flattenTree [] v
  | Map v =>
      let walk := prod_map id flattenTree <$> v in
      match mapIndex "e" walk with
      | Some flatten_e => flatten_e
      | None =>
          match mapIndex "l" v, mapIndex "n" v, mapIndex "s" v with
          | Some l, Some n, Some s =>
              link ← assertString l;
              name ← assertString n;
              size ← assertFloat64 s;
              Some [FileEntry.mk link "" name (int64_of_float64 size)]
          | _, _, _ => Some []
          end
      end
  | _ => Some []
  end.

End Legacy.

(** The second revision (the [map[string]any] walker with path tracking,
    alldebrid/client.go, lines 640-696). *)
Module Untyped.

Fixpoint flattenTreeWithPath (data : any) (currentPath : string)
  : option (list FileEntry.t) :=
  match data with
  | Slice v =>
      appendEachM (λ item, flattenTreeWithPath item currentPath) [] v
  | Map v =>
      (* the recursive call each member can give rise to *)
      let walk := prod_map id flattenTreeWithPath <$> v in
      match mapIndex "e" walk with
      | Some flatten_e =>
          dirName ← match mapIndex "n" v with
                    | Some n => assertString n
                    | None => Some ""
                    end;
          let newPath :=
            if decide (currentPath = "") then dirName
            else if decide (dirName ≠ "") then currentPath +:+ "/" +:+ dirName
            else currentPath in
          flatten_e newPath
      | None =>
          match mapIndex "l" v, mapIndex "n" v, mapIndex "s" v with
          | Some l, Some n, Some s =>
              fileName ← assertString n;
              let filePath :=
                if decide (currentPath = "") then fileName
                else currentPath +:+ "/" +:+ fileName in
              link ← assertString l;
              size ← assertFloat64 s;
              Some [FileEntry.mk link filePath fileName (int64_of_float64 size)]
          | _, _, _ => Some []
          end
      end
  | _ => Some []
  end.

Definition flattenTree (data : any) : option (list FileEntry.t) :=
  flattenTreeWithPath data "".

End Untyped.

(** The latest revision (the [TorrentNode] walker, output.go, lines
    181-227). *)
Module Typed.
Import TorrentNode.

Fixpoint flattenTreeWithPath (node : TorrentNode.t) (currentPath : string)
  : list FileEntry.t :=
  if IsFile node then
    let filePath :=
      if decide (currentPath = "") then Name node
      else currentPath +:+ "/" +:+ Name node in
    [FileEntry.mk (Link node) filePath (Name node) (int64_of_float64 (Size node))]
  else if IsDirectory node then
    let newPath :=
      if decide (currentPath = "") then Name node
      else if decide (Name node ≠ "") then currentPath +:+ "/" +:+ Name node
      else currentPath in
    appendEach (λ entry, flattenTreeWithPath entry newPath) [] (Entries node)
  else [].

Definition flattenTree (nodes : list TorrentNode.t) : list FileEntry.t :=
  appendEach (λ node, flattenTreeWithPath node "") [] nodes.

End Typed.

(** ** Decoding the payload into [[]TorrentNode]

    What [encoding/json] does with the struct tags of [TorrentNode]. A member
    is matched to a field by its key, exactly or under case folding (so "N"
    is [Name], and the long s, bytes 197 191, is [Size]); other members are
    ignored. A value is decoded into the field as it is at that point: a
    string or a number replaces it, [null] leaves a string, a number or a
    struct as it is and makes a slice nil, and a value of another JSON type
    is an error of the whole decoding ([None]). An array is decoded into the
    elements the slice already has, one by one, without clearing them; past
    its length the slice takes up what its backing array still holds from an
    earlier, longer array, and new elements past that; what is left over
    stays in the backing array. An empty array gives a new, empty slice. So
    a member that comes twice is not decoded as if it came once. *)
Module Json.

Inductive field : Type := FName | FLink | FSize | FEntries.

Definition long_s : string := String (Ascii.ascii_of_nat 197) (String (Ascii.ascii_of_nat 191) "").

Definition fieldOfKey (k : string) : option field :=
  if bool_decide (k ∈ ["n"; "N"]) then Some FName
  else if bool_decide (k ∈ ["l"; "L"]) then Some FLink
  else if bool_decide (k ∈ ["s"; "S"; long_s]) then Some FSize
  else if bool_decide (k ∈ ["e"; "E"]) then Some FEntries
  else None.

(** A [TorrentNode] in the decoder's hands: its fields, [Entries] being the
    elements of the slice, and [Spare] what the backing array of the slice
    holds past its length. *)
Inductive slot : Type :=
  Slot { Name : string; Link : string; Size : float;
         Entries : list slot; Spare : list slot }.

Definition zero : slot := Slot "" "" 0%float [] [].

(** The node the program sees. *)
Fixpoint view (s : slot) : TorrentNode.t :=
  TorrentNode.mk (Name s) (Link s) (Size s) (view <$> Entries s).

Definition setName (s : string) (n : slot) : slot :=
  Slot s (Link n) (Size n) (Entries n) (Spare n).
Definition setLink (s : string) (n : slot) : slot :=
  Slot (Name n) s (Size n) (Entries n) (Spare n).
Definition setSize (f : float) (n : slot) : slot :=
  Slot (Name n) (Link n) f (Entries n) (Spare n).
Definition setEntries (es spare : list slot) (n : slot) : slot :=
  Slot (Name n) (Link n) (Size n) es spare.

(** Decoding the elements of an array into a backing array, each into the
    element that is there, or into a new one; failing with the first
    failure. The elements past the array are left as they are. *)
Definition decodeEach {A B : Type} (new : B) (f : A → B → option B)
  : list B → list A → option (list B) :=
  fix array (backing : list B) (items : list A) : option (list B) :=
    match items with
    | [] => Some backing
    | item :: rest =>
        n ← f item (hd new backing);
        ns ← array (tl backing) rest;
        Some (n :: ns)
    end.

(** Decoding the members of an object into the fields of [node], in
    document order. *)
Definition decodeObject (decodeValue : any → slot → option slot)
  : slot → list (string * any) → option slot :=
  fix object (node : slot) (ms : list (string * any)) :=
    match ms with
    | [] => Some node
    | (k, x) :: rest =>
        match fieldOfKey k, x with
        | None, _ => object node rest
        | Some FEntries, Nil | Some FEntries, Slice [] =>
            object (setEntries [] [] node) rest
        | Some FEntries, Slice items =>
            decoded ← decodeEach zero decodeValue (Entries node ++ Spare node) items;
            object (setEntries (take (length items) decoded)
                      (drop (length items) decoded) node) rest
        | Some _, Nil => object node rest
        | Some FName, Str s => object (setName s node) rest
        | Some FLink, Str s => object (setLink s node) rest
        | Some FSize, Float64 f => object (setSize f node) rest
        | Some _, _ => None
        end
    end.

(** Decoding a value into the node [existing]. *)
Fixpoint decodeNode (j : any) (existing : slot) : option slot :=
  match j with
  | Nil => Some existing
  | Map members => decodeObject decodeNode existing members
  | _ => None
  end.

(** The field [Files []TorrentNode] of a [MagnetFiles] that is new: the
    slice is nil, and its backing array holds nothing. *)
Definition decodeFiles (j : any) : option (list TorrentNode.t) :=
  match j with
  | Nil => Some []
  | Slice items =>
      decoded ← decodeEach zero decodeNode [] items;
      Some (view <$> take (length items) decoded)
  | _ => None
  end.

End Json.

(** ** The flattening rule in the words of the specification *)

Module Spec.
Import TorrentNode.

(** "[parentPath + "/" + name] if both are non-empty, else whichever is
    non-empty, else empty". *)
Definition childPath (parentPath name : string) : string :=
  if decide (parentPath ≠ "" ∧ name ≠ "") then parentPath +:+ "/" +:+ name
  else if decide (parentPath ≠ "") then parentPath
  else name.

(** What the file branch of every revision computes instead. *)
Definition filePath (parentPath name : string) : string :=
  if decide (parentPath = "") then name else parentPath +:+ "/" +:+ name.

(** Depth-first pre-order flattening of a [TorrentNode], directories by
    [childPath] and files by [fileRule]. *)
Fixpoint flatten (fileRule : string → string → string)
  (node : TorrentNode.t) (parentPath : string) : list FileEntry.t :=
  if IsFile node then
    [FileEntry.mk (Link node) (fileRule parentPath (Name node)) (Name node)
       (int64_of_float64 (Size node))]
  else if IsDirectory node then
    concat ((λ child, flatten fileRule child (childPath parentPath (Name node)))
              <$> Entries node)
  else [].

Definition flattenAll (fileRule : string → string → string)
  (roots : list TorrentNode.t) : list FileEntry.t :=
  concat ((λ root, flatten fileRule root "") <$> roots).

(** The same over the untyped tree: an object with a member "e" is a
    directory, one with "l", "n" and "s" a file, a list is walked in order. *)
Fixpoint flattenAny (fileRule : string → string → string)
  (data : any) (parentPath : string) : option (list FileEntry.t) :=
  match data with
  | Slice items =>
      fss ← mapM (λ item, flattenAny fileRule item parentPath) items;
      Some (concat fss)
  | Map v =>
      let walk := prod_map id (flattenAny fileRule) <$> v in
      match mapIndex "e" walk with
      | Some children =>
          name ← match mapIndex "n" v with
                 | Some n => assertString n
                 | None => Some ""
                 end;
          children (childPath parentPath name)
      | None =>
          match mapIndex "l" v, mapIndex "n" v, mapIndex "s" v with
          | Some l, Some n, Some s =>
              name ← assertString n;
              link ← assertString l;
              size ← assertFloat64 s;
              Some [FileEntry.mk link (fileRule parentPath name) name
                      (int64_of_float64 size)]
          | _, _, _ => Some []
          end
      end
  | _ => Some []
  end.

End Spec.

(** ** Shapes of untyped nodes *)

Module Shape.

Definition hasKey (k : string) (m : list (string * any)) : bool :=
  bool_decide (is_Some (mapIndex k m)).


Definition isString (x : any) : bool := match x with Str _ => true | _ => false end.
Definition isNumber (x : any) : bool := match x with Float64 _ => true | _ => false end.
Definition isNonEmptyString (x : any) : bool :=
  match x with Str s => bool_decide (s ≠ "") | _ => false end.



(** A member of a node in one of the two shapes of the data model: "n" a
    string, "l" a non-empty string, "s" a number, "e" a list of nodes, and
    no other key that the decoder matches to a field. *)
Definition memberOk (wf : any → bool) (k : string) (x : any) : bool :=
  if decide (k = "n") then isString x
  else if decide (k = "l") then isNonEmptyString x
  else if decide (k = "s") then isNumber x
  else if decide (k = "e") then
    match x with Slice items => forallb wf items | _ => false end
  else match Json.fieldOfKey k with None => true | Some _ => false end.

(** The key [k] names one member at most. *)
Fixpoint atMostOnce (k : string) (m : list (string * any)) : bool :=
  match m with
  | [] => true
  | (k', _) :: rest =>
      if decide (k' = k) then negb (hasKey k rest) else atMostOnce k rest
  end.

(** A file node (a non-empty link, a name and a size, no children) or a
    directory node (children, possibly none, given once, and no link). *)
Fixpoint wfNode (node : any) : bool :=
  match node with
  | Map m =>
      forallb (λ kv, memberOk wfNode kv.1 kv.2) m
      && (if hasKey "e" m then atMostOnce "e" m && negb (hasKey "l" m)
          else hasKey "l" m && hasKey "n" m && hasKey "s" m)
  | _ => false
  end.

Definition wfTree (data : any) : bool :=
  match data with
  | Slice roots => forallb wfNode roots
  | _ => false
  end.


End Shape.

(** ** Decoded nodes and what the walkers make of them *)

(** The fields of an object decoded into [acc]: the last members under
    their keys, the children being decoded into a slice that was nil. *)
Definition decodedFrom (decodeValue : any → Json.slot → option Json.slot)
    (acc : Json.slot) (m : list (string * any)) (node : Json.slot) : Prop :=
  match mapIndex "n" m with
  | None => Json.Name node = Json.Name acc
  | Some n => n = Str (Json.Name node)
  end
  ∧ match mapIndex "l" m with
    | None => Json.Link node = Json.Link acc
    | Some l => l = Str (Json.Link node)
    end
  ∧ match mapIndex "s" m with
    | None => Json.Size node = Json.Size acc
    | Some s => s = Float64 (Json.Size node)
    end
  ∧ match mapIndex "e" m with
    | None => Json.Entries node = Json.Entries acc
    | Some e => ∃ items, e = Slice items
                         ∧ Json.decodeEach Json.zero decodeValue [] items
                           = Some (Json.Entries node)
    end.

(** The decoded node flattens to what the untyped walker computes. *)
Definition agrees (node : any) : Prop :=
  ∃ s, Json.decodeNode node Json.zero = Some s
       ∧ ∀ p, Untyped.flattenTreeWithPath node p
              = Some (Typed.flattenTreeWithPath (Json.view s) p).

Definition agreesAll (items : list any) : Prop :=
  ∃ es, Json.decodeEach Json.zero Json.decodeNode [] items = Some es
        ∧ length es = length items
        ∧ ∀ p, mapM (λ item, Untyped.flattenTreeWithPath item p) items
               = Some ((λ e, Typed.flattenTreeWithPath (Json.view e) p) <$> es).

(** ** Links and the size filter *)

(** [Link], a downloadable link with its metadata (alldebrid/types.go, lines
    3-14). *)
Module Link.

Record t : Type :=
  mk { Filename : string; URL : string; Size : Z; DownloadURL : string }.

(** [SizeMB]: [float64(l.Size) / 1048576]. *)
Definition SizeMB (l : t) : float :=
  (float64_of_int64 (Size l) / 1048576)%float.

End Link.

(** [lo.Filter] of github.com/samber/lo, which [run] calls: it appends to a
    fresh slice every item its predicate accepts, passing the index along. *)
Definition lo_Filter {T : Type} (collection : list T) (predicate : T → nat → bool)
  : list T :=
  (fix range (result : list T) (i : nat) (items : list T) : list T :=
     match items with
     | [] => result
     | item :: rest =>
         range (if predicate item i then result ++ [item] else result) (S i) rest
     end) [] 0%nat collection.

(** The filtering step of [run] (unnamed/part_000, lines 124-128):
    [if args.IgnoreFilesSmallerThanMB > 0 { links = lo.Filter(links, ...) }]
    with the predicate [link.SizeMB() >= args.IgnoreFilesSmallerThanMB]. The
    step only reads the links: a link is given by its value. *)
Definition run_filter (IgnoreFilesSmallerThanMB : float) (links : list Link.t)
  : list Link.t :=
  if (0 <? IgnoreFilesSmallerThanMB)%float then
    lo_Filter links (λ link _, (IgnoreFilesSmallerThanMB <=? Link.SizeMB link)%float)
  else links.

(** [filterLargeFiles] (unnamed/part_000, lines 80-89), which no revision of
    [run] calls: strictly larger. *)
Definition filterLargeFiles (links : list Link.t) (minSizeMB : float) : list Link.t :=
  appendEach
    (λ link, if (minSizeMB <? Link.SizeMB link)%float then [link] else [])
    [] links.

(** ** Errors, requests and responses *)

(** A Go [error] value. *)
Inductive error : Type :=
| Canceled                                  (* context.Canceled *)
| DeadlineExceeded                          (* context.DeadlineExceeded *)
| Foreign (msg : string)                    (* an error of the HTTP or JSON library *)
| APIError (e : option (string * string))   (* the [*Error] the response hook returns *)
| Errorf (msg : string) (cause : option error). (* fmt.Errorf, wrapping [cause] with %w *)

(** A Go [(T, error)] result of a library call. *)
Inductive result (A : Type) : Type :=
| Ok (a : A)
| Err (e : error).
Arguments Ok {A} a.
Arguments Err {A} e.

Module Request.
Record t : Type := mk { Method : string; Path : string; Params : list (string * string) }.
End Request.

(** [APIResponse[T]], the envelope of every reply. *)
Module APIResponse.
Record t (T : Type) : Type :=
  mk { Status : string; Data : T; Error : option (string * string) }.
Arguments mk {T} Status Data Error.
Arguments Status {T} _.
Arguments Data {T} _.
Arguments Error {T} _.
End APIResponse.

Module UnrestrictResponse.
Record t : Type := mk { Filename : string; Filesize : Z; Link : string }.
End UnrestrictResponse.

Module MagnetUpload.
Record t : Type := mk { ID : Z }.
End MagnetUpload.

Module FileUpload.
Record t : Type := mk { ID : Z }.
End FileUpload.

Module UploadResponse.
Record t : Type := mk { Files : list FileUpload.t; Magnets : list MagnetUpload.t }.
End UploadResponse.

Module MagnetFiles.
Record t : Type := mk { Files : list TorrentNode.t }.
End MagnetFiles.

Module MagnetFilesResponse.
Record t : Type := mk { Magnets : list MagnetFiles.t }.
End MagnetFilesResponse.

(** ** Contexts, as far as the client uses them

    Times are nanoseconds, like [time.Duration]. A context is known by the
    time at which it is done, if ever, and by the error it then reports. *)
Module Context.

Inductive reason : Type := ByCancel | ByDeadline.

Definition reasonErr (r : reason) : error :=
  match r with ByCancel => Canceled | ByDeadline => DeadlineExceeded end.

Record t : Type := mk { doneAt : option Z; why : reason }.

(** [context.Background()] is never done. *)
Definition Background : t := mk None ByCancel.

(** [<-ctx.Done()] can be received at time [now]. *)
Definition isDone (ctx : t) (now : Z) : bool :=
  match doneAt ctx with
  | Some d => bool_decide (d ≤ now)
  | None => false
  end.

(** [ctx.Err()] at time [now]. *)
Definition Err (ctx : t) (now : Z) : option error :=
  if isDone ctx now then Some (reasonErr (why ctx)) else None.

(** [context.WithTimeout(parent, timeout)] called at time [now]. A parent
    that is done already cancels the new context at once, with its own error,
    whatever the timeout ([propagateCancel] comes before the test of the
    deadline); so does a parent that ends before the timeout has run;
    otherwise the context is done when the timeout has run, at once when the
    timeout is not positive. (When the parent is cancelled at the very instant
    the timeout has run, the timer is taken to be first.) *)
Definition WithTimeout (parent : t) (now timeout : Z) : t :=
  match doneAt parent with
  | Some d =>
      if bool_decide (d ≤ now) then parent
      else if bool_decide (d < now + timeout) then parent
      else mk (Some (now + timeout)) ByDeadline
  | None => mk (Some (now + timeout)) ByDeadline
  end.

End Context.

(** ** The remote service and the Go runtime

    What the client cannot decide is left to the environment: what an HTTP
    exchange returns and how long it takes, what [UnmarshalJson] makes of a
    response, which ready case a [select] takes, and in which order the
    goroutines of a fan-out get their turn. *)
Class Remote : Type := {
  Net : Type;
  Response : Type;
  (** the exchange of a request sent at a time: its result, its duration in
      nanoseconds, and the state it leaves *)
  roundTrip : Request.t → Z → Net → result Response * N * Net;
  IsErrorState : Response → bool;
  UnmarshalJson_Error : Response → result (option (string * string));
  UnmarshalJson_Unrestrict : Response → result (APIResponse.t UnrestrictResponse.t);
  UnmarshalJson_Upload : Response → result (APIResponse.t UploadResponse.t);
  UnmarshalJson_MagnetFiles : Response → result (APIResponse.t MagnetFilesResponse.t);
  (** [select] with both cases ready: [true] takes [<-ctx.Done()] *)
  selectDone : Net → bool;
  (** which of [n] pending goroutines runs next (taken modulo [n]) *)
  nextGoroutine : Net → nat → nat
}.

(** A pointer to a [Link] (never nil in this code). *)
Definition Ptr : Type := nat.

Inductive Level : Type := LDebug | LWarn | LError.

(** What the client does that can be observed, plus one bookkeeping event. *)
Inductive Event : Type :=
| Sent (t : Z) (req : Request.t)             (* a request left at time [t] *)
| Logged (level : Level) (msg : string)      (* a call of the logger *)
| Unlocked (link : Ptr) (downloadURL : option string).
    (* [unrestrictLink] ended on [link]: the URL it stored, if the unlock succeeded *)

Section Client.
Context `{Remote}.

Record World : Type := mkWorld {
  now : Z;                 (* the clock *)
  net : Net;               (* the network and the remote service *)
  heap : Ptr → Link.t;     (* the links allocated so far *)
  next : Ptr;              (* the next free pointer *)
  trace : list Event       (* the events so far, oldest first *)
}.

(** Computations on the world. *)
Definition M (A : Type) : Type := World → A * World.

Global Instance M_ret : MRet M := λ A a w, (a, w).
Global Instance M_bind : MBind M := λ A B f m w, let '(a, w') := m w in f a w'.

Definition emit (e : Event) : M unit :=
  λ w, (tt, mkWorld (now w) (net w) (heap w) (next w) (trace w ++ [e])).

Definition setNow (t : Z) : M unit :=
  λ w, (tt, mkWorld t (net w) (heap w) (next w) (trace w)).

Definition getNow : M Z := λ w, (now w, w).

(** [&Link{...}] *)
Definition alloc (l : Link.t) : M Ptr :=
  λ w, (next w, mkWorld (now w) (net w) (<[next w := l]> (heap w)) (S (next w)) (trace w)).

(** [*p] *)
Definition load (p : Ptr) : M Link.t := λ w, (heap w p, w).

(** [p.DownloadURL = url] *)
Definition storeDownloadURL (p : Ptr) (url : string) : M unit :=
  λ w,
    let l := heap w p in
    let l' := Link.mk (Link.Filename l) (Link.URL l) (Link.Size l) url in
    (tt, mkWorld (now w) (net w) (<[p := l']> (heap w)) (next w) (trace w)).

(** The hook [OnAfterResponse] of [NewClient] (client.go, lines 321-332): a
    response in error state becomes an error, whatever its body. *)
Definition OnAfterResponse (res : Response) : option error :=
  if IsErrorState res then
    match UnmarshalJson_Error res with
    | Err e => Some (Errorf "failed to unmarshal error as json" (Some e))
    | Ok apiError => Some (APIError apiError)
    end
  else None.

(** What the caller gets from an exchange that came to its end. *)
Definition received (r : result Response) : result Response :=
  match r with
  | Err e => Err e
  | Ok res =>
      match OnAfterResponse res with
      | Some e => Err e
      | None => Ok res
      end
  end.

(** The error of a request that its context has ended. *)
Definition interrupted (ctx : Context.t) (req : Request.t) : error :=
  Errorf (Request.Method req) (Some (Context.reasonErr (Context.why ctx))).

(** [c.client.R().SetContext(ctx)...Get(path)] or [Post(path)]. A request
    under a context that is done fails at once, nothing being sent; an
    exchange that would outlast its context is abandoned when the context
    ends. *)
Definition send (ctx : Context.t) (req : Request.t) : M (result Response) :=
  λ w,
    if Context.isDone ctx (now w) then (Err (interrupted ctx req), w)
    else
      let '(r, d, net') := roundTrip req (now w) (net w) in
      let finish := now w + Z.of_N d in
      let sent := trace w ++ [Sent (now w) req] in
      match Context.doneAt ctx with
      | Some ends =>
          if bool_decide (ends < finish) then
            (Err (interrupted ctx req), mkWorld ends net' (heap w) (next w) sent)
          else (received r, mkWorld finish net' (heap w) (next w) sent)
      | None => (received r, mkWorld finish net' (heap w) (next w) sent)
      end.

(** *** The operations of client.go *)

(** [UnrestrictURL] (client.go, lines 340-364). The link it returns is fresh
    and shared with nobody: it is given by value. *)
Definition UnrestrictURL (ctx : Context.t) (url : string) : M (result Link.t) :=
  emit (Logged LDebug "Starting link unrestriction");;
  r ← send ctx (Request.mk "GET" "/link/unlock" [("link", url)]);
  match r with
  | Err e => mret (Err (Errorf "failed to send unrestrict request" (Some e)))
  | Ok res =>
      match UnmarshalJson_Unrestrict res with
      | Err e => mret (Err (Errorf "failed to parse unlock response" (Some e)))
      | Ok result =>
          let data := APIResponse.Data result in
          mret (Ok (Link.mk (UnrestrictResponse.Filename data) url
                      (UnrestrictResponse.Filesize data)
                      (UnrestrictResponse.Link data)))
      end
  end.

(** [UploadMagnet] (client.go, lines 426-454): the identifier and the error,
    as Go returns them. *)
Definition UploadMagnet (ctx : Context.t) (magnetURI : string) : M (Z * option error) :=
  r ← send ctx (Request.mk "POST" "/magnet/upload" [("magnets[]", magnetURI)]);
  match r with
  | Err e => mret (0, Some (Errorf "upload failed" (Some e)))
  | Ok res =>
      match UnmarshalJson_Upload res with
      | Err e => mret (0, Some (Errorf "failed to parse response" (Some e)))
      | Ok result =>
          match UploadResponse.Magnets (APIResponse.Data result) with
          | [] =>
              emit (Logged LError "No magnets uploaded in response");;
              mret (0, Some (Errorf "no magnets uploaded" None))
          | first :: _ =>
              let magnetID := MagnetUpload.ID first in
              emit (Logged LDebug "Magnet uploaded successfully");;
              mret (magnetID, None)
          end
      end
  end.

(** The loop of [GetTorrentLinks] that allocates a link per file. *)
Fixpoint linksOf (allFiles : list Ptr) (files : list FileEntry.t) : M (list Ptr) :=
  match files with
  | [] => mret allFiles
  | file :: rest =>
      link ← alloc (Link.mk (FileEntry.Name file) (FileEntry.Link file)
                      (FileEntry.Size file) "");
      linksOf (allFiles ++ [link]) rest
  end.

(** [GetTorrentLinks] (client.go, lines 457-499). *)
Definition GetTorrentLinks (ctx : Context.t) (torrentID : Z)
  : M (list Ptr * option error) :=
  r ← send ctx (Request.mk "POST" "/magnet/files" [("id[]", pretty torrentID)]);
  match r with
  | Err e =>
      mret ([], Some (Errorf "failed send request to list magnet files" (Some e)))
  | Ok res =>
      match UnmarshalJson_MagnetFiles res with
      | Err e => mret ([], Some (Errorf "failed to parse response" (Some e)))
      | Ok result =>
          match MagnetFilesResponse.Magnets (APIResponse.Data result) with
          | [] =>
              emit (Logged LDebug "No magnets found in response");;
              mret ([], None)
          | first :: _ =>
              let files := Typed.flattenTree (MagnetFiles.Files first) in
              allFiles ← linksOf [] files;
              emit (Logged LDebug "Retrieved torrent links successfully");;
              mret (allFiles, None)
          end
      end
  end.

(** [unrestrictLink] (client.go, lines 501-515). The last event is
    bookkeeping. *)
Definition unrestrictLink (ctx : Context.t) (link : Ptr) : M Ptr :=
  l ← load link;
  r ← UnrestrictURL ctx (Link.URL l);
  match r with
  | Err e =>
      emit (Logged LError "Failed to unrestrict link");;
      emit (Unlocked link None);;
      mret link
  | Ok unrestrictedLink =>
      storeDownloadURL link (Link.DownloadURL unrestrictedLink);;
      emit (Unlocked link (Some (Link.DownloadURL unrestrictedLink)));;
      mret link
  end.

(** The goroutines of the fan-out, [n] of them pending. They all start at
    [start]; the environment picks the order in which their exchanges reach
    the remote service; [latest] is the time at which the last one so far
    has ended, which is when [wg.Wait()] returns. A goroutine makes one
    exchange and reads and writes its own link only, so interleaving them
    more finely changes nothing. *)
Fixpoint goroutines (n : nat) (ctx : Context.t) (start latest : Z)
    (pending : list Ptr) : M unit :=
  match n with
  | O => setNow latest
  | S n' =>
      λ w,
        let i := (nextGoroutine (net w) (length pending) `mod` length pending)%nat in
        match pending !! i with
        | None => setNow latest w
        | Some l =>
            let '(_, w1) := (setNow start;; unrestrictLink ctx l) w in
            goroutines n' ctx start (latest `max` now w1) (delete i pending) w1
        end
  end.

(** [for _, link := range links { wg.Add(1); go ... }; wg.Wait()] *)
Definition fanOut (ctx : Context.t) (links : list Ptr) : M unit :=
  start ← getNow;
  goroutines (length links) ctx start start links.


(** *** The polling loop *)

(** The period of the ticker, [10 * time.Second]. *)
Definition period : Z := 10 * 1000000000.

(** The loop's own state: when the ticker's channel next holds a tick, and
    the counter [attempts]. *)
Record PollState : Type := mkPoll { nextTick : Z; attempts : Z }.

Inductive Case : Type := CaseDone | CaseTick.

(** [select { case <-ctx.Done(): ... case <-ticker.C: ... }]. The goroutine
    sleeps until a case is ready; of two ready cases the runtime picks one. *)
Definition select (ctx : Context.t) (st : PollState) : M Case :=
  λ w,
    let firstReady :=
      match Context.doneAt ctx with
      | Some d => d `min` nextTick st
      | None => nextTick st
      end in
    let wake := now w `max` firstReady in
    let doneReady := Context.isDone ctx wake in
    let tickReady := bool_decide (nextTick st ≤ wake) in
    let case :=
      if doneReady && tickReady then
        if selectDone (net w) then CaseDone else CaseTick
      else if doneReady then CaseDone
      else CaseTick in
    (case, mkWorld wake (net w) (heap w) (next w) (trace w)).

(** The ticker after a tick was received at [received]: ticks that found
    the channel full were dropped, the next one is the first after. *)
Definition tickAfter (tick received : Z) : Z :=
  tick + period * ((received - tick) `div` period + 1).

(** What one pass through the loop does: go on polling, or return. *)
Inductive Outcome : Type :=
| Continue (st : PollState)
| Return (links : list Ptr) (err : option error).

Definition pollOnce (ctx : Context.t) (magnetID : Z) (st : PollState) : M Outcome :=
  case ← select ctx st;
  match case with
  | CaseDone =>
      emit (Logged LWarn "Timeout reached while waiting for download links");;
      t ← getNow;
      mret (Return [] (Context.Err ctx t))
  | CaseTick =>
      received ← getNow;
      let st := mkPoll (tickAfter (nextTick st) received) (attempts st + 1) in
      emit (Logged LDebug "Checking for torrent links");;
      '(links, err) ← GetTorrentLinks ctx magnetID;
      match err with
      | Some _ =>
          emit (Logged LWarn "Failed to get torrent links, retrying");;
          mret (Continue st)
      | None =>
          if bool_decide (0 < length links)%nat then
            emit (Logged LDebug "Found download links, starting unrestriction");;
            fanOut ctx links;;
            mret (Return links None)
          else
            emit (Logged LDebug "No links ready yet, waiting for next check");;
            mret (Continue st)
      end
  end.

(** [for { select { ... } }], for at most [fuel] passes. *)
Fixpoint pollLoop (fuel : nat) (ctx : Context.t) (magnetID : Z) (st : PollState)
  : M (option (list Ptr * option error)) :=
  match fuel with
  | O => mret None
  | S fuel' =>
      o ← pollOnce ctx magnetID st;
      match o with
      | Continue st' => pollLoop fuel' ctx magnetID st'
      | Return links err => mret (Some (links, err))
      end
  end.

(** The world once a message is logged. *)
Definition logAt (level : Level) (msg : string) (w : World) : World :=
  (emit (Logged level msg) w).2.

(** The events that happened between two worlds, the second being later. *)
Definition since (w w' : World) : list Event :=
  drop (length (trace w)) (trace w').

(** The state of the loop after [k] passes, if none of them returned. *)
Fixpoint passes (k : nat) (ctx : Context.t) (magnetID : Z) (st : PollState)
  : M (option PollState) :=
  match k with
  | O => mret (Some st)
  | S k' =>
      o ← pollOnce ctx magnetID st;
      match o with
      | Continue st' => passes k' ctx magnetID st'
      | Return _ _ => mret None
      end
  end.

(** The context and the state with which [WaitForDownloadLinks] enters its
    loop when called at time [t0]. *)
Definition loopContext (parent : Context.t) (t0 timeout : Z) : Context.t :=
  Context.WithTimeout parent t0 timeout.

Definition loopStart (t0 : Z) : PollState := mkPoll (t0 + period) 0.

(** [WaitForDownloadLinks] (client.go, lines 518-583); [None] when [fuel]
    passes were not enough. *)
Definition WaitForDownloadLinks (fuel : nat) (parent : Context.t) (magnetID timeout : Z)
  : M (option (list Ptr * option error)) :=
  emit (Logged LDebug "Starting to wait for download links");;
  t0 ← getNow;
  let ctx := Context.WithTimeout parent t0 timeout in
  let st := mkPoll (t0 + period) 0 in
  pollLoop fuel ctx magnetID st.

End Client.

(** ** Reading a trace *)

(** The times at which the requests of a trace were sent. *)
Definition sentTimes (evs : list Event) : list Z :=
  omap (λ e, match e with Sent t _ => Some t | _ => None end) evs.

(** The links [unrestrictLink] ended on, oldest first, each with the download
    URL it stored, if any. *)
Definition unlocks (evs : list Event) : list (Ptr * option string) :=
  omap (λ e, match e with Unlocked p r => Some (p, r) | _ => None end) evs.

(** The link at [u.1] once an unlock ended on it with [u.2]: only its
    download URL can have changed. *)
Definition resolved (h : Ptr → Link.t) (u : Ptr * option string) : Link.t :=
  let l := h u.1 in
  Link.mk (Link.Filename l) (Link.URL l) (Link.Size l)
    (default (Link.DownloadURL l) u.2).


(** ** A scripted remote, to run the client on examples

    The service answers the requests in the order of a script; a response
    decodes as what the script says it carries. *)
Module Script.

Inductive Body : Type :=
| Unlocks (data : UnrestrictResponse.t)
| Uploads (data : UploadResponse.t)
| Lists (data : MagnetFilesResponse.t)
| Refuses (code message : string)      (* an HTTP error state *)
| Garbage.                             (* a body that is not JSON *)

(** The exchanges still to come: what each returns and how long it takes. *)
Definition Script : Type := list (result Body * N).

Definition noJSON {A : Type} : result A := Err (Foreign "invalid character").

Definition remote : Remote := {|
  Net := Script;
  Response := Body;
  roundTrip _ _ script :=
    match script with
    | [] => (Err (Foreign "connection refused"), 0%N, [])
    | (r, d) :: rest => (r, d, rest)
    end;
  IsErrorState res := match res with Refuses _ _ => true | _ => false end;
  UnmarshalJson_Error res :=
    match res with Refuses c m => Ok (Some (c, m)) | _ => noJSON end;
  UnmarshalJson_Unrestrict res :=
    match res with
    | Unlocks data => Ok (APIResponse.mk "success" data None)
    | _ => noJSON
    end;
  UnmarshalJson_Upload res :=
    match res with
    | Uploads data => Ok (APIResponse.mk "success" data None)
    | _ => noJSON
    end;
  UnmarshalJson_MagnetFiles res :=
    match res with
    | Lists data => Ok (APIResponse.mk "success" data None)
    | _ => noJSON
    end;
  selectDone _ := true;
  nextGoroutine script _ := length script
|}.

(** A world at time 0 with nothing allocated. *)
Definition start (script : Script) : @World remote :=
  @mkWorld remote 0 script (λ _, Link.mk "" "" 0 "") 0%nat [].

Definition second : Z := 1000000000.

(** Two files, as the service lists them once the job is done. *)
Definition twoFiles : MagnetFilesResponse.t :=
  MagnetFilesResponse.mk
    [MagnetFiles.mk
       [TorrentNode.mk "movies" "" 0
          [TorrentNode.mk "a.mkv" "https://l/a" 9 [];
           TorrentNode.mk "b.mkv" "https://l/b" 7 []]]].

Definition stillProcessing : MagnetFilesResponse.t :=
  MagnetFilesResponse.mk [MagnetFiles.mk []].

(** A job that is still processing at the first tick, whose second and third
    polls fail (a body that is not JSON, then a transport error), and whose
    fourth poll lists two files; the first file unlocks, the second is
    refused. *)
Definition partialFailure : Script :=
  [(Ok (Lists stillProcessing), 1000%N);
   (Ok Garbage, 5%N);
   (Err (Foreign "connection reset"), 7%N);
   (Ok (Lists twoFiles), 1000%N);
   (Ok (Unlocks (UnrestrictResponse.mk "a.mkv" 9 "https://d/a")), 3000%N);
   (Ok (Refuses "LINK_DOWN" "This link is not available"), 1000%N)].

(** A job whose files are there from the start and unlock at once. *)
Definition alreadyDone : Script :=
  [(Ok (Lists twoFiles), 1000%N);
   (Ok (Unlocks (UnrestrictResponse.mk "a.mkv" 9 "https://d/a")), 1000%N);
   (Ok (Unlocks (UnrestrictResponse.mk "b.mkv" 7 "https://d/b")), 1000%N)].

End Script.

(** ** The rest of the client: uploading a torrent file

    What [UploadTorrent] needs besides the remote service: the local file
    and two library calls. *)
Class Host `{Remote} : Type := {
  (** [os.Open(path)]: the error, when the file does not open *)
  os_Open : string → option error;
  (** [file.Close()] of the file opened at a path *)
  file_Close : string → option error;
  (** [filepath.Base] *)
  filepath_Base : string → string;
  (** [res.UnmarshalJson(&res)], the body decoded into the response itself:
      the error, if any *)
  UnmarshalJson_Response : Response → option error
}.

Section Upload.
Context `{Host}.

(** [UploadTorrent] (client.go, lines 367-423). The envelope [result] is
    declared and never assigned: line 404 decodes into [res]. The deferred
    [file.Close()] runs when the function returns. *)
Definition UploadTorrent (ctx : Context.t) (torrentPath : string) : M (Z * option error) :=
  emit (Logged LDebug "Starting torrent file upload");;
  match os_Open torrentPath with
  | Some err =>
      emit (Logged LError "Failed to open torrent file");;
      mret (0, Some (Errorf "failed to open torrent file" (Some err)))
  | None =>
      returned ←
        (r ← send ctx (Request.mk "POST" "/magnet/upload/file"
                         [("files[]", filepath_Base torrentPath)]);
         match r with
         | Err e => mret (0, Some (Errorf "failed to upload magnet" (Some e)))
         | Ok res =>
             let result : APIResponse.t UploadResponse.t :=
               APIResponse.mk "" (UploadResponse.mk [] []) None in
             match UnmarshalJson_Response res with
             | Some e =>
                 emit (Logged LError "Failed to parse torrent upload response");;
                 mret (0, Some (Errorf "failed to parse response" (Some e)))
             | None =>
                 match UploadResponse.Files (APIResponse.Data result) with
                 | [] => mret (0, Some (Errorf "no files uploaded" None))
                 | first :: _ =>
                     let magnetID := FileUpload.ID first in
                     emit (Logged LDebug "Torrent uploaded successfully");;
                     mret (magnetID, None)
                 end
             end
         end);
      match file_Close torrentPath with
      | Some closeErr => emit (Logged LWarn "failed to close torrent file")
      | None => mret tt
      end;;
      mret returned
  end.

End Upload.

(** ** The command line and the output *)

(** What is left to the libraries when text is read and written. *)
Class Text : Type := {
  (** [strings.Map(unicode.ToLower, s)], for a string that is not all ASCII *)
  strings_Map_ToLower : string → string;
  (** [url.QueryEscape] *)
  url_QueryEscape : string → string;
  (** the verb [%.1f] *)
  fmt_f1 : float → string;
  (** the verb [%v] of an error *)
  fmt_v : error → string
}.

Definition newline : string := String (Ascii.ascii_of_nat 10) "".

(** [errors.New(text)]: an error that is its text and wraps nothing. *)
Definition errors_New (text : string) : error := Errorf text None.

Module strings.

(** [len(s) >= len(prefix) && s[:len(prefix)] == prefix] *)
Definition HasPrefix (s prefix : string) : bool :=
  bool_decide (String.length prefix ≤ String.length s)%nat
  && bool_decide (String.substring 0 (String.length prefix) s = prefix).

(** [len(s) >= len(suffix) && s[len(s)-len(suffix):] == suffix] *)
Definition HasSuffix (s suffix : string) : bool :=
  bool_decide (String.length suffix ≤ String.length s)%nat
  && bool_decide (String.substring (String.length s - String.length suffix)
                    (String.length suffix) s = suffix).

Fixpoint isASCII (s : string) : bool :=
  match s with
  | EmptyString => true
  | String c rest => (Ascii.nat_of_ascii c <? 128)%nat && isASCII rest
  end.

(** ['A' <= c && c <= 'Z'] gives [c + 'a' - 'A']. *)
Definition lowerByte (c : Ascii.ascii) : Ascii.ascii :=
  let n := Ascii.nat_of_ascii c in
  if (65 <=? n)%nat && (n <=? 90)%nat then Ascii.ascii_of_nat (n + 32) else c.

Fixpoint lowerBytes (s : string) : string :=
  match s with
  | EmptyString => EmptyString
  | String c rest => String (lowerByte c) (lowerBytes rest)
  end.

(** [strings.ToLower]: byte by byte on an ASCII string, by Unicode's table
    otherwise. *)
Definition ToLower `{Text} (s : string) : string :=
  if isASCII s then lowerBytes s else strings_Map_ToLower s.

(** [strings.Join(elems, sep)] *)
Definition Join (elems : list string) (sep : string) : string :=
  match elems with
  | [] => ""
  | first :: rest => fold_left (λ b s, b +:+ sep +:+ s) rest first
  end.

End strings.

(** The values [flag.Parse] stores: the flags of the command line, or their
    defaults. *)
Module Flags.
Record t : Type := mk {
  Token : string;
  PrintAsHTML : bool;
  PrintAsJSON : bool;
  Debug : bool;
  Version : bool;
  Timeout : Z;
  IgnoreFilesSmallerThanMB : float
}.
End Flags.

(** [cliArgs] (unnamed/part_000, lines 21-33); a nil [*string] is [None]. *)
Module cliArgs.

Record t : Type := mk {
  Link : option string;
  Magnet : option string;
  TorrentFilePath : option string;
  Token : string;
  PrintAsHTML : bool;
  PrintAsJSON : bool;
  Debug : bool;
  Version : bool;
  Timeout : Z;
  IgnoreFilesSmallerThanMB : float
}.

(** [Validate] (unnamed/part_000, lines 35-54). *)
Definition Validate (a : t) : option error :=
  if Version a then None
  else if bool_decide (Link a = None ∧ Magnet a = None ∧ TorrentFilePath a = None) then
    Some (errors_New "either link, magnet, or torrent file path must be provided")
  else if bool_decide (Token a = "") then
    Some (errors_New "token must be provided")
  else if PrintAsHTML a && PrintAsJSON a then
    Some (errors_New "only one of html or json output can be specified")
  else None.

End cliArgs.

(** [parseArgs] (unnamed/part_000, lines 56-78): [flags] is what
    [flag.Parse] stored and [input] is [flag.Arg(0)], empty when the command
    line has no argument. *)
Definition parseArgs `{Text} (flags : Flags.t) (input : string) : cliArgs.t :=
  let args (Link Magnet TorrentFilePath : option string) :=
    cliArgs.mk Link Magnet TorrentFilePath
      (Flags.Token flags) (Flags.PrintAsHTML flags) (Flags.PrintAsJSON flags)
      (Flags.Debug flags) (Flags.Version flags) (Flags.Timeout flags)
      (Flags.IgnoreFilesSmallerThanMB flags) in
  if strings.HasPrefix input "magnet:" then args None (Some input) None
  else if strings.HasPrefix input "http:" || strings.HasPrefix input "https:" then
    args (Some input) None None
  else if strings.HasSuffix (strings.ToLower input) ".torrent" then
    args None None (Some input)
  else args None None None.

(** *** The printers of output.go

    A printer is given by the text it writes to the standard output; it
    only reads the links, which are given by their values. *)

(** [PrintLinks] (output.go, lines 13-19). *)
Definition PrintLinks (links : list Link.t) : string :=
  (fix range (stdout : string) (links : list Link.t) : string :=
     match links with
     | [] => stdout
     | link :: rest =>
         range (if decide (Link.DownloadURL link ≠ "")
                then stdout +:+ Link.DownloadURL link +:+ newline
                else stdout) rest
     end) "" links.

Definition css : string := "
        body {
            margin: 0;
            padding: 1rem;
            font-family: consolas, menlo, monospace;
            font-size: 14px;
        }
        table {
            border-collapse: collapse;
            width: 100%;
        }
        th, td {
            border: 1px solid black;
            padding: 8px;
            text-align: left;
        }
        td.numeric {
            text-align: right;
        }
    ".

(** [PrintLinksAsHTML] (output.go, lines 22-74); each [fmt.Sprintf] is
    written with its arguments in place. *)
Definition PrintLinksAsHTML `{Text} (links : list Link.t) : string :=
  let rowHTMLs :=
    appendEach
      (λ link,
         if decide (Link.DownloadURL link = "") then []
         else
           let encodedLink := url_QueryEscape (Link.DownloadURL link) in
           let alfredLink :=
             "alfred://runtrigger/piracy/direct_link/?argument=" +:+ encodedLink in
           let rowHTML := "
            <tr>
                <td><a href='" +:+ Link.DownloadURL link +:+ "'>" +:+ Link.Filename link +:+ "</a></td>
                <td class='numeric'>" +:+ fmt_f1 (Link.SizeMB link) +:+ "</td>
                <td><a href='" +:+ alfredLink +:+ "'>Alfred</a></td>
            </tr>
        " in
           [rowHTML])
      [] links in
  let tableHTML := "
        <style>" +:+ css +:+ "</style>
        <table>
            <thead><tr>
                <th>Filename</th>
                <th>Size MB</th>
                <th>Action</th>
            </tr></thead>
            <tbody>" +:+ strings.Join rowHTMLs "" +:+ "</tbody>
        </table>
    " in
  tableHTML.

(** [LinkOutput], the record [PrintLinksAsJSON] encodes. *)
Module LinkOutput.
Record t : Type :=
  mk { Filename : string; DownloadURL : string; SizeBytes : Z; SizeMB : float }.
End LinkOutput.

(** [json.MarshalIndent(output, prefix, indent)] of a slice of [LinkOutput]
    that is not nil. *)
Class Marshal : Type := {
  json_MarshalIndent : list LinkOutput.t → string → string → result string
}.

(** [PrintLinksAsJSON] (output.go, lines 77-106). *)
Definition PrintLinksAsJSON `{Text, Marshal} (links : list Link.t) : string :=
  let output :=
    appendEach
      (λ link,
         if decide (Link.DownloadURL link ≠ "") then
           [LinkOutput.mk (Link.Filename link) (Link.DownloadURL link)
              (Link.Size link) (Link.SizeMB link)]
         else [])
      [] links in
  match json_MarshalIndent output "" "  " with
  | Err err => "Error marshaling JSON: " +:+ fmt_v err +:+ newline
  | Ok jsonData => jsonData +:+ newline
  end.

(** *** [run] *)

Section Run.
Context `{Host, !Text, !Marshal}.

(** The links behind a list of pointers. *)
Definition loadEach (links : list Ptr) : M (list Link.t) :=
  λ w, (heap w <$> links, w).

(** [run] (unnamed/part_000, lines 91-140). The switch gives the links, or
    the error with which [run] returns at once; then come the size filter
    and the printer the flags choose. What [run] wrote to the standard
    output is returned with its error; [None] when [fuel] passes of the
    polling loop were not enough. The filter and the printers only read the
    links, which are passed on by their values. *)
Definition run (fuel : nat) (ctx : Context.t) (args : cliArgs.t)
  : M (option (string * option error)) :=
  switched ←
    match cliArgs.Magnet args, cliArgs.Link args, cliArgs.TorrentFilePath args with
    | Some magnet, _, _ =>
        '(magnetID, err) ← UploadMagnet ctx magnet;
        match err with
        | Some err => mret (Some (Err (Errorf "failed to upload magnet" (Some err))))
        | None =>
            waited ← WaitForDownloadLinks fuel ctx magnetID (cliArgs.Timeout args);
            match waited with
            | None => mret None
            | Some (_, Some err) =>
                mret (Some (Err (Errorf "failed to get download links" (Some err))))
            | Some (links, None) =>
                links ← loadEach links;
                mret (Some (Ok links))
            end
        end
    | None, Some link, _ =>
        r ← UnrestrictURL ctx link;
        match r with
        | Err err => mret (Some (Err (Errorf "failed to unrestrict URL" (Some err))))
        | Ok link => mret (Some (Ok [link]))
        end
    | None, None, Some torrentFilePath =>
        '(torrentID, err) ← UploadTorrent ctx torrentFilePath;
        match err with
        | Some err => mret (Some (Err (Errorf "failed to upload torrent" (Some err))))
        | None =>
            waited ← WaitForDownloadLinks fuel ctx torrentID (cliArgs.Timeout args);
            match waited with
            | None => mret None
            | Some (_, Some err) =>
                mret (Some (Err (Errorf "failed to get download links" (Some err))))
            | Some (links, None) =>
                links ← loadEach links;
                mret (Some (Ok links))
            end
        end
    | None, None, None => mret (Some (Ok []))
    end;
  match switched with
  | None => mret None
  | Some (Err err) => mret (Some ("", Some err))
  | Some (Ok links) =>
      let links := run_filter (cliArgs.IgnoreFilesSmallerThanMB args) links in
      let printLinksFn :=
        if cliArgs.PrintAsHTML args then PrintLinksAsHTML
        else if cliArgs.PrintAsJSON args then PrintLinksAsJSON
        else PrintLinks in
      mret (Some (printLinksFn links, None))
  end.

End Run.

(** *** [main] *)


(** The levels [main] logs at. *)
Inductive Severity : Type := SInfo | SError | SFatal.

(** How the program ends: its exit status, what it wrote to the standard
    output, and the line [main] itself logged, if any. *)
Module Exit.
Record t : Type :=
  mk { code : Z; stdout : string; logged : option (Severity * string) }.
End Exit.

Section Main.
Context `{Host, !Text, !Marshal}.

(** The package variable [version]. *)
Variable version : string.


End Main.

(** ** Records without their path *)

(** A record as the first revision of the walker emits it. *)
Definition withoutPath (file : FileEntry.t) : FileEntry.t :=
  FileEntry.mk (FileEntry.Link file) "" (FileEntry.Name file) (FileEntry.Size file).

(** The path of a record lies below [dir]. *)
Definition below (dir : string) (file : FileEntry.t) : Prop :=
  ∃ rest, FileEntry.Path file = dir +:+ "/" +:+ rest.

(** ** Lines of text *)

(** The texts, each followed by a newline. *)
Definition lines (texts : list string) : string :=
  fold_right (λ text out, text +:+ newline +:+ out) "" texts.

(** The links that have a download URL. *)
Definition resolvedLinks (links : list Link.t) : list Link.t :=
  filter (λ link, Link.DownloadURL link ≠ "") links.


(** The requests of a trace, oldest first. *)
Definition requests (evs : list Event) : list Request.t :=
  omap (λ e, match e with Sent _ req => Some req | _ => None end) evs.

(** The requests of a trace with the times at which they left. *)
Definition sent (evs : list Event) : list (Z * Request.t) :=
  omap (λ e, match e with Sent t req => Some (t, req) | _ => None end) evs.

(** The times at which the files of a job were asked for. *)
Definition polls (evs : list Event) : list Z :=
  (filter (λ tr, Request.Path tr.2 = "/magnet/files") (sent evs)).*1.

(** At most the request [req] left, at time [t], the context not being done. *)
Definition atMostOne (ctx : Context.t) (t : Z) (req : Request.t) (evs : list Event) : Prop :=
  sent evs = [] ∨ (sent evs = [(t, req)] ∧ Context.isDone ctx t = false).

(** A request left no earlier than [from], under a context that was not
    done, for one of the [paths]. *)
Definition leftUnder (ctx : Context.t) (from : Z) (paths : list string)
    (tr : Z * Request.t) : Prop :=
  from ≤ tr.1 ∧ Context.isDone ctx tr.1 = false ∧ Request.Path tr.2 ∈ paths.

(** A service that refuses every request in the envelope of its reply, the
    HTTP status being that of a success: the reply decodes, its status is
    "error", its error is set and its data are empty. *)
Module Refusing.

Definition refusal : option (string * string) :=
  Some ("MAGNET_INVALID_ID", "This magnet ID does not exists or is invalid").

Definition remote : Remote := {|
  Net := unit;
  Response := unit;
  roundTrip _ _ _ := (Ok tt, 1000%N, tt);
  IsErrorState _ := false;
  UnmarshalJson_Error _ := Ok refusal;
  UnmarshalJson_Unrestrict _ :=
    Ok (APIResponse.mk "error" (UnrestrictResponse.mk "" 0 "") refusal);
  UnmarshalJson_Upload _ := Ok (APIResponse.mk "error" (UploadResponse.mk [] []) refusal);
  UnmarshalJson_MagnetFiles _ :=
    Ok (APIResponse.mk "error" (MagnetFilesResponse.mk []) refusal);
  selectDone _ := false;
  nextGoroutine _ _ := 0%nat
|}.

Definition start : @World remote :=
  @mkWorld remote 0 tt (λ _, Link.mk "" "" 0 "") 0%nat [].

End Refusing.

(** ** The first revision of the client (client.go, lines 1-273)

    Its client has no response hook: every operation decodes the envelope
    itself, with [checkError], and then the raw data of the envelope. *)
Class Envelopes `{Remote} : Type := {
  (** [json.RawMessage] *)
  RawMessage : Type;
  (** [resp.UnmarshalJson(&apiResp)] *)
  UnmarshalJson_APIResponse : Response → result (APIResponse.t RawMessage);
  (** [json.Unmarshal(apiResp.Data, &unlockResp)] *)
  json_Unmarshal_Unlock : RawMessage → result UnrestrictResponse.t;
  (** [json.Unmarshal(apiResp.Data, &uploadResp)] *)
  json_Unmarshal_Upload : RawMessage → result UploadResponse.t
}.

Module First.

Section Client.
Context `{Host, !Envelopes}.

(** A request of a client without hook: as [send], the response being
    returned as it came. *)
Definition send (ctx : Context.t) (req : Request.t) : M (result Response) :=
  λ w,
    if Context.isDone ctx (now w) then (Err (interrupted ctx req), w)
    else
      let '(r, d, net') := roundTrip req (now w) (net w) in
      let finish := now w + Z.of_N d in
      let sent := trace w ++ [Sent (now w) req] in
      match Context.doneAt ctx with
      | Some ends =>
          if bool_decide (ends < finish) then
            (Err (interrupted ctx req), mkWorld ends net' (heap w) (next w) sent)
          else (r, mkWorld finish net' (heap w) (next w) sent)
      | None => (r, mkWorld finish net' (heap w) (next w) sent)
      end.

(** [checkError] (client.go, lines 53-64). *)
Definition checkError (resp : Response) : option error :=
  match UnmarshalJson_APIResponse resp with
  | Err err => Some (Errorf "failed to parse response" (Some err))
  | Ok apiResp =>
      if bool_decide (APIResponse.Status apiResp = "error") then
        match APIResponse.Error apiResp with
        | Some apiError => Some (APIError (Some apiError))
        | None => None
        end
      else None
  end.

(** [UnrestrictURL] (client.go, lines 67-97). *)
Definition UnrestrictURL (ctx : Context.t) (url : string) : M (result Link.t) :=
  r ← send ctx (Request.mk "GET" "https://api.alldebrid.com/v4/link/unlock"
                  [("link", url)]);
  match r with
  | Err err => mret (Err (Errorf "request failed" (Some err)))
  | Ok resp =>
      match checkError resp with
      | Some err => mret (Err err)
      | None =>
          match UnmarshalJson_APIResponse resp with
          | Err err => mret (Err (Errorf "failed to parse response" (Some err)))
          | Ok apiResp =>
              match json_Unmarshal_Unlock (APIResponse.Data apiResp) with
              | Err err =>
                  mret (Err (Errorf "failed to parse unlock response" (Some err)))
              | Ok unlockResp =>
                  mret (Ok (Link.mk (UnrestrictResponse.Filename unlockResp) url
                              (UnrestrictResponse.Filesize unlockResp)
                              (UnrestrictResponse.Link unlockResp)))
              end
          end
      end
  end.

(** [UploadTorrent] (client.go, lines 100-148). *)
Definition UploadTorrent (ctx : Context.t) (torrentPath : string) : M (Z * option error) :=
  match os_Open torrentPath with
  | Some err => mret (0, Some (Errorf "failed to open torrent file" (Some err)))
  | None =>
      returned ←
        (r ← send ctx (Request.mk "POST" "https://api.alldebrid.com/v4/magnet/upload/file"
                         [("files[]", filepath_Base torrentPath)]);
         match r with
         | Err err => mret (0, Some (Errorf "upload failed" (Some err)))
         | Ok resp =>
             match checkError resp with
             | Some err => mret (0, Some err)
             | None =>
                 match UnmarshalJson_APIResponse resp with
                 | Err err => mret (0, Some (Errorf "failed to parse response" (Some err)))
                 | Ok apiResp =>
                     match json_Unmarshal_Upload (APIResponse.Data apiResp) with
                     | Err err =>
                         mret (0, Some (Errorf "failed to parse upload response" (Some err)))
                     | Ok uploadResp =>
                         match UploadResponse.Files uploadResp with
                         | [] => mret (0, Some (Errorf "no files uploaded" None))
                         | first :: _ => mret (FileUpload.ID first, None)
                         end
                     end
                 end
             end
         end);
      match file_Close torrentPath with
      | Some closeErr => emit (Logged LWarn "failed to close torrent file")
      | None => mret tt
      end;;
      mret returned
  end.

(** [UploadMagnet] (client.go, lines 151-182). *)
Definition UploadMagnet (ctx : Context.t) (magnetURI : string) : M (Z * option error) :=
  r ← send ctx (Request.mk "POST" "https://api.alldebrid.com/v4/magnet/upload"
                  [("magnets[]", magnetURI)]);
  match r with
  | Err err => mret (0, Some (Errorf "upload failed" (Some err)))
  | Ok resp =>
      match checkError resp with
      | Some err => mret (0, Some err)
      | None =>
          match UnmarshalJson_APIResponse resp with
          | Err err => mret (0, Some (Errorf "failed to parse response" (Some err)))
          | Ok apiResp =>
              match json_Unmarshal_Upload (APIResponse.Data apiResp) with
              | Err err =>
                  mret (0, Some (Errorf "failed to parse upload response" (Some err)))
              | Ok uploadResp =>
                  match UploadResponse.Magnets uploadResp with
                  | [] => mret (0, Some (Errorf "no magnets uploaded" None))
                  | first :: _ => mret (MagnetUpload.ID first, None)
                  end
              end
          end
      end
  end.

End Client.

End First.

(** ** A host for the scripted remote

    The examples run on a host where every file opens and closes and a body
    decodes into a response without error; their paths have no directory
    part, their texts are ASCII, and their library functions for text are the
    simplest ones (no example prints HTML or JSON). *)
Module Sample.

Definition host : @Host Script.remote := {|
  os_Open _ := None;
  file_Close _ := None;
  filepath_Base path := path;
  UnmarshalJson_Response _ := None
|}.

Definition text : Text := {|
  strings_Map_ToLower s := s;
  url_QueryEscape s := s;
  fmt_f1 _ := "0.0";
  fmt_v _ := "error"
|}.

Definition marshal : Marshal := {|
  json_MarshalIndent _ _ _ := Ok "[]"
|}.

(** The envelopes of the scripted remote, as the first revision decodes
    them: a refusal is an envelope with the status "error" and its error,
    every other body that is JSON an envelope with the status "success". *)
Definition envelope (res : Script.Body) : result (APIResponse.t Script.Body) :=
  match res with
  | Script.Refuses code message => Ok (APIResponse.mk "error" res (Some (code, message)))
  | Script.Garbage => Script.noJSON
  | _ => Ok (APIResponse.mk "success" res None)
  end.

Definition unlockOf (raw : Script.Body) : result UnrestrictResponse.t :=
  match raw with Script.Unlocks data => Ok data | _ => Script.noJSON end.

Definition uploadOf (raw : Script.Body) : result UploadResponse.t :=
  match raw with Script.Uploads data => Ok data | _ => Script.noJSON end.

Definition envelopes : @Envelopes Script.remote :=
  @Build_Envelopes Script.remote Script.Body envelope unlockOf uploadOf.

(** The flags when the command line gives none but the token. *)
Definition defaults : Flags.t :=
  Flags.mk "t0ken" false false false false (600 * Script.second) 5.

End Sample.

(** * Properties *)

(** ** Loops and map lookups *)

Lemma appendEach_concat {A B : Type} (f : A → list B) (files : list B) (xs : list A) :
  appendEach f files xs = files ++ concat (f <$> xs).
Proof.
  revert files. induction xs as [|x xs IH]; intros files; simpl.
  - by rewrite app_nil_r.
  - by rewrite IH, app_assoc.
Qed.

Lemma appendEachM_concat {A B : Type} (f : A → option (list B))
    (files : list B) (xs : list A) :
  appendEachM f files xs = fss ← mapM f xs; Some (files ++ concat fss).
Proof.
  revert files. induction xs as [|x xs IH]; intros files; simpl.
  - by rewrite app_nil_r.
  - destruct (f x) as [fs|]; simpl; [|done].
    rewrite IH. destruct (mapM f xs) as [fss|]; simpl; [|done].
    by rewrite app_assoc.
Qed.

Lemma mapIndex_walk {V W : Type} (f : V → W) (k : string) (m : list (string * V)) :
  mapIndex k (prod_map id f <$> m) = f <$> mapIndex k m.
Proof.
  induction m as [|[k' x] m IH]; csimpl; [done|].
  rewrite IH. destruct (mapIndex k m); simpl; [done|].
  by destruct (decide (k' = k)).
Qed.

Lemma mapIndex_app {V : Type} (k : string) (m1 m2 : list (string * V)) :
  mapIndex k (m1 ++ m2) =
  match mapIndex k m2 with Some y => Some y | None => mapIndex k m1 end.
Proof.
  induction m1 as [|[k' x] m1 IH]; simpl.
  - by destruct (mapIndex k m2).
  - rewrite IH. by destruct (mapIndex k m2).
Qed.

(** ** The equations of the walkers *)

(** The nested test of the directory branch is the rule of the specification. *)
Lemma childPath_nested (p n : string) :
  (if decide (p = "") then n
   else if decide (n ≠ "") then p +:+ "/" +:+ n else p) = Spec.childPath p n.
Proof.
  unfold Spec.childPath.
  destruct (decide (p = "")) as [->|Hp], (decide (n ≠ "")) as [Hn|Hn];
    destruct (decide (_ ∧ _)) as [[? ?]|Hc]; try done;
    destruct (decide (_ ≠ "")); try done; exfalso; auto.
Qed.

Lemma Untyped_flatten_Slice (v : list any) (p : string) :
  Untyped.flattenTreeWithPath (Slice v) p =
  fss ← mapM (λ item, Untyped.flattenTreeWithPath item p) v; Some (concat fss).
Proof. simpl. by rewrite appendEachM_concat. Qed.

Lemma Untyped_flatten_Map (v : list (string * any)) (p : string) :
  Untyped.flattenTreeWithPath (Map v) p =
  match mapIndex "e" v with
  | Some e =>
      dirName ← match mapIndex "n" v with
                | Some n => assertString n
                | None => Some ""
                end;
      Untyped.flattenTreeWithPath e (Spec.childPath p dirName)
  | None =>
      match mapIndex "l" v, mapIndex "n" v, mapIndex "s" v with
      | Some l, Some n, Some s =>
          fileName ← assertString n;
          link ← assertString l;
          size ← assertFloat64 s;
          Some [FileEntry.mk link (Spec.filePath p fileName) fileName
                  (int64_of_float64 size)]
      | _, _, _ => Some []
      end
  end.
Proof.
  cbn [Untyped.flattenTreeWithPath]. rewrite mapIndex_walk.
  destruct (mapIndex "e" v) as [e|]; simpl; [|done].
  destruct (mapIndex "n" v) as [n|]; simpl.
  - destruct (assertString n) as [dirName|]; simpl; [|done].
    by rewrite childPath_nested.
  - by rewrite childPath_nested.
Qed.

Lemma Legacy_flatten_Slice (v : list any) :
  Legacy.flattenTree (Slice v) =
  fss ← mapM Legacy.flattenTree v; Some (concat fss).
Proof. simpl. by rewrite appendEachM_concat. Qed.

Lemma Legacy_flatten_Map (v : list (string * any)) :
  Legacy.flattenTree (Map v) =
  match mapIndex "e" v with
  | Some e => Legacy.flattenTree e
  | None =>
      match mapIndex "l" v, mapIndex "n" v, mapIndex "s" v with
      | Some l, Some n, Some s =>
          link ← assertString l;
          name ← assertString n;
          size ← assertFloat64 s;
          Some [FileEntry.mk link "" name (int64_of_float64 size)]
      | _, _, _ => Some []
      end
  end.
Proof.
  cbn [Legacy.flattenTree]. rewrite mapIndex_walk.
  by destruct (mapIndex "e" v).
Qed.

Lemma Typed_flatten_eq (node : TorrentNode.t) (p : string) :
  Typed.flattenTreeWithPath node p =
  if TorrentNode.IsFile node then
    [FileEntry.mk (TorrentNode.Link node) (Spec.filePath p (TorrentNode.Name node))
       (TorrentNode.Name node) (int64_of_float64 (TorrentNode.Size node))]
  else if TorrentNode.IsDirectory node then
    concat ((λ entry, Typed.flattenTreeWithPath entry
                        (Spec.childPath p (TorrentNode.Name node)))
              <$> TorrentNode.Entries node)
  else [].
Proof.
  destruct node as [name link size entries].
  cbn [Typed.flattenTreeWithPath].
  destruct (TorrentNode.IsFile _); [done|].
  destruct (TorrentNode.IsDirectory _); [|done].
  rewrite appendEach_concat. simpl. by rewrite childPath_nested.
Qed.

Lemma list_all_Forall {A : Type} (P : A → Prop) (l : list A) :
  list_all A P l → Forall P l.
Proof. induction 1; constructor; auto. Qed.

Lemma members_all_Forall {P : any → Prop} (m : list (string * any)) :
  list_all (string * any) (prod_all string (λ _, unit) any P) m →
  Forall (λ kv, P kv.2) m.
Proof. induction 1 as [|kv H l _ IH]; constructor; [by destruct H|done]. Qed.

Lemma mapIndex_elem_of {V : Type} (k : string) (m : list (string * V)) (x : V) :
  mapIndex k m = Some x → (k, x) ∈ m.
Proof.
  induction m as [|[k' y] m IH]; simpl; [done|].
  destruct (mapIndex k m) as [z|].
  - intros [= ->]. right. by apply IH.
  - destruct (decide (k' = k)) as [->|]; [|done]. intros [= ->]. left.
Qed.

Lemma Spec_flatten_eq (rule : string → string → string) (node : TorrentNode.t) (p : string) :
  Spec.flatten rule node p =
  if TorrentNode.IsFile node then
    [FileEntry.mk (TorrentNode.Link node) (rule p (TorrentNode.Name node))
       (TorrentNode.Name node) (int64_of_float64 (TorrentNode.Size node))]
  else if TorrentNode.IsDirectory node then
    concat ((λ child, Spec.flatten rule child (Spec.childPath p (TorrentNode.Name node)))
              <$> TorrentNode.Entries node)
  else [].
Proof. by destruct node. Qed.

Lemma Typed_flatten_spec (node : TorrentNode.t) (p : string) :
  Typed.flattenTreeWithPath node p = Spec.flatten Spec.filePath node p.
Proof.
  revert p. induction node as [name link size entries IH]; intros p.
  rewrite Typed_flatten_eq, Spec_flatten_eq.
  destruct (TorrentNode.IsFile _); [done|].
  destruct (TorrentNode.IsDirectory _); [|done].
  f_equal. apply list_all_Forall in IH.
  apply Forall_fmap_ext_1. eapply Forall_impl; [exact IH|]. simpl. auto.
Qed.

Lemma Spec_flattenAny_Map (rule : string → string → string)
    (v : list (string * any)) (p : string) :
  Spec.flattenAny rule (Map v) p =
  match mapIndex "e" v with
  | Some e =>
      name ← match mapIndex "n" v with
             | Some n => assertString n
             | None => Some ""
             end;
      Spec.flattenAny rule e (Spec.childPath p name)
  | None =>
      match mapIndex "l" v, mapIndex "n" v, mapIndex "s" v with
      | Some l, Some n, Some s =>
          name ← assertString n;
          link ← assertString l;
          size ← assertFloat64 s;
          Some [FileEntry.mk link (rule p name) name (int64_of_float64 size)]
      | _, _, _ => Some []
      end
  end.
Proof.
  cbn [Spec.flattenAny]. rewrite mapIndex_walk.
  by destruct (mapIndex "e" v).
Qed.

Lemma Untyped_flatten_spec (data : any) (p : string) :
  Untyped.flattenTreeWithPath data p = Spec.flattenAny Spec.filePath data p.
Proof.
  revert p. induction data as [| | | |items IH|members IH]; intros p; try done.
  - rewrite Untyped_flatten_Slice. cbn [Spec.flattenAny].
    apply list_all_Forall in IH. f_equal.
    induction IH as [|x xs Hx _ IHxs]; [done|]. 
    simpl. by rewrite Hx, IHxs.
  - rewrite Untyped_flatten_Map, Spec_flattenAny_Map.
    apply members_all_Forall in IH.
    destruct (mapIndex "e" members) as [e|] eqn:He; [|done].
    apply mapIndex_elem_of in He.
    rewrite Forall_forall in IH. specialize (IH _ He). simpl in IH.
    destruct (match mapIndex "n" members with Some n => _ | None => _ end); simpl; auto.
Qed.

Lemma Typed_flattenTree_spec (nodes : list TorrentNode.t) :
  Typed.flattenTree nodes = Spec.flattenAll Spec.filePath nodes.
Proof.
  unfold Typed.flattenTree, Spec.flattenAll. rewrite appendEach_concat. simpl.
  f_equal. apply list_fmap_ext. intros _ node _. apply Typed_flatten_spec.
Qed.

Lemma filePath_childPath (p n : string) :
  Spec.filePath p n =
  if decide (p ≠ "" ∧ n = "") then p +:+ "/" else Spec.childPath p n.
Proof.
  unfold Spec.filePath, Spec.childPath.
  destruct (decide (p = "")) as [->|Hp].
  - destruct (decide (_ ∧ n = "")) as [[? _]|_]; [done|].
    destruct (decide (_ ∧ n ≠ "")) as [[? _]|_]; [done|].
    by destruct (decide (_ ≠ "")).
  - destruct (decide (n = "")) as [->|Hn].
    + by rewrite decide_True.
    + rewrite decide_False by tauto. by rewrite decide_True.
Qed.

(** ** C4: the path of every record *)

(** C4, as the code has it. Both walkers emit the records of the depth-first
    pre-order traversal; a directory extends the path by the rule of the
    specification ([Spec.childPath]); a file gets [parentPath + "/" + name]
    whenever [parentPath] is non-empty, else its name ([Spec.filePath]), which
    is the rule except for an empty name under a non-empty path. A file
    "b.mkv" under a directory without name has path "b.mkv", a file "a.mkv"
    under "movies" has path "movies/a.mkv". *)
Theorem flatten_paths_follow_rule :
  (∀ nodes : list TorrentNode.t,
     Typed.flattenTree nodes = Spec.flattenAll Spec.filePath nodes)
  ∧ (∀ data : any,
       Untyped.flattenTree data = Spec.flattenAny Spec.filePath data "")
  ∧ (∀ p n : string,
       Spec.filePath p n =
       if decide (p ≠ "" ∧ n = "") then p +:+ "/" else Spec.childPath p n)
  ∧ Typed.flattenTree
      [TorrentNode.mk "" "" 0 [TorrentNode.mk "b.mkv" "https://l/b" 7 []]]
    = [FileEntry.mk "https://l/b" "b.mkv" "b.mkv" 7]
  ∧ Typed.flattenTree
      [TorrentNode.mk "movies" "" 0 [TorrentNode.mk "a.mkv" "https://l/a" 9 []]]
    = [FileEntry.mk "https://l/a" "movies/a.mkv" "a.mkv" 9]
  ∧ Untyped.flattenTree
      (Slice [Map [("n", Str "");
                   ("e", Slice [Map [("n", Str "b.mkv"); ("s", Float64 7);
                                     ("l", Str "https://l/b")]])]])
    = Some [FileEntry.mk "https://l/b" "b.mkv" "b.mkv" 7]
  ∧ Untyped.flattenTree
      (Slice [Map [("n", Str "movies");
                   ("e", Slice [Map [("n", Str "a.mkv"); ("s", Float64 9);
                                     ("l", Str "https://l/a")]])]])
    = Some [FileEntry.mk "https://l/a" "movies/a.mkv" "a.mkv" 9].
Proof.
  split; [exact Typed_flattenTree_spec|].
  split; [intros data; apply Untyped_flatten_spec|].
  split; [exact filePath_childPath|].
  repeat split; vm_compute; reflexivity.
Qed.

(** C4 as stated fails: a file without name inside "movies" gets the path
    "movies/", where the rule of the specification gives "movies". *)
Lemma flatten_paths_counterexample :
  Typed.flattenTree
    [TorrentNode.mk "movies" "" 0 [TorrentNode.mk "" "https://l/x" 9 []]]
  = [FileEntry.mk "https://l/x" "movies/" "" 9]
  ∧ Spec.flattenAll Spec.childPath
      [TorrentNode.mk "movies" "" 0 [TorrentNode.mk "" "https://l/x" 9 []]]
    = [FileEntry.mk "https://l/x" "movies" "" 9]
  ∧ Untyped.flattenTree
      (Slice [Map [("n", Str "movies");
                   ("e", Slice [Map [("n", Str ""); ("s", Float64 9);
                                     ("l", Str "https://l/x")]])]])
    = Some [FileEntry.mk "https://l/x" "movies/" "" 9]
  ∧ Spec.flattenAny Spec.childPath
      (Slice [Map [("n", Str "movies");
                   ("e", Slice [Map [("n", Str ""); ("s", Float64 9);
                                     ("l", Str "https://l/x")]])]]) ""
    = Some [FileEntry.mk "https://l/x" "movies" "" 9].
Proof. repeat split; vm_compute; reflexivity. Qed.

(** ** C5: malformed nodes *)

Lemma hasKey_false (k : string) (m : list (string * any)) :
  Shape.hasKey k m = false → mapIndex k m = None.
Proof.
  unfold Shape.hasKey. intros H%bool_decide_eq_false.
  destruct (mapIndex k m); [|done]. destruct H; eauto.
Qed.

















(** ** C10: the untyped and the typed walker *)

Lemma fieldOfKey_n : Json.fieldOfKey "n" = Some Json.FName.
Proof. reflexivity. Qed.
Lemma fieldOfKey_l : Json.fieldOfKey "l" = Some Json.FLink.
Proof. reflexivity. Qed.
Lemma fieldOfKey_s : Json.fieldOfKey "s" = Some Json.FSize.
Proof. reflexivity. Qed.
Lemma fieldOfKey_e : Json.fieldOfKey "e" = Some Json.FEntries.
Proof. reflexivity. Qed.

Lemma hasKey_true (k : string) (m : list (string * any)) :
  Shape.hasKey k m = true → ∃ x, mapIndex k m = Some x.
Proof. unfold Shape.hasKey. intros [x Hx]%bool_decide_eq_true. eauto. Qed.

Lemma atMostOnce_cons (k k' : string) (x : any) (m : list (string * any)) :
  Shape.atMostOnce k ((k', x) :: m) = true →
  (k' = k ∧ mapIndex k m = None) ∨ (k' ≠ k ∧ Shape.atMostOnce k m = true).
Proof.
  cbn [Shape.atMostOnce]. destruct (decide (k' = k)) as [->|Hk].
  - intros Hno%negb_true_iff%hasKey_false. by left.
  - intros Hm. by right.
Qed.

Lemma decodeEach_length {A B : Type} (new : B) (f : A → B → option B)
    (items : list A) (es : list B) :
  Json.decodeEach new f [] items = Some es → length es = length items.
Proof.
  revert es. induction items as [|item items IH]; intros es.
  { by intros [= <-]. }
  cbn [Json.decodeEach hd tl]. destruct (f item new) as [n|]; [|done]. simpl.
  destruct (Json.decodeEach new f [] items) as [ns|] eqn:Hns; [|done].
  intros [= <-]. simpl. by rewrite (IH ns).
Qed.

(** Decoding the members of a node: the fields are the last members under
    their keys, and the children are decoded into a slice that was nil, as
    long as the children come once and [acc] has none. *)
Lemma decodeObject_members (dec : any → Json.slot → option Json.slot) (wf : any → bool)
    (m : list (string * any)) (acc : Json.slot) :
  Forall (λ kv, Shape.memberOk wf kv.1 kv.2 = true) m →
  Forall (λ kv, ∀ items, kv.2 = Slice items → forallb wf items = true →
                         is_Some (Json.decodeEach Json.zero dec [] items)) m →
  mapIndex "e" m = None
  ∨ (Json.Entries acc = [] ∧ Json.Spare acc = [] ∧ Shape.atMostOnce "e" m = true) →
  ∃ node, Json.decodeObject dec acc m = Some node ∧ decodedFrom dec acc m node.
Proof.
  intros Hok Hdec. revert acc.
  induction m as [|[k x] m IH]; intros acc Hone.
  { exists acc. by destruct acc. }
  apply Forall_cons in Hok as [Hkx Hok]. apply Forall_cons in Hdec as [Hx Hdec].
  specialize (IH Hok Hdec). simpl in Hkx, Hx.
  unfold Shape.memberOk in Hkx. cbn [Json.decodeObject].
  unfold decodedFrom. cbn [mapIndex].
  assert (Hrest : ∀ acc', k ≠ "e" →
            Json.Entries acc' = Json.Entries acc → Json.Spare acc' = Json.Spare acc →
            mapIndex "e" m = None
            ∨ (Json.Entries acc' = [] ∧ Json.Spare acc' = []
               ∧ Shape.atMostOnce "e" m = true)).
  { intros acc' Hk He Hs. destruct Hone as [Hnone|(Hes & Hsp & Hone)].
    - left. cbn [mapIndex] in Hnone. by destruct (mapIndex "e" m).
    - right. rewrite He, Hs. split; [done|]. split; [done|].
      by apply atMostOnce_cons in Hone as [[? _]|[_ ?]]. }
  destruct (decide (k = "n")) as [->|Hn].
  { destruct x as [| | |s| |]; try done. rewrite fieldOfKey_n.
    destruct (IH (Json.setName s acc)) as (node & -> & H1 & H2 & H3 & H4);
      [by apply Hrest|].
    exists node. split; [done|].
    destruct (mapIndex "n" m), (mapIndex "l" m), (mapIndex "s" m),
      (mapIndex "e" m); simpl in *; repeat split; congruence. }
  destruct (decide (k = "l")) as [->|Hl].
  { destruct x as [| | |s| |]; try done. rewrite fieldOfKey_l.
    destruct (IH (Json.setLink s acc)) as (node & -> & H1 & H2 & H3 & H4);
      [by apply Hrest|].
    exists node. split; [done|].
    destruct (mapIndex "n" m), (mapIndex "l" m), (mapIndex "s" m),
      (mapIndex "e" m); simpl in *; repeat split; congruence. }
  destruct (decide (k = "s")) as [->|Hs].
  { destruct x as [| |f| | |]; try done. rewrite fieldOfKey_s.
    destruct (IH (Json.setSize f acc)) as (node & -> & H1 & H2 & H3 & H4);
      [by apply Hrest|].
    exists node. split; [done|].
    destruct (mapIndex "n" m), (mapIndex "l" m), (mapIndex "s" m),
      (mapIndex "e" m); simpl in *; repeat split; congruence. }
  destruct (decide (k = "e")) as [->|He].
  { destruct x as [| | | |items|]; try done. rewrite fieldOfKey_e.
    destruct Hone as [Hnone|(Hes & Hsp & Hone)].
    { cbn [mapIndex] in Hnone. destruct (mapIndex "e" m); [done|].
      by rewrite decide_True in Hnone. }
    apply atMostOnce_cons in Hone as [[_ Hnone]|[? _]]; [|done].
    destruct (Hx items eq_refl Hkx) as [es Hes'].
    pose proof (decodeEach_length _ _ _ _ Hes') as Hlen.
    assert (Hstep : ∃ acc',
      match items with
      | [] => Json.decodeObject dec (Json.setEntries [] [] acc) m
      | _ :: _ =>
          decoded ← Json.decodeEach Json.zero dec
                      (Json.Entries acc ++ Json.Spare acc) items;
          Json.decodeObject dec
            (Json.setEntries (take (length items) decoded)
               (drop (length items) decoded) acc) m
      end = Json.decodeObject dec acc' m
      ∧ Json.Name acc' = Json.Name acc ∧ Json.Link acc' = Json.Link acc
      ∧ Json.Size acc' = Json.Size acc ∧ Json.Entries acc' = es).
    { rewrite Hes, Hsp. destruct items as [|item items].
      - injection Hes' as <-. by eexists.
      - cbn [app]. rewrite Hes'. cbn [mbind option_bind].
        eexists. split; [done|]. cbn [Json.setEntries Json.Name Json.Link Json.Size
                                       Json.Entries].
        split; [done|]. split; [done|]. split; [done|]. apply take_ge. lia. }
    destruct Hstep as (acc' & -> & Hn' & Hl' & Hs' & He').
    destruct (IH acc') as (node & -> & H1 & H2 & H3 & H4); [by left|].
    exists node. split; [done|]. rewrite Hnone in H4 |- *.
    destruct (mapIndex "n" m), (mapIndex "l" m), (mapIndex "s" m);
      simpl in *; repeat split; try congruence;
      exists items; split; congruence. }
  destruct (Json.fieldOfKey k); [done|].
  destruct (IH acc) as (node & -> & H1 & H2 & H3 & H4); [by apply Hrest|].
  exists node. split; [done|].
  destruct (mapIndex "n" m), (mapIndex "l" m), (mapIndex "s" m),
    (mapIndex "e" m); done.
Qed.

Lemma agreesAll_Forall (items : list any) :
  Forall (λ item, Shape.wfNode item = true → agrees item) items →
  forallb Shape.wfNode items = true →
  agreesAll items.
Proof.
  induction 1 as [|x xs Hx _ IH]; intros Hwf.
  { by exists []. }
  simpl in Hwf. apply andb_true_iff in Hwf as [Hwx Hwxs].
  destruct (Hx Hwx) as (tn & Htn & Hflat).
  destruct (IH Hwxs) as (es & Hes & Hlen & Hflats).
  exists (tn :: es). split; [|split].
  - cbn [Json.decodeEach hd tl]. by rewrite Htn, Hes.
  - simpl. by rewrite Hlen.
  - intros p. simpl. by rewrite Hflat, Hflats.
Qed.

Lemma wfNode_agrees (x : any) :
  (Shape.wfNode x = true → agrees x)
  ∧ (∀ items, x = Slice items → forallb Shape.wfNode items = true → agreesAll items).
Proof.
  induction x as [| | | |items IH|m IH]; try (split; [done|by intros ? [=]]).
  - split; [done|]. intros ? [= <-]. apply agreesAll_Forall.
    apply list_all_Forall in IH. eapply Forall_impl; [exact IH|]. by intros ? [? _].
  - split; [|by intros ? [=]].
    apply members_all_Forall in IH.
    cbn [Shape.wfNode]. intros [Hm Hshape]%andb_true_iff.
    rewrite forallb_forall in Hm.
    destruct (decodeObject_members Json.decodeNode Shape.wfNode m Json.zero)
      as (tn & Htn & Hn & Hl & Hs & He).
    { rewrite Forall_forall. intros kv Hkv. by apply Hm, list_elem_of_In. }
    { eapply Forall_impl; [exact IH|]. intros [k y] [_ Hy] items' Hy' Hw.
      destruct (Hy items' Hy' Hw) as (es & Hes & _). eauto. }
    { destruct (Shape.hasKey "e" m) eqn:Hke.
      - right. by apply andb_true_iff in Hshape as [? _].
      - left. by apply hasKey_false. }
    exists tn. split; [done|]. intros p.
    rewrite Untyped_flatten_Map, Typed_flatten_eq.
    assert (Hview : Json.view tn
                    = TorrentNode.mk (Json.Name tn) (Json.Link tn) (Json.Size tn)
                        (Json.view <$> Json.Entries tn)) by (by destruct tn).
    rewrite Hview. cbn [TorrentNode.Name TorrentNode.Link TorrentNode.Size
                        TorrentNode.Entries].
    destruct (Shape.hasKey "e" m) eqn:Hke.
    + (* a directory *)
      apply hasKey_true in Hke as [e Hme]. rewrite Hme in He |- *.
      destruct He as (items' & -> & Hes).
      apply andb_true_iff in Hshape as [_ Hshape].
      apply negb_true_iff, hasKey_false in Hshape. rewrite Hshape in Hl.
      unfold TorrentNode.IsFile.
      cbn [TorrentNode.Link]. rewrite Hl. simpl.
      assert (Hall : agreesAll items').
      { pose proof (mapIndex_elem_of _ _ _ Hme) as Hin.
        rewrite Forall_forall in IH. destruct (IH _ Hin) as [_ Hitems].
        apply (Hitems items' eq_refl).
        apply list_elem_of_In, Hm in Hin. unfold Shape.memberOk in Hin. by simpl in Hin. }
      destruct Hall as (es & Hes' & _ & Hflat). rewrite Hes in Hes'. injection Hes' as <-.
      assert (Hname : match mapIndex "n" m with
                      | Some n => assertString n
                      | None => Some ""
                      end = Some (Json.Name tn)).
      { destruct (mapIndex "n" m); [by subst|by rewrite Hn]. }
      rewrite Hname. simpl. rewrite appendEachM_concat, Hflat. simpl.
      unfold TorrentNode.IsDirectory. cbn [TorrentNode.Entries].
      rewrite <- list_fmap_compose.
      destruct (Json.Entries tn) as [|e0 es0]; [done|].
      rewrite bool_decide_eq_true_2 by (simpl; lia). done.
    + (* a file *)
      apply hasKey_false in Hke. rewrite Hke.
      apply andb_true_iff in Hshape as [[Hkl Hkn]%andb_true_iff Hks].
      apply hasKey_true in Hkl as [l Hml], Hkn as [n Hmn], Hks as [s Hms].
      rewrite Hml, Hmn, Hms in *. subst l n s. simpl.
      pose proof (mapIndex_elem_of _ _ _ Hml) as Hin.
      apply list_elem_of_In, Hm in Hin. unfold Shape.memberOk in Hin. simpl in Hin.
      apply bool_decide_eq_true in Hin.
      unfold TorrentNode.IsFile. cbn [TorrentNode.Link].
      by rewrite bool_decide_eq_true_2.
Qed.

(** C10, as the code has it. Take a payload that is a list of nodes, each a
    file (members "l", "n" and "s", no member "e") or a directory (a member
    "e", once, and no member "l"), every "n" being a string, every "l" a
    string that is not empty, every "s" a number and every "e" a list of such
    nodes, possibly empty, and no member having a key that the decoder
    matches to a field by case folding only ("N", "L", "S", "E" or the long
    s). Then decoding into [[]TorrentNode] succeeds and both walkers produce
    the same records in the same order. *)
Theorem walkers_agree_on_well_formed_trees (data : any) :
  Shape.wfTree data = true →
  ∃ nodes : list TorrentNode.t,
    Json.decodeFiles data = Some nodes
    ∧ Untyped.flattenTree data = Some (Typed.flattenTree nodes).
Proof.
  destruct data as [| | | |roots|]; try done.
  intros Hwf. cbn [Shape.wfTree] in Hwf.
  destruct (agreesAll_Forall roots) as (nodes & Hdec & Hlen & Hflat); [|done|].
  { rewrite Forall_forall. intros x _. apply wfNode_agrees. }
  exists (Json.view <$> nodes). split.
  { cbn [Json.decodeFiles]. rewrite Hdec. cbn [mbind option_bind].
    by rewrite <- Hlen, firstn_all. }
  unfold Untyped.flattenTree, Typed.flattenTree.
  rewrite Untyped_flatten_Slice, Hflat, appendEach_concat.
  by rewrite <- list_fmap_compose.
Qed.

Lemma walkers_agree_on_well_formed_trees_witness :
  ∃ nodes : list TorrentNode.t,
    Json.decodeFiles
      (Slice [Map [("n", Str "movies"); ("trackers", Slice []); ("s", Float64 16);
                   ("e", Slice [Map [("n", Str "a.mkv"); ("s", Float64 9);
                                     ("l", Str "https://l/a")];
                                Map [("e", Slice [])]])]])
    = Some nodes
    ∧ Untyped.flattenTree
        (Slice [Map [("n", Str "movies"); ("trackers", Slice []); ("s", Float64 16);
                     ("e", Slice [Map [("n", Str "a.mkv"); ("s", Float64 9);
                                       ("l", Str "https://l/a")];
                                  Map [("e", Slice [])]])]])
      = Some (Typed.flattenTree nodes).
Proof.
  apply walkers_agree_on_well_formed_trees. reflexivity.
Defined.

(** C10 as stated fails. A node with both a link and children is a directory
    for the untyped walker and a file for the typed one; a file whose link is
    the empty string, or that has no name, is emitted by one walker only; a
    member "N" is the name for the typed walker and nothing for the untyped
    one; a directory whose size is a string is an error of the typed
    decoding; and children that come twice are decoded into the nodes that
    are already there, so that the link of "a" outlives the second list. *)
Lemma walkers_disagree_counterexample :
  (let data :=
     Slice [Map [("n", Str "d"); ("l", Str "https://l/d"); ("s", Float64 1);
                 ("e", Slice [Map [("n", Str "a"); ("l", Str "https://l/a");
                                   ("s", Float64 2)]])]] in
   Untyped.flattenTree data = Some [FileEntry.mk "https://l/a" "d/a" "a" 2]
   ∧ Typed.flattenTree <$> Json.decodeFiles data
     = Some [FileEntry.mk "https://l/d" "d" "d" 1])
  ∧ (let data := Slice [Map [("n", Str "a"); ("l", Str ""); ("s", Float64 2)]] in
     Untyped.flattenTree data = Some [FileEntry.mk "" "a" "a" 2]
     ∧ Typed.flattenTree <$> Json.decodeFiles data = Some [])
  ∧ (let data := Slice [Map [("l", Str "https://l/a"); ("s", Float64 2)]] in
     Untyped.flattenTree data = Some []
     ∧ Typed.flattenTree <$> Json.decodeFiles data
       = Some [FileEntry.mk "https://l/a" "" "" 2])
  ∧ (let data := Slice [Map [("n", Str "a"); ("N", Str "b");
                             ("l", Str "https://l/a"); ("s", Float64 2)]] in
     Untyped.flattenTree data = Some [FileEntry.mk "https://l/a" "a" "a" 2]
     ∧ Typed.flattenTree <$> Json.decodeFiles data
       = Some [FileEntry.mk "https://l/a" "b" "b" 2])
  ∧ (let data := Slice [Map [("s", Str "big"); ("e", Slice [])]] in
     Untyped.flattenTree data = Some []
     ∧ Json.decodeFiles data = None)
  ∧ (let data :=
       Slice [Map [("e", Slice [Map [("n", Str "a"); ("l", Str "https://l/a");
                                     ("s", Float64 2)]]);
                   ("e", Slice [Map [("e", Slice [])]])]] in
     Untyped.flattenTree data = Some []
     ∧ Typed.flattenTree <$> Json.decodeFiles data
       = Some [FileEntry.mk "https://l/a" "a" "a" 2]).
Proof. repeat split; vm_compute; reflexivity. Qed.

(** ** C6: the size filter *)

Lemma lo_Filter_filter {T : Type} (collection : list T) (pred : T → bool) :
  lo_Filter collection (λ item _, pred item) = filter (λ item, pred item = true) collection.
Proof.
  unfold lo_Filter.
  enough (∀ result i,
    (fix range (result : list T) (i : nat) (items : list T) : list T :=
       match items with
       | [] => result
       | item :: rest =>
           range (if pred item then result ++ [item] else result) (S i) rest
       end) result i collection
    = result ++ filter (λ item, pred item = true) collection) as H by apply H.
  induction collection as [|x xs IH]; intros result i.
  - by rewrite app_nil_r.
  - rewrite IH. rewrite filter_cons. destruct (pred x) eqn:Hx.
    + rewrite decide_True by done. by rewrite <- app_assoc.
    + rewrite decide_False by (by intros ?). done.
Qed.

Lemma nonpositive_not_positive (m : float) :
  (m <=? 0)%float = true → (0 <? m)%float = false.
Proof.
  rewrite leb_spec, ltb_spec.
  change (Prim2SF 0) with (S754_zero false).
  destruct (Prim2SF m) as [[]|[]| |[] mant e]; done.
Qed.

(** C6. With a positive threshold the filtering step of [run] returns the
    links whose size in MB, [float64(Size) / 1048576], is at least the
    threshold, in their original order; with a threshold that is not positive
    it returns its input. With threshold 5.0 and sizes of 1, 5 and 10 MB it
    keeps the last two. The quotient and the comparisons are those of
    [float64], as the code computes them. *)
Theorem size_filter_keeps_large_files (minMB : float) (links : list Link.t) :
  run_filter minMB links
  = (if (0 <? minMB)%float
     then filter (λ l, (minMB <=? Link.SizeMB l)%float = true) links
     else links)
  ∧ sublist (run_filter minMB links) links
  ∧ ((minMB <=? 0)%float = true → run_filter minMB links = links)
  ∧ run_filter 5
      [Link.mk "a.nfo" "https://l/a" 1048576 "https://d/a";
       Link.mk "b.mkv" "https://l/b" 5242880 "https://d/b";
       Link.mk "c.mkv" "https://l/c" 10485760 "https://d/c"]
    = [Link.mk "b.mkv" "https://l/b" 5242880 "https://d/b";
       Link.mk "c.mkv" "https://l/c" 10485760 "https://d/c"].
Proof.
  assert (Heq : run_filter minMB links
    = (if (0 <? minMB)%float
       then filter (λ l, (minMB <=? Link.SizeMB l)%float = true) links
       else links)).
  { unfold run_filter. destruct (0 <? minMB)%float; [|done].
    apply (lo_Filter_filter links (λ l, (minMB <=? Link.SizeMB l)%float)). }
  split; [exact Heq|]. split; [|split].
  - rewrite Heq. destruct (0 <? minMB)%float; [apply sublist_filter|reflexivity].
  - intros Hle. rewrite Heq. by rewrite (nonpositive_not_positive minMB Hle).
  - vm_compute. reflexivity.
Qed.

(** The helper [filterLargeFiles] compares strictly and has no guard: it
    drops the file of exactly 5 MB. No revision of [run] calls it. *)
Lemma filterLargeFiles_is_strict :
  filterLargeFiles
    [Link.mk "a.nfo" "https://l/a" 1048576 "";
     Link.mk "b.mkv" "https://l/b" 5242880 "";
     Link.mk "c.mkv" "https://l/c" 10485760 ""] 5
  = [Link.mk "c.mkv" "https://l/c" 10485760 ""].
Proof. vm_compute. reflexivity. Qed.

(** ** The client: contexts and requests *)

Section ClientFacts.
Context `{Remote}.

Lemma isDone_spec (ctx : Context.t) (t : Z) :
  Context.isDone ctx t = true ↔ ∃ d, Context.doneAt ctx = Some d ∧ d ≤ t.
Proof.
  unfold Context.isDone. destruct (Context.doneAt ctx) as [d|].
  - rewrite bool_decide_eq_true. split.
    + intros Hd. by exists d.
    + by intros (d' & [= <-] & Hd).
  - split; [done|]. by intros (d & Hd & _).
Qed.

Lemma isDone_mono (ctx : Context.t) (t t' : Z) :
  t ≤ t' → Context.isDone ctx t = true → Context.isDone ctx t' = true.
Proof.
  rewrite !isDone_spec. intros Hle (d & Hd & Hdt). exists d. split; [done|lia].
Qed.

(** A request changes neither the heap nor the allocator; the clock does not
    go back; the trace grows by the request, if it was sent at all. *)
Lemma send_spec (ctx : Context.t) (req : Request.t) (w : World) :
  ∀ r w', send ctx req w = (r, w') →
    heap w' = heap w ∧ next w' = next w ∧ now w ≤ now w'
    ∧ (trace w' = trace w ∨ trace w' = trace w ++ [Sent (now w) req]).
Proof.
  intros r w'. unfold send.
  destruct (Context.isDone ctx (now w)) eqn:Hdone.
  { intros [= <- <-]. repeat split; [lia|by left]. }
  destruct (roundTrip req (now w) (net w)) as [[r0 d] net'].
  destruct (Context.doneAt ctx) as [ends|] eqn:Hends.
  - case_bool_decide as Hlt.
    + intros [= <- <-]. simpl. repeat split; [|by right].
      unfold Context.isDone in Hdone. rewrite Hends in Hdone.
      apply bool_decide_eq_false in Hdone. lia.
    + intros [= <- <-]. simpl. repeat split; [lia|by right].
  - intros [= <- <-]. simpl. repeat split; [lia|by right].
Qed.

(** Under a context that is done nothing is sent and the request fails. *)
Lemma send_done (ctx : Context.t) (req : Request.t) (w : World) :
  Context.isDone ctx (now w) = true →
  send ctx req w = (Err (interrupted ctx req), w).
Proof. intros Hdone. unfold send. by rewrite Hdone. Qed.

(** A request that returns a response does so before its context ends, or at
    the very instant it ends. *)
(** The trace after a request. *)
Lemma send_trace (ctx : Context.t) (req : Request.t) (w : World) :
  trace (send ctx req w).2
  = trace w ++ (if Context.isDone ctx (now w) then [] else [Sent (now w) req]).
Proof.
  unfold send. destruct (Context.isDone ctx (now w)).
  { simpl. by rewrite app_nil_r. }
  destruct (roundTrip req (now w) (net w)) as [[r d] net'].
  by destruct (Context.doneAt ctx) as [ends|]; [case_bool_decide|].
Qed.

Lemma send_Ok_in_time (ctx : Context.t) (req : Request.t) (w w' : World) (res : Response) :
  send ctx req w = (Ok res, w') →
  ∀ d, Context.doneAt ctx = Some d → now w' ≤ d.
Proof.
  unfold send. destruct (Context.isDone ctx (now w)) eqn:Hdone; [done|].
  destruct (roundTrip req (now w) (net w)) as [[r0 d0] net'].
  intros Hs d Hd. rewrite Hd in Hs.
  case_bool_decide as Hlt; [done|]. injection Hs as _ <-. simpl. lia.
Qed.

(** ** C7: submitting a magnet *)

(** C7. When the reply to the upload decodes to an envelope without magnets,
    [UploadMagnet] returns the error "no magnets uploaded" and 0 for the
    identifier; when the envelope lists magnets it returns the identifier of
    the first one and no error. *)
Theorem UploadMagnet_first_magnet_or_error (ctx : Context.t) (magnetURI : string)
    (w w1 : World) (res : Response) (result : APIResponse.t UploadResponse.t) :
  send ctx (Request.mk "POST" "/magnet/upload" [("magnets[]", magnetURI)]) w
  = (Ok res, w1) →
  UnmarshalJson_Upload res = Ok result →
  match UploadResponse.Magnets (APIResponse.Data result) with
  | [] =>
      (UploadMagnet ctx magnetURI w).1
      = (0, Some (Errorf "no magnets uploaded" None))
  | first :: _ =>
      (UploadMagnet ctx magnetURI w).1 = (MagnetUpload.ID first, None)
  end.
Proof.
  intros Hsend Hjson. unfold UploadMagnet, mbind, M_bind.
  rewrite Hsend, Hjson.
  by destruct (UploadResponse.Magnets (APIResponse.Data result)).
Qed.

End ClientFacts.

Lemma UploadMagnet_first_magnet_or_error_witness :
  (@UploadMagnet Script.remote Context.Background "magnet:?xt=urn:btih:c0ffee"
     (Script.start [(Ok (Script.Uploads (UploadResponse.mk [] [])), 5%N)])).1
  = (0, Some (Errorf "no magnets uploaded" None))
  ∧ (@UploadMagnet Script.remote Context.Background "magnet:?xt=urn:btih:c0ffee"
       (Script.start
          [(Ok (Script.Uploads
                  (UploadResponse.mk [] [MagnetUpload.mk 42; MagnetUpload.mk 43])),
            5%N)])).1
    = (42, None).
Proof.
  split.
  - eapply (@UploadMagnet_first_magnet_or_error Script.remote Context.Background
              "magnet:?xt=urn:btih:c0ffee" _ _ _
              (APIResponse.mk "success" (UploadResponse.mk [] []) None));
      reflexivity.
  - eapply (@UploadMagnet_first_magnet_or_error Script.remote Context.Background
              "magnet:?xt=urn:btih:c0ffee" _ _ _
              (APIResponse.mk "success"
                 (UploadResponse.mk [] [MagnetUpload.mk 42; MagnetUpload.mk 43]) None));
      reflexivity.
Defined.

(** ** C8: unlocking one link *)

Section UnlockFacts.
Context `{Remote}.

Lemma sentTimes_app (evs1 evs2 : list Event) :
  sentTimes (evs1 ++ evs2) = sentTimes evs1 ++ sentTimes evs2.
Proof. apply omap_app. Qed.

Lemma unlocks_app (evs1 evs2 : list Event) :
  unlocks (evs1 ++ evs2) = unlocks evs1 ++ unlocks evs2.
Proof. apply omap_app. Qed.

Lemma sent_app (evs1 evs2 : list Event) : sent (evs1 ++ evs2) = sent evs1 ++ sent evs2.
Proof. apply omap_app. Qed.

Lemma since_app (w w' : World) (evs : list Event) :
  trace w' = trace w ++ evs → since w w' = evs.
Proof. intros Htrace. unfold since. rewrite Htrace. apply drop_app_length. Qed.

(** [UnrestrictURL] touches neither the heap nor the allocator; it sends at
    most one request, at the time it is called, and unlocks nothing itself. *)
Lemma UnrestrictURL_spec (ctx : Context.t) (url : string) (w : World) :
  ∀ r w', UnrestrictURL ctx url w = (r, w') →
    heap w' = heap w ∧ next w' = next w ∧ now w ≤ now w'
    ∧ ∃ evs, trace w' = trace w ++ evs
             ∧ Forall (λ t, t = now w) (sentTimes evs)
             ∧ unlocks evs = [].
Proof.
  intros r w'. unfold UnrestrictURL, mbind, M_bind, emit. cbn beta iota.
  destruct (send ctx _ _) as [r0 w1] eqn:Hsend.
  apply send_spec in Hsend as (Hheap & Hnext & Hnow & Htrace). simpl in *.
  assert (Hevs : ∃ evs, trace w1 = trace w ++ evs
                        ∧ Forall (λ t, t = now w) (sentTimes evs)
                        ∧ unlocks evs = []).
  { destruct Htrace as [-> | ->].
    - eexists [_]. split; [done|]. split; [|done]. constructor.
    - rewrite <- app_assoc. eexists [_; _]. split; [done|]. split; [|done].
      repeat constructor. }
  destruct r0 as [res|e].
  - destruct (UnmarshalJson_Unrestrict res); intros [= <- <-]; done.
  - intros [= <- <-]. done.
Qed.

(** [unrestrictLink] returns its argument; it ends on that link exactly once
    and leaves it as [resolved] says; every other link, the allocator and the
    clock's direction are untouched. *)
Lemma unrestrictLink_spec (ctx : Context.t) (link : Ptr) (w : World) :
  ∀ p w', unrestrictLink ctx link w = (p, w') →
    p = link ∧ next w' = next w ∧ now w ≤ now w'
    ∧ (∀ q, q ≠ link → heap w' q = heap w q)
    ∧ ∃ evs r, trace w' = trace w ++ evs
               ∧ Forall (λ t, t = now w) (sentTimes evs)
               ∧ unlocks evs = [(link, r)]
               ∧ heap w' link = resolved (heap w) (link, r)
               ∧ match (UnrestrictURL ctx (Link.URL (heap w link)) w).1 with
                 | Ok u => r = Some (Link.DownloadURL u)
                 | Err _ => r = None
                 end.
Proof.
  intros p w'. unfold unrestrictLink, mbind, M_bind, load. cbn beta iota.
  destruct (UnrestrictURL ctx _ w) as [r0 w1] eqn:Hu. simpl.
  apply UnrestrictURL_spec in Hu as (Hheap & Hnext & Hnow & evs & Htrace & Hsent & Hunl).
  destruct r0 as [u|e]; unfold emit, storeDownloadURL, mret, M_ret; cbn beta iota;
    intros [= <- <-]; simpl.
  - split; [done|]. split; [done|]. split; [done|]. split.
    { intros q Hq. rewrite fn_lookup_insert_ne by done. by rewrite Hheap. }
    eexists (evs ++ [_]), (Some _). rewrite Htrace, <- app_assoc.
    split; [done|]. rewrite sentTimes_app, unlocks_app, Hunl, app_nil_r.
    split; [done|]. split; [done|]. split; [|done].
    by rewrite fn_lookup_insert, Hheap.
  - split; [done|]. split; [done|]. split; [done|]. split.
    { intros q Hq. by rewrite Hheap. }
    eexists (evs ++ [_; _]), None. rewrite Htrace, <- !app_assoc.
    split; [done|]. rewrite sentTimes_app, unlocks_app, Hunl, app_nil_r.
    split; [done|]. split; [done|]. split; [|done].
    rewrite Hheap. unfold resolved. simpl. by destruct (heap w link).
Qed.

End UnlockFacts.

Section UnlockOnce.
Context `{Remote}.

(** C8. [unrestrictLink] ends on its link exactly once and returns it; the
    file name, the source URL and the size of the link are the same before and
    after; when the unlock succeeds the download URL is the one it returned,
    when it fails the link is left as it was; no other link changes. *)
Theorem unrestrictLink_changes_only_DownloadURL
    (ctx : Context.t) (link : Ptr) (w : World) :
  let w' := (unrestrictLink ctx link w).2 in
  (unrestrictLink ctx link w).1 = link
  ∧ Link.Filename (heap w' link) = Link.Filename (heap w link)
  ∧ Link.URL (heap w' link) = Link.URL (heap w link)
  ∧ Link.Size (heap w' link) = Link.Size (heap w link)
  ∧ (∀ q, q ≠ link → heap w' q = heap w q)
  ∧ match (UnrestrictURL ctx (Link.URL (heap w link)) w).1 with
    | Ok u => Link.DownloadURL (heap w' link) = Link.DownloadURL u
    | Err _ => heap w' link = heap w link
    end
  ∧ ∃ evs r, trace w' = trace w ++ evs ∧ unlocks evs = [(link, r)].
Proof.
  destruct (unrestrictLink ctx link w) as [p w'] eqn:Hu. simpl.
  apply unrestrictLink_spec in Hu
    as (-> & _ & _ & Hothers & evs & r & Htrace & _ & Hunl & Hlink & Hr).
  split; [done|]. rewrite Hlink. unfold resolved. simpl.
  split; [done|]. split; [done|]. split; [done|]. split; [done|]. split; [|eauto].
  destruct (UnrestrictURL ctx _ w).1 as [u|e]; subst r; simpl; [done|].
  by destruct (heap w link).
Qed.

End UnlockOnce.

(** ** The poll and the fan-out *)

Section PollFacts.
Context `{Remote}.

(** The links allocated for the files: fresh pointers in file order, each
    link with the file's name, URL and size and no download URL. *)
Lemma linksOf_spec (files : list FileEntry.t) (allFiles : list Ptr) (w : World) :
  ∀ ps w', linksOf allFiles files w = (ps, w') →
    ps = allFiles ++ seq (next w) (length files)
    ∧ next w' = (next w + length files)%nat
    ∧ now w' = now w ∧ net w' = net w ∧ trace w' = trace w
    ∧ (∀ q, (q < next w)%nat → heap w' q = heap w q)
    ∧ (∀ i file, files !! i = Some file →
         heap w' (next w + i)%nat
         = Link.mk (FileEntry.Name file) (FileEntry.Link file) (FileEntry.Size file) "").
Proof.
  revert allFiles w. induction files as [|file files IH]; intros allFiles w ps w'.
  { simpl. intros [= <- <-]. rewrite app_nil_r, Nat.add_0_r. done. }
  cbn [linksOf]. unfold mbind, M_bind, alloc. cbn beta iota.
  intros Hrec. apply IH in Hrec as (-> & Hnext & Hnow & Hnet & Htrace & Hold & Hnew).
  simpl in *. split; [by rewrite <- app_assoc|]. split; [lia|].
  split; [done|]. split; [done|]. split; [done|]. split.
  - intros q Hq. rewrite Hold by lia. by rewrite fn_lookup_insert_ne by lia.
  - intros [|i] file' Hi; simpl in Hi.
    + injection Hi as <-. rewrite Nat.add_0_r, Hold by lia.
      by rewrite fn_lookup_insert.
    + replace (next w + S i)%nat with (S (next w) + i)%nat by lia. by apply Hnew.
Qed.

(** [GetTorrentLinks]: at most one request, sent when it is called; the
    links it returns are fresh, distinct and without download URL; with an
    error it returns no link and allocates nothing; the links that existed
    are untouched. *)
Lemma GetTorrentLinks_spec (ctx : Context.t) (torrentID : Z) (w : World) :
  ∀ links err w', GetTorrentLinks ctx torrentID w = ((links, err), w') →
    now w ≤ now w'
    ∧ links = seq (next w) (length links)
    ∧ next w' = (next w + length links)%nat
    ∧ (∀ q, (q < next w)%nat → heap w' q = heap w q)
    ∧ (∀ p, p ∈ links → Link.DownloadURL (heap w' p) = "")
    ∧ (is_Some err → links = [])
    ∧ ∃ evs, trace w' = trace w ++ evs
             ∧ Forall (λ t, t = now w) (sentTimes evs)
             ∧ unlocks evs = [].
Proof.
  intros links err w'. unfold GetTorrentLinks, mbind, M_bind. cbn beta iota.
  destruct (send ctx _ w) as [r w1] eqn:Hsend.
  apply send_spec in Hsend as (Hheap & Hnext & Hnow & Htrace).
  assert (Hevs : ∃ evs, trace w1 = trace w ++ evs
                        ∧ Forall (λ t, t = now w) (sentTimes evs)
                        ∧ unlocks evs = []).
  { destruct Htrace as [-> | ->].
    - exists []. by rewrite app_nil_r.
    - eexists [_]. split; [done|]. split; [|done]. by repeat constructor. }
  assert (Hnone : ∀ e w2, (([] : list Ptr, e), w1) = ((links, err), w2) →
    now w ≤ now w2 ∧ links = seq (next w) (length links)
    ∧ next w2 = (next w + length links)%nat
    ∧ (∀ q, (q < next w)%nat → heap w2 q = heap w q)
    ∧ (∀ p, p ∈ links → Link.DownloadURL (heap w2 p) = "")
    ∧ (is_Some err → links = [])
    ∧ ∃ evs, trace w2 = trace w ++ evs
             ∧ Forall (λ t, t = now w) (sentTimes evs) ∧ unlocks evs = []).
  { intros e w2 [= <- <- <-]. simpl. rewrite Nat.add_0_r, Hheap.
    repeat split; try done. by intros p Hp%elem_of_nil. }
  destruct r as [res|e]; [|apply Hnone].
  destruct (UnmarshalJson_MagnetFiles res) as [result|e]; [|apply Hnone].
  destruct (MagnetFilesResponse.Magnets _) as [|first rest].
  { unfold emit, mret, M_ret. cbn beta iota. intros [= <- <- <-]. simpl.
    rewrite Nat.add_0_r, Hheap. repeat split; try done.
    - by intros p Hp%elem_of_nil.
    - destruct Hevs as (evs & -> & Hs & Hu). exists (evs ++ [Logged LDebug "No magnets found in response"]).
      rewrite <- app_assoc, sentTimes_app, unlocks_app, Hu, app_nil_r. done. }
  destruct (linksOf [] _ w1) as [ps w2] eqn:Hlinks.
  apply linksOf_spec in Hlinks as (-> & Hnext2 & Hnow2 & Hnet2 & Htrace2 & Hold & Hnew).
  unfold emit, mret, M_ret. cbn beta iota. intros [= <- <- <-]. simpl.
  rewrite length_seq.
  split; [lia|]. split; [by rewrite Hnext|]. split; [lia|]. split.
  { intros q Hq. rewrite Hold by lia. by rewrite Hheap. }
  split.
  { intros p [Hp1 Hp2]%elem_of_seq.
    destruct (lookup_lt_is_Some_2 (Typed.flattenTree (MagnetFiles.Files first))
                (p - next w1)) as [file Hfile]; [lia|].
    specialize (Hnew _ _ Hfile).
    replace (next w1 + (p - next w1))%nat with p in Hnew by lia. by rewrite Hnew. }
  split; [by intros [? [=]]|].
  destruct Hevs as (evs & Hevs & Hs & Hu).
  exists (evs ++ [Logged LDebug "Retrieved torrent links successfully"]).
  rewrite Htrace2, Hevs, <- app_assoc, sentTimes_app, unlocks_app, Hu, app_nil_r. done.
Qed.

End PollFacts.

Section FanOutFacts.
Context `{Remote}.

Lemma GetTorrentLinks_done (ctx : Context.t) (torrentID : Z) (w : World) :
  Context.isDone ctx (now w) = true →
  ∃ e, GetTorrentLinks ctx torrentID w = (([], Some e), w).
Proof.
  intros Hdone. unfold GetTorrentLinks, mbind, M_bind. cbn beta iota.
  rewrite (send_done ctx _ w Hdone). eauto.
Qed.

Lemma GetTorrentLinks_in_time (ctx : Context.t) (torrentID : Z) (w w' : World)
    (links : list Ptr) :
  GetTorrentLinks ctx torrentID w = ((links, None), w') →
  ∀ d, Context.doneAt ctx = Some d → now w' ≤ d.
Proof.
  unfold GetTorrentLinks, mbind, M_bind. cbn beta iota.
  destruct (send ctx _ w) as [r w1] eqn:Hsend.
  destruct r as [res|e]; [|done].
  pose proof (send_Ok_in_time _ _ _ _ _ Hsend) as Htime.
  destruct (UnmarshalJson_MagnetFiles res) as [result|e]; [|done].
  destruct (MagnetFilesResponse.Magnets _) as [|first rest].
  { unfold emit, mret, M_ret. cbn beta iota. intros [= <- <-]. simpl. done. }
  destruct (linksOf [] _ w1) as [ps w2] eqn:Hlinks.
  apply linksOf_spec in Hlinks as (_ & _ & Hnow2 & _).
  unfold emit, mret, M_ret. cbn beta iota. intros [= <- <-]. simpl.
  rewrite Hnow2. done.
Qed.

(** The goroutines end on every pending link exactly once, in an order of the
    environment's choosing, and leave each as [resolved] says; all requests
    leave at [start]; nothing else changes. *)
Lemma goroutines_spec (n : nat) (ctx : Context.t) (start : Z) :
  ∀ (latest : Z) (pending : list Ptr) (w : World) (w' : World),
    length pending = n → NoDup pending →
    (goroutines n ctx start latest pending w).2 = w' →
    next w' = next w ∧ latest ≤ now w'
    ∧ (∀ q, q ∉ pending → heap w' q = heap w q)
    ∧ ∃ evs, trace w' = trace w ++ evs
             ∧ Forall (λ t, t = start) (sentTimes evs)
             ∧ (unlocks evs).*1 ≡ₚ pending
             ∧ (∀ u, u ∈ unlocks evs → heap w' u.1 = resolved (heap w) u).
Proof.
  induction n as [|n IH]; intros latest pending w w' Hlen Hnd.
  { destruct pending; [|done]. simpl. intros <-. simpl.
    split; [done|]. split; [lia|]. split; [done|].
    exists []. rewrite app_nil_r. repeat split; try done.
    by intros u Hu%elem_of_nil. }
  cbn [goroutines].
  set (i := (nextGoroutine (net w) (length pending) `mod` length pending)%nat).
  assert (Hi : (i < length pending)%nat).
  { apply Nat.mod_upper_bound. lia. }
  destruct (lookup_lt_is_Some_2 pending i Hi) as [l Hl]. rewrite Hl.
  unfold mbind, M_bind, setNow. cbn beta iota.
  destruct (unrestrictLink ctx l _) as [p w1] eqn:Hu.
  apply unrestrictLink_spec in Hu
    as (_ & Hnext1 & Hnow1 & Hothers1 & evs1 & r & Htrace1 & Hsent1 & Hunl1 & Hlink1 & _).
  simpl in *. intros Hw'.
  assert (Hl_in : l ∈ pending) by (by eapply list_elem_of_lookup_2).
  assert (Hperm : pending ≡ₚ l :: delete i pending) by (by apply delete_Permutation).
  assert (Hnd' : NoDup (l :: delete i pending)) by (by rewrite <- Hperm).
  apply NoDup_cons in Hnd' as [Hl_out Hnd'].
  apply IH in Hw' as (Hnext & Hnow & Hothers & evs & Htrace & Hsent & Hunl & Hres);
    [|rewrite length_delete by eauto; lia|done].
  split; [congruence|]. split; [lia|]. split.
  { intros q Hq. rewrite Hothers, Hothers1; [done| |].
    - intros ->. done.
    - intros Hq'. apply Hq. rewrite Hperm. by right. }
  exists (evs1 ++ evs). rewrite Htrace, Htrace1, <- app_assoc.
  split; [done|]. rewrite sentTimes_app, unlocks_app, Hunl1.
  split; [by apply Forall_app|]. split.
  { simpl. rewrite Hunl. by symmetry. }
  intros u [->|Hu]%elem_of_cons.
  - simpl. rewrite Hothers by done. done.
  - rewrite (Hres u Hu). unfold resolved.
    assert (u.1 ≠ l) as Hne.
    { intros Heq. apply Hl_out. rewrite <- Heq, <- Hunl.
      by apply list_elem_of_fmap_2. }
    by rewrite (Hothers1 _ Hne).
Qed.

End FanOutFacts.

Section LoopFacts.
Context `{Remote}.

Lemma fanOut_spec (ctx : Context.t) (links : list Ptr) (w w' : World) :
  NoDup links →
  (fanOut ctx links w).2 = w' →
  next w' = next w ∧ now w ≤ now w'
  ∧ (∀ q, q ∉ links → heap w' q = heap w q)
  ∧ ∃ evs, trace w' = trace w ++ evs
           ∧ Forall (λ t, t = now w) (sentTimes evs)
           ∧ (unlocks evs).*1 ≡ₚ links
           ∧ (∀ u, u ∈ unlocks evs → heap w' u.1 = resolved (heap w) u).
Proof.
  intros Hnd. unfold fanOut, mbind, M_bind, getNow. cbn beta iota.
  intros Hw. by apply goroutines_spec in Hw.
Qed.

(** [select] only moves the clock, and not back; it takes a case that is
    ready when it wakes. *)
Lemma select_spec (ctx : Context.t) (st : PollState) (w w1 : World) (c : Case) :
  select ctx st w = (c, w1) →
  net w1 = net w ∧ heap w1 = heap w ∧ next w1 = next w ∧ trace w1 = trace w
  ∧ now w ≤ now w1
  ∧ (c = CaseDone → Context.isDone ctx (now w1) = true)
  ∧ (c = CaseTick → nextTick st ≤ now w1).
Proof.
  unfold select. intros [= <- <-]. simpl.
  set (wake := now w `max` _).
  split; [done|]. split; [done|]. split; [done|]. split; [done|].
  split; [lia|].
  destruct (Context.isDone ctx wake) eqn:Hd; simpl.
  - split; [reflexivity|].
    destruct (bool_decide (nextTick st ≤ wake)) eqn:Ht; [|by intros [=]].
    intros _. by apply bool_decide_eq_true in Ht.
  - destruct (bool_decide (nextTick st ≤ wake)) eqn:Ht.
    { split; [by intros [=]|]. intros _. by apply bool_decide_eq_true in Ht. }
    exfalso. apply bool_decide_eq_false in Ht.
    unfold Context.isDone in Hd. subst wake.
    destruct (Context.doneAt ctx) as [d|].
    + apply bool_decide_eq_false in Hd. lia.
    + lia.
Qed.

Lemma pollOnce_Done (ctx : Context.t) (magnetID : Z) (st : PollState) (w w1 : World) :
  select ctx st w = (CaseDone, w1) →
  pollOnce ctx magnetID st w
  = (Return [] (Some (Context.reasonErr (Context.why ctx))),
     logAt LWarn "Timeout reached while waiting for download links" w1).
Proof.
  intros Hsel. unfold pollOnce, mbind, M_bind. rewrite Hsel.
  apply select_spec in Hsel as (_ & _ & _ & _ & _ & Hdone & _).
  unfold emit, getNow, mret, M_ret, logAt. cbn beta iota. simpl.
  unfold Context.Err. by rewrite Hdone.
Qed.

Lemma pollOnce_Tick (ctx : Context.t) (magnetID : Z) (st : PollState)
    (w w1 w2 : World) (links : list Ptr) (err : option error) :
  select ctx st w = (CaseTick, w1) →
  GetTorrentLinks ctx magnetID (logAt LDebug "Checking for torrent links" w1)
  = ((links, err), w2) →
  pollOnce ctx magnetID st w
  = let st' := mkPoll (tickAfter (nextTick st) (now w1)) (attempts st + 1) in
    match err with
    | Some _ => (Continue st', logAt LWarn "Failed to get torrent links, retrying" w2)
    | None =>
        if bool_decide (0 < length links)%nat then
          (Return links None,
           (fanOut ctx links
              (logAt LDebug "Found download links, starting unrestriction" w2)).2)
        else
          (Continue st',
           logAt LDebug "No links ready yet, waiting for next check" w2)
    end.
Proof.
  intros Hsel Hget. unfold pollOnce, mbind, M_bind. rewrite Hsel.
  unfold getNow. cbn beta iota. unfold logAt in Hget. unfold emit at 1.
  unfold emit in Hget at 1. simpl in Hget. cbn beta iota. rewrite Hget.
  destruct err as [e|]; [done|].
  case_bool_decide; [|done].
  unfold logAt. unfold emit at 1. cbn beta iota.
  by destruct (fanOut ctx links _).
Qed.

Lemma pollLoop_passes (k fuel : nat) (ctx : Context.t) (magnetID : Z)
    (st st' : PollState) (w w' : World) :
  passes k ctx magnetID st w = (Some st', w') →
  pollLoop (k + fuel) ctx magnetID st w = pollLoop fuel ctx magnetID st' w'.
Proof.
  revert st w. induction k as [|k IH]; intros st w.
  { simpl. by intros [= <- <-]. }
  cbn [passes pollLoop Nat.add]. unfold mbind, M_bind.
  destruct (pollOnce ctx magnetID st w) as [[st1|links err] w1]; [|done].
  apply IH.
Qed.

Lemma WaitForDownloadLinks_passes (k fuel : nat) (parent : Context.t)
    (magnetID timeout : Z) (w0 : World) (st : PollState) (w : World) :
  passes k (loopContext parent (now w0) timeout) magnetID (loopStart (now w0))
    (logAt LDebug "Starting to wait for download links" w0) = (Some st, w) →
  WaitForDownloadLinks (k + fuel) parent magnetID timeout w0
  = pollLoop fuel (loopContext parent (now w0) timeout) magnetID st w.
Proof.
  intros Hpasses.
  unfold WaitForDownloadLinks, mbind, M_bind, getNow. cbn beta iota.
  unfold logAt in Hpasses.
  destruct (emit _ w0) as [[] w0'] eqn:Hemit.
  assert (now w0' = now w0) as Hnow0 by (by injection Hemit as <-).
  simpl in Hpasses. rewrite Hnow0.
  by apply pollLoop_passes.
Qed.

End LoopFacts.

(** ** C1: unlock failures are not fatal *)

Section Resolving.
Context `{Remote}.





End Resolving.


(** ** C3: a failed poll does not end the polling *)

Section Polling.
Context `{Remote}.

Lemma passes_S (k : nat) (ctx : Context.t) (magnetID : Z)
    (st0 st st' : PollState) (w0 w w' : World) :
  passes k ctx magnetID st0 w0 = (Some st, w) →
  pollOnce ctx magnetID st w = (Continue st', w') →
  passes (S k) ctx magnetID st0 w0 = (Some st', w').
Proof.
  revert st0 w0. induction k as [|k IH]; intros st0 w0.
  { simpl. intros [= <- <-] Hpass. unfold mbind, M_bind. by rewrite Hpass. }
  intros Hk Hpass. cbn [passes] in Hk |- *. unfold mbind, M_bind in Hk |- *.
  destruct (pollOnce ctx magnetID st0 w0) as [[st1|links err] w1]; [|done].
  by apply IH.
Qed.

(** The ways out of a pass: the context is done, or a poll lists files. *)
Lemma pollOnce_Return (ctx : Context.t) (magnetID : Z) (st : PollState)
    (w w' : World) (links : list Ptr) (err : option error) :
  pollOnce ctx magnetID st w = (Return links err, w') →
  (links = [] ∧ err = Some (Context.reasonErr (Context.why ctx))
   ∧ ∃ w1, select ctx st w = (CaseDone, w1))
  ∨ (links ≠ [] ∧ err = None
     ∧ ∃ w1 w2, select ctx st w = (CaseTick, w1)
                ∧ GetTorrentLinks ctx magnetID
                    (logAt LDebug "Checking for torrent links" w1)
                  = ((links, None), w2)).
Proof.
  destruct (select ctx st w) as [[] w1] eqn:Hsel.
  - rewrite (pollOnce_Done _ _ _ _ _ Hsel). intros [= <- <- <-]. left. eauto.
  - destruct (GetTorrentLinks ctx magnetID
                (logAt LDebug "Checking for torrent links" w1))
      as [[links' err'] w2] eqn:Hget.
    rewrite (pollOnce_Tick _ _ _ _ _ _ _ _ Hsel Hget). cbn zeta.
    destruct err' as [e|]; [done|].
    case_bool_decide as Hlen; [|done].
    intros [= <- <- <-]. right. split; [|eauto].
    intros ->. simpl in Hlen. lia.
Qed.

(** C3. Take any execution of [WaitForDownloadLinks] that is still polling
    after [k] passes and whose next pass takes a tick. If the query fails, or
    succeeds with no file, the pass does not return: the failure is logged as
    a warning, the loop is still polling after [k + 1] passes, and it polls
    again no sooner than at the next tick. A pass returns only when the
    context is done or when a query lists files. *)
Theorem failed_poll_continues_polling
    (k fuel : nat) (parent : Context.t) (magnetID timeout : Z) (w0 : World)
    (st : PollState) (w w1 w2 : World) (links : list Ptr) (err : option error) :
  let ctx := loopContext parent (now w0) timeout in
  let entry := logAt LDebug "Starting to wait for download links" w0 in
  let st' := mkPoll (tickAfter (nextTick st) (now w1)) (attempts st + 1) in
  passes k ctx magnetID (loopStart (now w0)) entry = (Some st, w) →
  select ctx st w = (CaseTick, w1) →
  GetTorrentLinks ctx magnetID (logAt LDebug "Checking for torrent links" w1)
  = ((links, err), w2) →
  is_Some err ∨ links = [] →
  ∃ w',
    pollOnce ctx magnetID st w = (Continue st', w')
    ∧ passes (S k) ctx magnetID (loopStart (now w0)) entry = (Some st', w')
    ∧ WaitForDownloadLinks (S k + fuel) parent magnetID timeout w0
      = pollLoop fuel ctx magnetID st' w'
    ∧ (is_Some err →
       trace w' = trace w2 ++ [Logged LWarn "Failed to get torrent links, retrying"])
    ∧ now w1 < nextTick st'
    ∧ ∀ st1 wa wb links1 err1,
        pollOnce ctx magnetID st1 wa = (Return links1 err1, wb) →
        (links1 = [] ∧ err1 = Some (Context.reasonErr (Context.why ctx))
         ∧ ∃ wc, select ctx st1 wa = (CaseDone, wc))
        ∨ (links1 ≠ [] ∧ err1 = None
           ∧ ∃ wc wd, select ctx st1 wa = (CaseTick, wc)
                      ∧ GetTorrentLinks ctx magnetID
                          (logAt LDebug "Checking for torrent links" wc)
                        = ((links1, None), wd)).
Proof.
  intros ctx entry st' Hpasses Hsel Hget Hfail.
  pose proof (pollOnce_Tick _ _ _ _ _ _ _ _ Hsel Hget) as Hpass. cbn zeta in Hpass.
  fold st' in Hpass.
  assert (Hcont : ∃ w', pollOnce ctx magnetID st w = (Continue st', w')
            ∧ (is_Some err →
               trace w' = trace w2 ++ [Logged LWarn "Failed to get torrent links, retrying"])).
  { destruct err as [e|].
    - eexists. split; [exact Hpass|]. done.
    - destruct Hfail as [[? [=]]| ->]. simpl in Hpass.
      eexists. split; [exact Hpass|]. by intros [? [=]]. }
  destruct Hcont as (w' & Hcont & Hlog).
  exists w'. split; [done|].
  pose proof (passes_S _ _ _ _ _ _ _ _ _ Hpasses Hcont) as HS.
  split; [done|]. split; [by apply WaitForDownloadLinks_passes|].
  split; [done|]. split.
  - apply select_spec in Hsel as (_ & _ & _ & _ & _ & _ & Htick).
    specialize (Htick eq_refl). subst st'. simpl. unfold tickAfter.
    pose proof (Z.mul_succ_div_gt (now w1 - nextTick st) period) as Hdiv.
    unfold period in *. lia.
  - intros st1 wa wb links1 err1. apply pollOnce_Return.
Qed.

End Polling.

Lemma failed_poll_continues_polling_witness :
  let w0 := Script.start Script.partialFailure in
  let timeout := 600 * Script.second in
  let ctx := @loopContext Context.Background (now w0) timeout in
  let entry := logAt LDebug "Starting to wait for download links" w0 in
  let st := (@passes Script.remote 1 ctx 42 (loopStart (now w0)) entry).1 in
  let w := (@passes Script.remote 1 ctx 42 (loopStart (now w0)) entry).2 in
  let w1 := (select ctx (default (loopStart 0) st) w).2 in
  let w2 := (@GetTorrentLinks Script.remote ctx 42
               (logAt LDebug "Checking for torrent links" w1)).2 in
  let st' := mkPoll (tickAfter (nextTick (default (loopStart 0) st)) (now w1))
               (attempts (default (loopStart 0) st) + 1) in
  ∃ w',
    pollOnce ctx 42 (default (loopStart 0) st) w = (Continue st', w')
    ∧ passes 2 ctx 42 (loopStart (now w0)) entry = (Some st', w')
    ∧ @WaitForDownloadLinks Script.remote (2 + 5) Context.Background 42 timeout w0
      = pollLoop 5 ctx 42 st' w'
    ∧ trace w' = trace w2 ++ [Logged LWarn "Failed to get torrent links, retrying"].
Proof.
  intros w0 timeout ctx entry st w w1 w2 st'.
  edestruct (@failed_poll_continues_polling Script.remote 1 5 Context.Background 42
               timeout w0 (default (loopStart 0) st) w w1 w2
               (@GetTorrentLinks Script.remote ctx 42
                  (logAt LDebug "Checking for torrent links" w1)).1.1
               (@GetTorrentLinks Script.remote ctx 42
                  (logAt LDebug "Checking for torrent links" w1)).1.2)
    as (w' & Hpass & Hpasses & Hcall & Hlog & _).
  - vm_compute. reflexivity.
  - vm_compute. reflexivity.
  - vm_compute. reflexivity.
  - left. vm_compute. eexists. reflexivity.
  - exists w'. split; [exact Hpass|]. split; [exact Hpasses|].
    split; [exact Hcall|]. apply Hlog. vm_compute. eexists. reflexivity.
Defined.

(** ** C2: the deadline and cancellation while polling *)

Section Deadline.
Context `{Remote}.

Lemma tickAfter_later (tick received : Z) :
  tick ≤ received →
  received < tickAfter tick received ∧ tick + period ≤ tickAfter tick received.
Proof.
  intros Hle. unfold tickAfter.
  pose proof (Z.mul_succ_div_gt (received - tick) period) as Hgt.
  pose proof (Z.div_pos (received - tick) period) as Hpos.
  unfold period in *. lia.
Qed.

Lemma select_now (ctx : Context.t) (st : PollState) (w w1 : World) (c : Case) :
  select ctx st w = (c, w1) →
  now w1 = now w `max` match Context.doneAt ctx with
                       | Some d => d `min` nextTick st
                       | None => nextTick st
                       end.
Proof. unfold select. by intros [= _ <-]. Qed.

(** With the context done and no tick in the channel, [select] can only take
    the context's case. *)
Lemma select_only_done (ctx : Context.t) (st : PollState) (w : World) :
  Context.isDone ctx (now w) = true → now w < nextTick st →
  ∃ w1, select ctx st w = (CaseDone, w1).
Proof.
  intros Hdone Htick. unfold select.
  apply isDone_spec in Hdone as (d & Hd & Hle). rewrite Hd.
  replace (now w `max` (d `min` nextTick st)) with (now w) by lia.
  assert (Context.isDone ctx (now w) = true) as ->.
  { apply isDone_spec. eauto. }
  rewrite bool_decide_eq_false_2 by lia. simpl. eauto.
Qed.

(** Once the context ends no later than the loop can next act, the loop
    returns the context's error within two passes: it may still take a tick
    that is in the channel, but the query then fails at once. *)
Lemma pollLoop_done (fuel : nat) (ctx : Context.t) (magnetID : Z)
    (st : PollState) (w : World) (d : Z) :
  Context.doneAt ctx = Some d →
  d ≤ now w `max` nextTick st →
  ∃ w', pollLoop (2 + fuel) ctx magnetID st w
        = (Some ([], Some (Context.reasonErr (Context.why ctx))), w').
Proof.
  intros Hd Hle.
  destruct (select ctx st w) as [c w1] eqn:Hsel.
  pose proof (select_now _ _ _ _ _ Hsel) as Hnow1. rewrite Hd in Hnow1.
  assert (Hdone1 : Context.isDone ctx (now w1) = true).
  { apply isDone_spec. exists d. split; [done|lia]. }
  destruct c.
  { cbn [pollLoop Nat.add]. unfold mbind, M_bind.
    rewrite (pollOnce_Done _ _ _ _ _ Hsel). eauto. }
  destruct (GetTorrentLinks_done ctx magnetID
              (logAt LDebug "Checking for torrent links" w1)) as [e Hget]; [done|].
  pose proof (pollOnce_Tick _ _ _ _ _ _ _ _ Hsel Hget) as Hpass. cbn zeta in Hpass.
  cbn [pollLoop Nat.add]. unfold mbind, M_bind. rewrite Hpass.
  apply select_spec in Hsel as (_ & _ & _ & _ & _ & _ & Htick).
  specialize (Htick eq_refl).
  destruct (tickAfter_later _ _ Htick) as [Hlater _].
  set (st' := mkPoll _ _). set (w2 := logAt LWarn _ _).
  destruct (select_only_done ctx st' w2) as [w3 Hsel2]; [done|done|].
  rewrite (pollOnce_Done _ _ _ _ _ Hsel2). eauto.
Qed.

(** A pass that continues moves the ticker on by a period at least. *)
Lemma pollOnce_Continue (ctx : Context.t) (magnetID : Z) (st st' : PollState)
    (w w' : World) :
  pollOnce ctx magnetID st w = (Continue st', w') →
  nextTick st + period ≤ nextTick st'.
Proof.
  destruct (select ctx st w) as [[] w1] eqn:Hsel.
  { by rewrite (pollOnce_Done _ _ _ _ _ Hsel). }
  destruct (GetTorrentLinks ctx magnetID
              (logAt LDebug "Checking for torrent links" w1))
    as [[links err] w2] eqn:Hget.
  rewrite (pollOnce_Tick _ _ _ _ _ _ _ _ Hsel Hget). cbn zeta.
  apply select_spec in Hsel as (_ & _ & _ & _ & _ & _ & Htick).
  specialize (Htick eq_refl).
  destruct (tickAfter_later _ _ Htick) as [_ Hperiod].
  destruct err as [e|]; [by intros [= <- <-]|].
  case_bool_decide; [done|]. by intros [= <- <-].
Qed.

(** The loop returns as soon as the ticks that fit before the end of the
    context are used up, with the context's error and no link or with links
    and no error. *)
Lemma pollLoop_returns (n fuel : nat) (ctx : Context.t) (magnetID : Z) (d : Z) :
  Context.doneAt ctx = Some d →
  ∀ (st : PollState) (w : World),
    d < nextTick st + period * Z.of_nat n →
    ∃ links err w',
      pollLoop (n + 2 + fuel) ctx magnetID st w = (Some (links, err), w')
      ∧ ((links = [] ∧ err = Some (Context.reasonErr (Context.why ctx)))
         ∨ (links ≠ [] ∧ err = None)).
Proof.
  intros Hd. induction n as [|n IH]; intros st w Hlt.
  { destruct (pollLoop_done fuel ctx magnetID st w d) as [w' Hw']; [done|lia|].
    exists [], (Some (Context.reasonErr (Context.why ctx))), w'.
    split; [done|]. by left. }
  cbn [pollLoop Nat.add]. unfold mbind, M_bind.
  destruct (pollOnce ctx magnetID st w) as [[st'|links err] w1] eqn:Hpass.
  - apply pollOnce_Continue in Hpass. apply IH. lia.
  - exists links, err, w1. split; [done|].
    apply pollOnce_Return in Hpass as [(-> & -> & _)|(Hl & -> & _)]; [by left|by right].
Qed.

End Deadline.

Section DeadlineWhilePolling.
Context `{Remote}.

(** The context of the loop ends with the timeout, or with the parent when
    that was done at the call or ends first; it reports the parent's error in
    the second case and [DeadlineExceeded] in the first. *)
Lemma loopContext_ends (parent : Context.t) (t0 timeout : Z) :
  ∃ d, Context.doneAt (loopContext parent t0 timeout) = Some d
       ∧ d ≤ t0 `max` (t0 + timeout)
       ∧ match Context.doneAt parent with
         | Some pd =>
             if bool_decide (pd ≤ t0 ∨ pd < t0 + timeout)
             then d = pd ∧ Context.why (loopContext parent t0 timeout) = Context.why parent
             else d = t0 + timeout
                  ∧ Context.why (loopContext parent t0 timeout) = Context.ByDeadline
         | None =>
             d = t0 + timeout
             ∧ Context.why (loopContext parent t0 timeout) = Context.ByDeadline
         end.
Proof.
  unfold loopContext, Context.WithTimeout.
  destruct (Context.doneAt parent) as [pd|] eqn:Hpd.
  - destruct (decide (pd ≤ t0)) as [Hdone|Hdone].
    { rewrite (bool_decide_eq_true_2 (pd ≤ t0)), bool_decide_eq_true_2 by auto.
      exists pd. rewrite Hpd. split; [done|]. split; [lia|done]. }
    rewrite (bool_decide_eq_false_2 (pd ≤ t0)) by done.
    destruct (decide (pd < t0 + timeout)) as [Hlt|Hlt].
    + rewrite !bool_decide_eq_true_2 by auto.
      exists pd. rewrite Hpd. split; [done|]. split; [lia|done].
    + rewrite !bool_decide_eq_false_2 by tauto.
      exists (t0 + timeout). simpl. split; [done|]. split; [lia|done].
  - exists (t0 + timeout). simpl. split; [done|]. split; [lia|done].
Qed.

(** Which error the context of the loop reports. *)
Lemma loopContext_error (parent : Context.t) (t0 timeout : Z) :
  let ctx := loopContext parent t0 timeout in
  (∀ pd, Context.doneAt parent = Some pd → pd ≤ t0 ∨ pd < t0 + timeout →
     Context.reasonErr (Context.why ctx) = Context.reasonErr (Context.why parent))
  ∧ ((∀ pd, Context.doneAt parent = Some pd → t0 < pd ∧ t0 + timeout < pd) →
     Context.reasonErr (Context.why ctx) = DeadlineExceeded).
Proof.
  intros ctx.
  destruct (loopContext_ends parent t0 timeout) as (d & _ & _ & Hwhy).
  fold ctx in Hwhy. split.
  - intros pd Hpd Hfirst. rewrite Hpd, bool_decide_eq_true_2 in Hwhy by done.
    destruct Hwhy as [_ Hwhy]. by rewrite Hwhy.
  - intros Hlater. destruct (Context.doneAt parent) as [pd|].
    + specialize (Hlater pd eq_refl). rewrite bool_decide_eq_false_2 in Hwhy by lia.
      destruct Hwhy as [_ Hwhy]. by rewrite Hwhy.
    + destruct Hwhy as [_ Hwhy]. by rewrite Hwhy.
Qed.

Lemma WaitForDownloadLinks_entry (fuel : nat) (parent : Context.t)
    (magnetID timeout : Z) (w0 : World) :
  WaitForDownloadLinks fuel parent magnetID timeout w0
  = pollLoop fuel (loopContext parent (now w0) timeout) magnetID
      (loopStart (now w0)) (logAt LDebug "Starting to wait for download links" w0).
Proof. apply (WaitForDownloadLinks_passes 0 fuel). reflexivity. Qed.

(** C2. Take any execution of [WaitForDownloadLinks] that is still polling
    after [k] passes, and let the context end (by the deadline or by
    cancellation) no later than the loop can next act. Then the call returns
    the context's error and no link. That error is the parent's error
    ([Canceled] for a cancelled parent) when the parent was done at the call
    or ended before the timeout ran out, and [DeadlineExceeded] when the
    timeout ran out before the parent ended; the two differ. In every
    execution the call returns, either the context's error and no link at
    all, or links and no error. *)
Theorem deadline_while_polling_returns_the_context_error
    (k fuel : nat) (parent : Context.t) (magnetID timeout : Z) (w0 : World)
    (st : PollState) (w : World) (d : Z) :
  let ctx := loopContext parent (now w0) timeout in
  let entry := logAt LDebug "Starting to wait for download links" w0 in
  passes k ctx magnetID (loopStart (now w0)) entry = (Some st, w) →
  Context.doneAt ctx = Some d →
  d ≤ now w `max` nextTick st →
  (∃ w', WaitForDownloadLinks (k + (2 + fuel)) parent magnetID timeout w0
         = (Some ([], Some (Context.reasonErr (Context.why ctx))), w'))
  ∧ (∀ pd, Context.doneAt parent = Some pd →
       pd ≤ now w0 ∨ pd < now w0 + timeout →
       Context.reasonErr (Context.why ctx) = Context.reasonErr (Context.why parent))
  ∧ ((∀ pd, Context.doneAt parent = Some pd → now w0 < pd ∧ now w0 + timeout < pd) →
     Context.reasonErr (Context.why ctx) = DeadlineExceeded)
  ∧ Context.reasonErr Context.ByCancel = Canceled
  ∧ Context.reasonErr Context.ByDeadline = DeadlineExceeded
  ∧ Canceled ≠ DeadlineExceeded
  ∧ ∀ fuel' : nat,
      (Z.to_nat (timeout `div` period) + 2 ≤ fuel')%nat →
      ∃ links err w',
        WaitForDownloadLinks fuel' parent magnetID timeout w0
        = (Some (links, err), w')
        ∧ ((links = [] ∧ err = Some (Context.reasonErr (Context.why ctx)))
           ∨ (links ≠ [] ∧ err = None)).
Proof.
  intros ctx entry Hpasses Hd Hle.
  split.
  { rewrite (WaitForDownloadLinks_passes _ _ _ _ _ _ _ _ Hpasses).
    by eapply pollLoop_done. }
  destruct (loopContext_error parent (now w0) timeout) as [Hparent Htimer].
  split; [exact Hparent|]. split; [exact Htimer|].
  split; [done|]. split; [done|]. split; [done|].
  intros fuel' Hfuel.
  destruct (loopContext_ends parent (now w0) timeout) as (d' & Hd' & Hle' & _).
  fold ctx in Hd'. rewrite WaitForDownloadLinks_entry. fold ctx entry.
  set (n := Z.to_nat (timeout `div` period)) in *.
  replace fuel' with (n + 2 + (fuel' - n - 2))%nat by lia.
  apply (pollLoop_returns n _ ctx magnetID d' Hd').
  unfold loopStart. simpl.
  pose proof (Z.mul_succ_div_gt timeout period) as Hgt.
  assert (timeout `div` period ≤ Z.of_nat n) as Hn by (subst n; lia).
  assert (timeout < period * Z.of_nat n + period) as Hroom
    by (unfold period in *; nia).
  unfold period in *. lia.
Qed.

End DeadlineWhilePolling.

Lemma deadline_while_polling_returns_the_context_error_witness :
  (∃ w', @WaitForDownloadLinks Script.remote (2 + (2 + 0)) Context.Background 42
           (25 * Script.second) (Script.start Script.partialFailure)
         = (Some ([], Some DeadlineExceeded), w'))
  ∧ (∃ w', @WaitForDownloadLinks Script.remote (0 + (2 + 0))
             (Context.mk (Some (3 * Script.second)) Context.ByCancel) 42
             (5 * Script.second) (Script.start Script.partialFailure)
           = (Some ([], Some Canceled), w'))
  ∧ (∃ w', @WaitForDownloadLinks Script.remote (0 + (2 + 0))
             (Context.mk (Some (- 5 * Script.second)) Context.ByCancel) 42
             (- 10 * Script.second) (Script.start Script.partialFailure)
           = (Some ([], Some Canceled), w')).
Proof.
  split; [|split].
  - refine (proj1 (@deadline_while_polling_returns_the_context_error Script.remote
                     2 0 Context.Background 42 (25 * Script.second)
                     (Script.start Script.partialFailure) _ _ (25 * Script.second)
                     _ _ _)).
    + vm_compute. reflexivity.
    + reflexivity.
    + vm_compute. discriminate.
  - refine (proj1 (@deadline_while_polling_returns_the_context_error Script.remote
                     0 0 (Context.mk (Some (3 * Script.second)) Context.ByCancel) 42
                     (5 * Script.second)
                     (Script.start Script.partialFailure) _ _ (3 * Script.second)
                     _ _ _)).
    + vm_compute. reflexivity.
    + reflexivity.
    + vm_compute. discriminate.
  - refine (proj1 (@deadline_while_polling_returns_the_context_error Script.remote
                     0 0 (Context.mk (Some (- 5 * Script.second)) Context.ByCancel) 42
                     (- 10 * Script.second)
                     (Script.start Script.partialFailure) _ _ (- 5 * Script.second)
                     _ _ _)).
    + vm_compute. reflexivity.
    + reflexivity.
    + vm_compute. discriminate.
Defined.

(** ** C9: no query before the first tick *)

Section FirstTick.
Context `{Remote}.

(** No request of a pass leaves before the tick the pass waits for. *)
Lemma pollOnce_sent (ctx : Context.t) (magnetID : Z) (st : PollState)
    (w w' : World) (o : Outcome) (T : Z) :
  T ≤ nextTick st →
  pollOnce ctx magnetID st w = (o, w') →
  now w ≤ now w'
  ∧ ∃ evs, trace w' = trace w ++ evs ∧ Forall (λ t, T ≤ t) (sentTimes evs).
Proof.
  intros HT. destruct (select ctx st w) as [[] w1] eqn:Hsel.
  { rewrite (pollOnce_Done _ _ _ _ _ Hsel). intros [= <- <-].
    apply select_spec in Hsel as (_ & _ & _ & Htrace & Hnow & _).
    unfold logAt. simpl. rewrite Htrace. split; [done|].
    eexists [_]. split; [done|]. constructor. }
  destruct (GetTorrentLinks ctx magnetID
              (logAt LDebug "Checking for torrent links" w1))
    as [[links err] w2] eqn:Hget.
  rewrite (pollOnce_Tick _ _ _ _ _ _ _ _ Hsel Hget). cbn zeta.
  apply select_spec in Hsel as (_ & _ & _ & Htrace1 & Hnow1 & _ & Htick).
  specialize (Htick eq_refl).
  apply GetTorrentLinks_spec in Hget
    as (Hnow2 & Hlinks & _ & _ & _ & _ & evs2 & Htrace2 & Hsent2 & _).
  unfold logAt in Hnow2, Htrace2, Hsent2. simpl in Hnow2, Htrace2, Hsent2.
  assert (Hsent2' : Forall (λ t, T ≤ t) (sentTimes evs2)).
  { eapply Forall_impl; [exact Hsent2|]. simpl. intros t ->. lia. }
  destruct err as [e|].
  { intros [= <- <-]. unfold logAt. simpl. split; [lia|].
    exists ([Logged LDebug "Checking for torrent links"] ++ evs2
            ++ [Logged LWarn "Failed to get torrent links, retrying"]).
    rewrite Htrace2, Htrace1, <- !app_assoc. split; [done|].
    rewrite !sentTimes_app. simpl. by rewrite app_nil_r. }
  case_bool_decide as Hlen.
  - intros [= <- <-].
    set (w3 := logAt LDebug "Found download links, starting unrestriction" w2).
    assert (Hnd : NoDup links) by (rewrite Hlinks; apply NoDup_seq).
    destruct (fanOut_spec ctx links w3 _ Hnd eq_refl)
      as (_ & Hnow3 & _ & evs3 & Htrace3 & Hsent3 & _).
    assert (Hnow3' : now w3 = now w2) by reflexivity.
    assert (Htrace3' : trace w3
      = trace w2 ++ [Logged LDebug "Found download links, starting unrestriction"])
      by reflexivity.
    split; [lia|].
    exists ([Logged LDebug "Checking for torrent links"] ++ evs2
            ++ [Logged LDebug "Found download links, starting unrestriction"] ++ evs3).
    rewrite Htrace3, Htrace3', Htrace2, Htrace1, <- !app_assoc. split; [done|].
    rewrite !sentTimes_app. simpl. apply Forall_app. split; [done|].
    eapply Forall_impl; [exact Hsent3|]. simpl. intros t ->. lia.
  - intros [= <- <-]. unfold logAt. simpl. split; [lia|].
    exists ([Logged LDebug "Checking for torrent links"] ++ evs2
            ++ [Logged LDebug "No links ready yet, waiting for next check"]).
    rewrite Htrace2, Htrace1, <- !app_assoc. split; [done|].
    rewrite !sentTimes_app. simpl. by rewrite app_nil_r.
Qed.

Lemma pollLoop_sent (fuel : nat) (ctx : Context.t) (magnetID : Z) (T : Z) :
  ∀ (st : PollState) (w : World),
    T ≤ nextTick st →
    ∃ evs, trace (pollLoop fuel ctx magnetID st w).2 = trace w ++ evs
           ∧ Forall (λ t, T ≤ t) (sentTimes evs).
Proof.
  induction fuel as [|fuel IH]; intros st w HT.
  { exists []. simpl. by rewrite app_nil_r. }
  cbn [pollLoop]. unfold mbind, M_bind.
  destruct (pollOnce ctx magnetID st w) as [o w1] eqn:Hpass.
  pose proof (pollOnce_sent _ _ _ _ _ _ T HT Hpass) as (_ & evs1 & Htrace1 & Hsent1).
  destruct o as [st'|links err].
  - apply pollOnce_Continue in Hpass.
    destruct (IH st' w1) as (evs & Htrace & Hsent); [unfold period in *; lia|].
    exists (evs1 ++ evs). rewrite Htrace, Htrace1, <- app_assoc. split; [done|].
    rewrite sentTimes_app. by apply Forall_app.
  - simpl. eauto.
Qed.

End FirstTick.

Section BeforeFirstTick.
Context `{Remote}.

(** When the context ends before the next tick, [select] takes the context's
    case without touching the network. *)
Lemma select_before_tick (ctx : Context.t) (st : PollState) (w : World) (d : Z) :
  Context.doneAt ctx = Some d → d < nextTick st → now w < nextTick st →
  ∃ w1, select ctx st w = (CaseDone, w1) ∧ net w1 = net w ∧ trace w1 = trace w.
Proof.
  intros Hd Hlt Hnow. unfold select. rewrite Hd.
  replace (now w `max` (d `min` nextTick st)) with (now w `max` d) by lia.
  assert (Context.isDone ctx (now w `max` d) = true) as ->.
  { apply isDone_spec. exists d. split; [done|lia]. }
  rewrite bool_decide_eq_false_2 by lia. simpl. eauto.
Qed.

(** With a timeout shorter than the period the first pass takes the context's
    case: the call returns the context's error and no link, and sends
    nothing. *)
Lemma WaitForDownloadLinks_short (fuel : nat) (parent : Context.t)
    (magnetID timeout : Z) (w0 : World) :
  timeout < period →
  let ctx := loopContext parent (now w0) timeout in
  let r := WaitForDownloadLinks (S fuel) parent magnetID timeout w0 in
  r.1 = Some ([], Some (Context.reasonErr (Context.why ctx)))
  ∧ sentTimes (since w0 r.2) = []
  ∧ net r.2 = net w0.
Proof.
  intros Hshort ctx r.
  destruct (loopContext_ends parent (now w0) timeout) as (d & Hd & Hle & _).
  fold ctx in Hd.
  set (entry := logAt LDebug "Starting to wait for download links" w0).
  destruct (select_before_tick ctx (loopStart (now w0)) entry d)
    as (w1 & Hsel & Hnet1 & Htrace1);
    [done|simpl; unfold period in *; lia|simpl; unfold period; lia|].
  assert (Hr : r = (Some ([], Some (Context.reasonErr (Context.why ctx))),
                    logAt LWarn "Timeout reached while waiting for download links" w1)).
  { subst r. rewrite WaitForDownloadLinks_entry. fold ctx entry.
    cbn [pollLoop]. unfold mbind, M_bind.
    by rewrite (pollOnce_Done _ _ _ _ _ Hsel). }
  rewrite Hr. simpl.
  split; [done|]. split; [|by rewrite Hnet1].
  erewrite since_app; [|unfold logAt; simpl; rewrite Htrace1;
                        unfold entry, logAt; simpl; by rewrite <- app_assoc].
  done.
Qed.

(** C9, as the code has it. No request that [WaitForDownloadLinks] causes
    leaves before one period (10 s) has passed since the call, whatever the
    timeout and the parent context. With a timeout shorter than the period
    the call returns the error of its context and no link without sending
    anything, even to a service that has the files ready. That error is
    [DeadlineExceeded] when the parent context never ends or ends after the
    timeout has run; it is the parent's error ([Canceled] for a cancelled
    parent) when the parent was done at the call or ended before the timeout
    had run. *)
Theorem no_poll_before_the_first_tick
    (fuel : nat) (parent : Context.t) (magnetID timeout : Z) (w0 : World) :
  timeout < period →
  let ctx := loopContext parent (now w0) timeout in
  let r := WaitForDownloadLinks (S fuel) parent magnetID timeout w0 in
  r.1 = Some ([], Some (Context.reasonErr (Context.why ctx)))
  ∧ sentTimes (since w0 r.2) = []
  ∧ net r.2 = net w0
  ∧ ((∀ pd, Context.doneAt parent = Some pd → now w0 < pd ∧ now w0 + timeout < pd) →
     Context.reasonErr (Context.why ctx) = DeadlineExceeded)
  ∧ (∀ pd, Context.doneAt parent = Some pd →
       pd ≤ now w0 ∨ pd < now w0 + timeout →
       Context.reasonErr (Context.why ctx) = Context.reasonErr (Context.why parent))
  ∧ (∀ (fuel' : nat) (parent' : Context.t) (timeout' : Z),
       Forall (λ t, now w0 + period ≤ t)
         (sentTimes
            (since w0 (WaitForDownloadLinks fuel' parent' magnetID timeout' w0).2))).
Proof.
  intros Hshort ctx r.
  destruct (WaitForDownloadLinks_short fuel parent magnetID timeout w0 Hshort)
    as (Hr & Hsent & Hnet). fold r in Hr, Hsent, Hnet.
  destruct (loopContext_error parent (now w0) timeout) as [Hparent Htimer].
  split; [done|]. split; [done|]. split; [done|].
  split; [exact Htimer|]. split; [exact Hparent|].
  intros fuel' parent' timeout'. rewrite WaitForDownloadLinks_entry.
  destruct (pollLoop_sent fuel' (loopContext parent' (now w0) timeout') magnetID
              (now w0 + period) (loopStart (now w0))
              (logAt LDebug "Starting to wait for download links" w0))
    as (evs & Htrace & Hsent'); [done|].
  erewrite since_app; [|rewrite Htrace; unfold logAt; simpl; by rewrite <- app_assoc].
  rewrite sentTimes_app. by apply Forall_app.
Qed.

End BeforeFirstTick.

Lemma no_poll_before_the_first_tick_witness :
  let w0 := Script.start Script.alreadyDone in
  let r := @WaitForDownloadLinks Script.remote 1 Context.Background 42
             (9 * Script.second) w0 in
  r.1 = Some ([], Some DeadlineExceeded)
  ∧ sentTimes (since w0 r.2) = []
  ∧ net r.2 = net w0.
Proof.
  intros w0 r.
  pose proof (@no_poll_before_the_first_tick Script.remote 0 Context.Background 42
                (9 * Script.second) w0) as Hthm.
  destruct Hthm as (Hr & Hsent & Hnet & _); [reflexivity|].
  split; [exact Hr|]. split; [exact Hsent|exact Hnet].
Defined.

(** C9 as stated fails: with a timeout of 5 s under a parent context that is
    cancelled after 2 s, the call returns [context.Canceled], which is no
    deadline error; so it does, after 5 s, under a parent that was cancelled
    before the call. Nothing is sent in either case. *)
Lemma short_timeout_counterexample :
  let w0 := Script.start Script.alreadyDone in
  (let parent := Context.mk (Some (2 * Script.second)) Context.ByCancel in
   let r := @WaitForDownloadLinks Script.remote 1 parent 42 (5 * Script.second) w0 in
   r.1 = Some ([], Some Canceled) ∧ now r.2 = 2 * Script.second
   ∧ sentTimes (since w0 r.2) = [])
  ∧ (let parent := Context.mk (Some (- Script.second)) Context.ByCancel in
     let r := @WaitForDownloadLinks Script.remote 1 parent 42 (5 * Script.second) w0 in
     r.1 = Some ([], Some Canceled) ∧ sentTimes (since w0 r.2) = [])
  ∧ 5 * Script.second < period
  ∧ Canceled ≠ DeadlineExceeded.
Proof. repeat split; vm_compute; congruence. Qed.

(** ** The scripted job, run

    The job of [Script.partialFailure] under a timeout of ten minutes: polls
    at 10, 20, 30 and 40 seconds, the last one listing two files; both unlocks
    leave when that poll has returned; the call returns the two links, the
    second without download URL. *)
Example partialFailure_run :
  let r := @WaitForDownloadLinks Script.remote 10 Context.Background 42
             (600 * Script.second) (Script.start Script.partialFailure) in
  r.1 = Some ([0%nat; 1%nat], None)
  ∧ heap r.2 0%nat = Link.mk "a.mkv" "https://l/a" 9 "https://d/a"
  ∧ heap r.2 1%nat = Link.mk "b.mkv" "https://l/b" 7 ""
  ∧ sentTimes (trace r.2)
    = [10 * Script.second; 20 * Script.second; 30 * Script.second;
       40 * Script.second; 40 * Script.second + 1000; 40 * Script.second + 1000]
  ∧ unlocks (trace r.2) = [(0%nat, Some "https://d/a"); (1%nat, None)].
Proof. vm_compute. repeat split; reflexivity. Qed.

(** * The rest of the code *)

(** ** The walkers: what every record satisfies *)

Lemma int64_of_float64_range (f : float) :
  int64_min ≤ int64_of_float64 f ≤ int64_max.
Proof.
  unfold int64_of_float64.
  destruct (truncate f) as [z|]; [|by compute].
  destruct (int64_min <=? z) eqn:H1; simpl; [|by compute].
  destruct (z <=? int64_max) eqn:H2; simpl; [|by compute]. lia.
Qed.

Lemma filePath_ends_in_name (p n : string) :
  Spec.filePath p n = n ∨ ∃ dir, dir ≠ "" ∧ Spec.filePath p n = dir +:+ "/" +:+ n.
Proof.
  unfold Spec.filePath. destruct (decide (p = "")); [by left|right; eauto].
Qed.

Lemma Typed_records (node : TorrentNode.t) (p : string) :
  Forall (λ file, FileEntry.Link file ≠ ""
                  ∧ int64_min ≤ FileEntry.Size file ≤ int64_max
                  ∧ (FileEntry.Path file = FileEntry.Name file
                     ∨ ∃ dir, dir ≠ ""
                              ∧ FileEntry.Path file = dir +:+ "/" +:+ FileEntry.Name file))
    (Typed.flattenTreeWithPath node p).
Proof.
  revert p. induction node as [name link size entries IH]; intros p.
  rewrite Typed_flatten_eq.
  destruct (TorrentNode.IsFile _) eqn:Hfile.
  - constructor; [|constructor]. simpl. split_and!.
    + by apply bool_decide_eq_true in Hfile.
    + apply int64_of_float64_range.
    + apply int64_of_float64_range.
    + apply filePath_ends_in_name.
  - destruct (TorrentNode.IsDirectory _); [|constructor].
    apply Forall_concat, Forall_fmap. apply list_all_Forall in IH.
    eapply Forall_impl; [exact IH|]. simpl. auto.
Qed.

Lemma Typed_records_of_files (nodes : list TorrentNode.t) :
  Forall (λ file, FileEntry.Link file ≠ "") (Typed.flattenTree nodes).
Proof.
  unfold Typed.flattenTree. rewrite appendEach_concat. simpl.
  apply Forall_concat, Forall_fmap, Forall_forall. intros node _.
  eapply Forall_impl; [apply Typed_records|]. by intros file (Hlink & _).
Qed.

(** X1. Every record of the typed walker stands for a file node: its link
    is not empty, its size is an [int64], and its path is its name, or a
    directory path, a slash and its name (output.go, lines 182-227). *)
Theorem Typed_records_are_files (nodes : list TorrentNode.t) :
  Forall (λ file, FileEntry.Link file ≠ ""
                  ∧ int64_min ≤ FileEntry.Size file ≤ int64_max
                  ∧ (FileEntry.Path file = FileEntry.Name file
                     ∨ ∃ dir, dir ≠ ""
                              ∧ FileEntry.Path file = dir +:+ "/" +:+ FileEntry.Name file))
    (Typed.flattenTree nodes).
Proof.
  unfold Typed.flattenTree. rewrite appendEach_concat. simpl.
  apply Forall_concat, Forall_fmap, Forall_forall. intros node _.
  apply Typed_records.
Qed.

(** ** Paths below the current path *)

Lemma append_assoc (s1 s2 s3 : string) : (s1 +:+ s2) +:+ s3 = s1 +:+ s2 +:+ s3.
Proof.
  induction s1 as [|c s1 IH]; [done|].
  change (String c ((s1 +:+ s2) +:+ s3) = String c (s1 +:+ s2 +:+ s3)).
  by rewrite IH.
Qed.

Lemma append_nil_r (s : string) : s +:+ "" = s.
Proof.
  induction s as [|c s IH]; [done|].
  change (String c (s +:+ "") = String c s). by rewrite IH.
Qed.

Lemma append_eq_nil (s1 s2 : string) : s1 +:+ s2 = "" → s1 = "".
Proof. by destruct s1. Qed.

Lemma below_childPath (p n : string) (file : FileEntry.t) :
  p ≠ "" → below (Spec.childPath p n) file → below p file.
Proof.
  intros Hp [rest Hrest]. unfold Spec.childPath in Hrest.
  destruct (decide (p ≠ "" ∧ n ≠ "")) as [_|Hn].
  - exists (n +:+ "/" +:+ rest). by rewrite Hrest, !append_assoc.
  - rewrite decide_True in Hrest by done. by exists rest.
Qed.

Lemma childPath_nonempty (p n : string) : p ≠ "" → Spec.childPath p n ≠ "".
Proof.
  intros Hp. unfold Spec.childPath.
  destruct (decide (p ≠ "" ∧ n ≠ "")) as [_|_].
  - by intros ?%append_eq_nil.
  - by rewrite decide_True.
Qed.

Lemma below_filePath (p n link : string) (size : Z) :
  p ≠ "" → below p (FileEntry.mk link (Spec.filePath p n) n size).
Proof.
  intros Hp. exists n. unfold Spec.filePath. simpl. by rewrite decide_False.
Qed.

Lemma Typed_below (node : TorrentNode.t) :
  ∀ p, p ≠ "" → Forall (below p) (Typed.flattenTreeWithPath node p).
Proof.
  induction node as [name link size entries IH]; intros p Hp.
  rewrite Typed_flatten_eq.
  destruct (TorrentNode.IsFile _).
  - constructor; [|constructor]. by apply below_filePath.
  - destruct (TorrentNode.IsDirectory _); [|constructor].
    apply Forall_concat, Forall_fmap. apply list_all_Forall in IH.
    eapply Forall_impl; [exact IH|]. simpl. intros entry Hentry.
    eapply Forall_impl; [apply Hentry, childPath_nonempty, Hp|].
    intros file. by apply below_childPath.
Qed.

Lemma Untyped_below (data : any) :
  ∀ p files, p ≠ "" → Untyped.flattenTreeWithPath data p = Some files →
             Forall (below p) files.
Proof.
  induction data as [| | | |items IH|members IH]; intros p files Hp;
    try (intros [= <-]; constructor).
  - rewrite Untyped_flatten_Slice. apply list_all_Forall in IH.
    revert files. induction IH as [|x xs Hx _ IHxs]; intros files; simpl.
    { intros [= <-]. constructor. }
    destruct (Untyped.flattenTreeWithPath x p) as [fs|] eqn:Hfs; simpl; [|done].
    destruct (mapM _ xs) as [fss|]; simpl; [|done].
    intros [= <-]. simpl. apply Forall_app. split; [by eapply Hx|].
    by apply IHxs.
  - rewrite Untyped_flatten_Map. apply members_all_Forall in IH.
    destruct (mapIndex "e" members) as [e|] eqn:He.
    + apply mapIndex_elem_of in He.
      rewrite Forall_forall in IH. specialize (IH _ He). simpl in IH.
      destruct (match mapIndex "n" members with Some n => _ | None => _ end)
        as [dirName|]; simpl; [|done].
      intros Hfiles. eapply Forall_impl.
      * eapply IH; [|exact Hfiles]. by apply childPath_nonempty.
      * intros file. by apply below_childPath.
    + destruct (mapIndex "l" members) as [l|]; [|intros [= <-]; constructor].
      destruct (mapIndex "n" members) as [n|]; [|intros [= <-]; constructor].
      destruct (mapIndex "s" members) as [s|]; [|intros [= <-]; constructor].
      destruct (assertString n) as [fileName|]; simpl; [|done].
      destruct (assertString l) as [link|]; simpl; [|done].
      destruct (assertFloat64 s) as [size|]; simpl; [|done].
      intros [= <-]. constructor; [|constructor]. by apply below_filePath.
Qed.

(** X2. Under a current path that is not empty, both path-tracking walkers
    only emit paths that begin with the current path and a slash: a
    subtree's records stay below the directory the walk came through
    (client.go, lines 646-696; output.go, lines 191-227). *)
Theorem paths_stay_below_the_current_path
    (node : TorrentNode.t) (data : any) (p : string) :
  p ≠ "" →
  Forall (below p) (Typed.flattenTreeWithPath node p)
  ∧ ∀ files, Untyped.flattenTreeWithPath data p = Some files →
             Forall (below p) files.
Proof.
  intros Hp. split; [by apply Typed_below|].
  intros files. by apply Untyped_below.
Qed.

Lemma paths_stay_below_the_current_path_witness :
  Forall (below "movies")
    (Typed.flattenTreeWithPath
       (TorrentNode.mk "" "" 0 [TorrentNode.mk "a.mkv" "https://l/a" 9 []]) "movies")
  ∧ ∀ files,
      Untyped.flattenTreeWithPath
        (Slice [Map [("n", Str "s01");
                     ("e", Slice [Map [("n", Str "a.mkv"); ("s", Float64 9);
                                       ("l", Str "https://l/a")]])]]) "movies"
      = Some files →
      Forall (below "movies") files.
Proof. by apply paths_stay_below_the_current_path. Defined.

(** ** The first revision and the path-tracking one *)

Lemma mapM_withoutPath (items : list any) (p : string) :
  Forall (λ item, ∀ (p : string) (files : list FileEntry.t),
                    Untyped.flattenTreeWithPath item p = Some files →
                    Legacy.flattenTree item = Some (withoutPath <$> files)) items →
  ∀ fss : list (list FileEntry.t),
    mapM (λ item, Untyped.flattenTreeWithPath item p) items = Some fss →
    mapM Legacy.flattenTree items
    = Some ((λ fs : list FileEntry.t, withoutPath <$> fs) <$> fss).
Proof.
  induction 1 as [|x xs Hx _ IHxs]; intros fss; simpl.
  { by intros [= <-]. }
  destruct (Untyped.flattenTreeWithPath x p) as [fs|] eqn:Hfs; simpl; [|done].
  destruct (mapM _ xs) as [fss'|]; simpl; [|done].
  intros [= <-]. rewrite (Hx _ _ Hfs). simpl. by rewrite (IHxs _ eq_refl).
Qed.

Lemma Untyped_Legacy (data : any) :
  ∀ p files, Untyped.flattenTreeWithPath data p = Some files →
             Legacy.flattenTree data = Some (withoutPath <$> files).
Proof.
  induction data as [| | | |items IH|members IH]; intros p files;
    try (by intros [= <-]).
  - rewrite Untyped_flatten_Slice, Legacy_flatten_Slice.
    apply list_all_Forall in IH.
    destruct (mapM _ items) as [fss|] eqn:Hfss; simpl; [|done].
    intros [= <-]. rewrite (mapM_withoutPath _ _ IH _ Hfss). simpl.
    f_equal. clear Hfss. induction fss as [|fs fss IHfss]; [done|].
    csimpl. by rewrite fmap_app, IHfss.
  - rewrite Untyped_flatten_Map, Legacy_flatten_Map.
    apply members_all_Forall in IH.
    destruct (mapIndex "e" members) as [e|] eqn:He.
    + apply mapIndex_elem_of in He.
      rewrite Forall_forall in IH. specialize (IH _ He). simpl in IH.
      destruct (match mapIndex "n" members with Some n => _ | None => _ end)
        as [dirName|]; simpl; [|done].
      apply IH.
    + destruct (mapIndex "l" members) as [l|]; [|by intros [= <-]].
      destruct (mapIndex "n" members) as [n|]; [|by intros [= <-]].
      destruct (mapIndex "s" members) as [s|]; [|by intros [= <-]].
      destruct (assertString n) as [fileName|]; simpl; [|done].
      destruct (assertString l) as [link|]; simpl; [|done].
      destruct (assertFloat64 s) as [size|]; simpl; [|done].
      by intros [= <-].
Qed.

(** X3. Tracking paths did not change what is found: wherever the
    path-tracking walker returns, under any current path, the first
    revision returns the same records in the same order, their paths left
    out (alldebrid/types.go, lines 62-89; client.go, lines 646-696). *)
Theorem path_tracking_keeps_the_records
    (data : any) (p : string) (files : list FileEntry.t) :
  Untyped.flattenTreeWithPath data p = Some files →
  Legacy.flattenTree data = Some (withoutPath <$> files).
Proof. apply Untyped_Legacy. Qed.

Lemma path_tracking_keeps_the_records_witness :
  Legacy.flattenTree
    (Slice [Map [("n", Str "movies");
                 ("e", Slice [Map [("n", Str "a.mkv"); ("s", Float64 9);
                                   ("l", Str "https://l/a")]])]])
  = Some (withoutPath <$> [FileEntry.mk "https://l/a" "top/movies/a.mkv" "a.mkv" 9]).
Proof. by apply (path_tracking_keeps_the_records _ "top"). Defined.

(** ** Lists of nodes *)

Lemma mapM_app_option {A B : Type} (f : A → option B) (xs ys : list A) :
  mapM f (xs ++ ys) = xs' ← mapM f xs; ys' ← mapM f ys; Some (xs' ++ ys').
Proof.
  induction xs as [|x xs IH]; simpl.
  - by destruct (mapM f ys).
  - destruct (f x) as [y|]; simpl; [|done]. rewrite IH.
    destruct (mapM f xs) as [xs'|]; simpl; [|done].
    by destruct (mapM f ys).
Qed.

Lemma mapM_two {A B : Type} (f : A → option B) (a b : A) :
  mapM f [a; b] = x ← f a; y ← f b; Some [x; y].
Proof. simpl. destruct (f a); simpl; [|done]. by destruct (f b). Qed.

(** X4. Flattening a list of nodes is flattening its parts and joining the
    results, in order: for the typed walker, for the untyped walker (where a
    panic in either part is a panic of the whole), and so a list nested in a
    list is walked as if its items stood in the outer list (client.go, lines
    649-653; output.go, lines 182-188). *)
Theorem flattening_distributes_over_lists
    (nodes1 nodes2 : list TorrentNode.t) (items1 items2 : list any) (p : string) :
  Typed.flattenTree (nodes1 ++ nodes2)
  = Typed.flattenTree nodes1 ++ Typed.flattenTree nodes2
  ∧ Untyped.flattenTreeWithPath (Slice (items1 ++ items2)) p
    = (files1 ← Untyped.flattenTreeWithPath (Slice items1) p;
       files2 ← Untyped.flattenTreeWithPath (Slice items2) p;
       Some (files1 ++ files2))
  ∧ Untyped.flattenTreeWithPath (Slice [Slice items1; Slice items2]) p
    = Untyped.flattenTreeWithPath (Slice (items1 ++ items2)) p.
Proof.
  assert (Happ : Untyped.flattenTreeWithPath (Slice (items1 ++ items2)) p
    = (files1 ← Untyped.flattenTreeWithPath (Slice items1) p;
       files2 ← Untyped.flattenTreeWithPath (Slice items2) p;
       Some (files1 ++ files2))).
  { rewrite !Untyped_flatten_Slice, mapM_app_option.
    destruct (mapM _ items1) as [fss1|]; simpl; [|done].
    destruct (mapM _ items2) as [fss2|]; simpl; [|done].
    by rewrite concat_app. }
  split; [|split; [done|]].
  - unfold Typed.flattenTree. rewrite !appendEach_concat. simpl.
    by rewrite fmap_app, concat_app.
  - rewrite Happ, (Untyped_flatten_Slice [_; _]), mapM_two. cbn beta.
    destruct (Untyped.flattenTreeWithPath (Slice items1) p) as [fs1|]; [|done].
    destruct (Untyped.flattenTreeWithPath (Slice items2) p) as [fs2|]; [|done].
    cbn. by rewrite app_nil_r.
Qed.

(** ** The printers *)

Lemma PrintLinks_from (links : list Link.t) (stdout : string) :
  (fix range (stdout : string) (links : list Link.t) : string :=
     match links with
     | [] => stdout
     | link :: rest =>
         range (if decide (Link.DownloadURL link ≠ "")
                then stdout +:+ Link.DownloadURL link +:+ newline
                else stdout) rest
     end) stdout links
  = stdout +:+ lines (Link.DownloadURL <$> resolvedLinks links).
Proof.
  revert stdout. induction links as [|link links IH]; intros stdout.
  { by rewrite append_nil_r. }
  rewrite IH. unfold resolvedLinks. rewrite filter_cons.
  destruct (decide (Link.DownloadURL link ≠ "")); [|done].
  csimpl. by rewrite !append_assoc.
Qed.

Lemma PrintLinks_lines (links : list Link.t) :
  PrintLinks links = lines (Link.DownloadURL <$> resolvedLinks links).
Proof. unfold PrintLinks. by rewrite PrintLinks_from. Qed.

Lemma lines_app (xs ys : list string) : lines (xs ++ ys) = lines xs +:+ lines ys.
Proof.
  induction xs as [|x xs IH]; [done|]. simpl. by rewrite IH, !append_assoc.
Qed.

Lemma resolvedLinks_idemp (links : list Link.t) :
  resolvedLinks (resolvedLinks links) = resolvedLinks links.
Proof.
  unfold resolvedLinks. induction links as [|link links IH]; [done|].
  rewrite filter_cons. destruct (decide (Link.DownloadURL link ≠ "")); [|done].
  rewrite filter_cons, decide_True by done. by rewrite IH.
Qed.

(** X5. [PrintLinks] writes the download URLs that are not empty, in the
    order of the links, each followed by a newline, and nothing else; so the
    output for a list is the output for its parts, one after the other, and
    it is empty exactly when no link has a download URL (output.go, lines
    13-19). *)
Theorem PrintLinks_writes_the_download_URLs (links : list Link.t) :
  PrintLinks links = lines (Link.DownloadURL <$> resolvedLinks links)
  ∧ (∀ links1 links2,
       PrintLinks (links1 ++ links2) = PrintLinks links1 +:+ PrintLinks links2)
  ∧ (PrintLinks links = "" ↔ Forall (λ link, Link.DownloadURL link = "") links).
Proof.
  split; [apply PrintLinks_lines|]. split.
  - intros links1 links2. rewrite !PrintLinks_lines. unfold resolvedLinks.
    by rewrite filter_app, fmap_app, lines_app.
  - rewrite PrintLinks_lines. unfold resolvedLinks.
    induction links as [|link links IH].
    { split; [constructor|done]. }
    rewrite filter_cons. destruct (decide (Link.DownloadURL link ≠ "")) as [Hurl|Hurl].
    + csimpl. split.
      * intros Hnil%append_eq_nil. done.
      * intros Hall. by apply Forall_cons_1 in Hall as [? _].
    + rewrite IH. split.
      * intros Hall. constructor; [|done].
        by destruct (decide (Link.DownloadURL link = "")).
      * intros Hall. by apply Forall_cons_1 in Hall as [_ ?].
Qed.

Lemma appendEach_resolved {B : Type} (f : Link.t → list B) (links : list Link.t) :
  (∀ link, Link.DownloadURL link = "" → f link = []) →
  appendEach f [] (resolvedLinks links) = appendEach f [] links.
Proof.
  intros Hf. rewrite !appendEach_concat. simpl. unfold resolvedLinks.
  induction links as [|link links IH]; [done|].
  rewrite filter_cons. destruct (decide (Link.DownloadURL link ≠ "")) as [Hurl|Hurl].
  - csimpl. by rewrite IH.
  - csimpl. rewrite IH, Hf; [done|].
    by destruct (decide (Link.DownloadURL link = "")).
Qed.

(** X6. No printer shows a link that has no download URL: the plain, the
    HTML and the JSON printer each write for a list what they write for its
    links with a download URL (output.go, lines 13-19, 22-74 and 77-106). *)
Theorem printers_leave_out_unresolved_links `{Text, Marshal} (links : list Link.t) :
  PrintLinks (resolvedLinks links) = PrintLinks links
  ∧ PrintLinksAsHTML (resolvedLinks links) = PrintLinksAsHTML links
  ∧ PrintLinksAsJSON (resolvedLinks links) = PrintLinksAsJSON links.
Proof.
  split; [|split].
  - by rewrite !PrintLinks_lines, resolvedLinks_idemp.
  - unfold PrintLinksAsHTML. cbv zeta. rewrite appendEach_resolved; [done|].
    intros link Hurl. by rewrite decide_True.
  - unfold PrintLinksAsJSON. rewrite appendEach_resolved; [done|].
    intros link Hurl. by rewrite decide_False by (by intros ?).
Qed.

(** ** The command line *)

Section CommandLine.
Context `{Text}.

(** The inputs [parseArgs] takes for a magnet, a link or a torrent file. *)
Lemma parseArgs_modes (flags : Flags.t) (input : string) :
  let args := parseArgs flags input in
  (cliArgs.Link args, cliArgs.Magnet args, cliArgs.TorrentFilePath args)
  = if strings.HasPrefix input "magnet:" then (None, Some input, None)
    else if strings.HasPrefix input "http:" || strings.HasPrefix input "https:"
         then (Some input, None, None)
    else if strings.HasSuffix (strings.ToLower input) ".torrent"
         then (None, None, Some input)
    else (None, None, None).
Proof.
  unfold parseArgs.
  destruct (strings.HasPrefix input "magnet:"); [done|].
  destruct (strings.HasPrefix input "http:" || strings.HasPrefix input "https:"); [done|].
  by destruct (strings.HasSuffix _ _).
Qed.

Lemma parseArgs_flags (flags : Flags.t) (input : string) :
  let args := parseArgs flags input in
  cliArgs.Token args = Flags.Token flags
  ∧ cliArgs.PrintAsHTML args = Flags.PrintAsHTML flags
  ∧ cliArgs.PrintAsJSON args = Flags.PrintAsJSON flags
  ∧ cliArgs.Debug args = Flags.Debug flags
  ∧ cliArgs.Version args = Flags.Version flags
  ∧ cliArgs.Timeout args = Flags.Timeout flags
  ∧ cliArgs.IgnoreFilesSmallerThanMB args = Flags.IgnoreFilesSmallerThanMB flags.
Proof.
  unfold parseArgs.
  destruct (strings.HasPrefix input "magnet:"); [done|].
  destruct (strings.HasPrefix input "http:" || strings.HasPrefix input "https:"); [done|].
  by destruct (strings.HasSuffix _ _).
Qed.

(** X7. [parseArgs] sets at most one of the link, the magnet and the torrent
    file path, to the argument itself, and passes the flags on. [Validate]
    accepts what it returns exactly when the version is asked for, or when
    the argument begins with "magnet:", "http:" or "https:" or ends in
    ".torrent" in any case, the token is not empty, and HTML and JSON are
    not both asked for (unnamed/part_000, lines 35-78). *)
Theorem parseArgs_selects_one_mode (flags : Flags.t) (input : string) :
  let args := parseArgs flags input in
  let recognised :=
    strings.HasPrefix input "magnet:" || strings.HasPrefix input "http:"
    || strings.HasPrefix input "https:"
    || strings.HasSuffix (strings.ToLower input) ".torrent" in
  (cliArgs.Link args, cliArgs.Magnet args, cliArgs.TorrentFilePath args)
    ∈ [(None, None, None); (Some input, None, None);
       (None, Some input, None); (None, None, Some input)]
  ∧ (recognised = false ↔
     (cliArgs.Link args, cliArgs.Magnet args, cliArgs.TorrentFilePath args)
     = (None, None, None))
  ∧ cliArgs.Token args = Flags.Token flags
  ∧ cliArgs.Timeout args = Flags.Timeout flags
  ∧ cliArgs.IgnoreFilesSmallerThanMB args = Flags.IgnoreFilesSmallerThanMB flags
  ∧ (cliArgs.Validate args = None ↔
     Flags.Version flags = true
     ∨ (recognised = true ∧ Flags.Token flags ≠ ""
        ∧ ¬ (Flags.PrintAsHTML flags = true ∧ Flags.PrintAsJSON flags = true))).
Proof.
  intros args recognised.
  pose proof (parseArgs_modes flags input) as Hmodes.
  pose proof (parseArgs_flags flags input)
    as (Htoken & Hhtml & Hjson & _ & Hversion & Htimeout & Hsize).
  fold args in Hmodes, Htoken, Hhtml, Hjson, Hversion, Htimeout, Hsize.
  cbv zeta in Hmodes.
  assert (Hrec : recognised = false ↔
    (cliArgs.Link args, cliArgs.Magnet args, cliArgs.TorrentFilePath args)
    = (None, None, None)).
  { rewrite Hmodes. subst recognised.
    destruct (strings.HasPrefix input "magnet:"); [done|].
    destruct (strings.HasPrefix input "http:"); [done|].
    destruct (strings.HasPrefix input "https:"); [done|].
    by destruct (strings.HasSuffix _ _). }
  split.
  { rewrite Hmodes, !elem_of_cons.
    clear Hrec. clearbody recognised.
    destruct (strings.HasPrefix input "magnet:");
      [|destruct (strings.HasPrefix input "http:" || strings.HasPrefix input "https:");
        [|destruct (strings.HasSuffix _ _)]];
      repeat first [left; reflexivity | right]. }
  split; [done|]. split; [done|]. split; [done|]. split; [done|].
  unfold cliArgs.Validate. rewrite Hversion, Htoken, Hhtml, Hjson.
  destruct (Flags.Version flags); [by split; [left|]|].
  case_bool_decide as Hnone.
  { split; [done|]. intros [?|(Hr & _ & _)]; [done|].
    destruct Hnone as (H1 & H2 & H3).
    assert (recognised = false) by (apply Hrec; by rewrite H1, H2, H3).
    congruence. }
  assert (Hr : recognised = true).
  { destruct recognised; [done|]. exfalso. apply Hnone.
    destruct Hrec as [Hrec _]. specialize (Hrec eq_refl). by injection Hrec. }
  case_bool_decide as Htok.
  { split; [done|]. intros [?|(_ & ? & _)]; done. }
  destruct (Flags.PrintAsHTML flags), (Flags.PrintAsJSON flags); simpl.
  - split; [done|]. intros [?|(_ & _ & Hboth)]; [done|]. by destruct Hboth.
  - split; [|done]. intros _. right. split_and!; [done|done|]. by intros [? ?].
  - split; [|done]. intros _. right. split_and!; [done|done|]. by intros [? ?].
  - split; [|done]. intros _. right. split_and!; [done|done|]. by intros [? ?].
Qed.

End CommandLine.

(** ** Uploading a torrent file *)

Section UploadFacts.
Context `{Host}.

(** What a request adds to the trace. *)
Lemma send_requests (ctx : Context.t) (req : Request.t) (w : World) :
  ∃ evs, trace (send ctx req w).2 = trace w ++ evs
         ∧ (evs = [] ∨ evs = [Sent (now w) req]).
Proof.
  unfold send. destruct (Context.isDone ctx (now w)).
  { exists []. simpl. rewrite app_nil_r. auto. }
  destruct (roundTrip req (now w) (net w)) as [[r d] net'].
  exists [Sent (now w) req].
  destruct (Context.doneAt ctx) as [ends|]; [case_bool_decide|]; simpl; auto.
Qed.

(** [UploadTorrent] fails on every path through it, and sends at most the
    upload. *)
Lemma UploadTorrent_fails (ctx : Context.t) (torrentPath : string) (w : World) :
  let r := UploadTorrent ctx torrentPath w in
  (∃ err, r.1 = (0, Some err))
  ∧ ∃ evs, trace r.2 = trace w ++ evs
           ∧ (requests evs = []
              ∨ requests evs
                = [Request.mk "POST" "/magnet/upload/file"
                     [("files[]", filepath_Base torrentPath)]]).
Proof.
  unfold UploadTorrent, mbind, M_bind, emit, mret, M_ret. cbn beta iota zeta.
  destruct (os_Open torrentPath) as [err|].
  { simpl. split; [eauto|]. eexists [_; _]. rewrite <- app_assoc. split; [done|].
    by left. }
  set (w1 := mkWorld _ _ _ _ _).
  destruct (send_requests ctx
              (Request.mk "POST" "/magnet/upload/file"
                 [("files[]", filepath_Base torrentPath)]) w1)
    as (evs & Htrace & Hevs).
  destruct (send ctx _ w1) as [[res|e] w2]; simpl in Htrace.
  - destruct (UnmarshalJson_Response res) as [e|];
      destruct (file_Close torrentPath) as [closeErr|]; simpl;
      (split; [eauto|]); rewrite Htrace; subst w1; simpl;
      rewrite <- ?app_assoc; eexists; (split; [reflexivity|]);
      destruct Hevs as [-> | ->]; simpl; auto.
  - destruct (file_Close torrentPath) as [closeErr|]; simpl;
      (split; [eauto|]); rewrite Htrace; subst w1; simpl;
      rewrite <- ?app_assoc; eexists; (split; [reflexivity|]);
      destruct Hevs as [-> | ->]; simpl; auto.
Qed.

(** X8. [UploadTorrent] never returns an identifier: whatever the file, the
    service and its reply, it returns 0 and an error. The reply is decoded
    into the response, not into the envelope whose list of files is then
    read, so that list is always empty (client.go, lines 367-423). *)
Theorem UploadTorrent_never_returns_an_identifier
    (ctx : Context.t) (torrentPath : string) (w : World) :
  ∃ err, (UploadTorrent ctx torrentPath w).1 = (0, Some err).
Proof. apply UploadTorrent_fails. Qed.

End UploadFacts.

(** ** [run] *)

Section RunFacts.
Context `{Host, !Text, !Marshal}.

Lemma run_torrent (fuel : nat) (ctx : Context.t) (args : cliArgs.t)
    (torrentFilePath : string) (w : World) :
  cliArgs.Magnet args = None → cliArgs.Link args = None →
  cliArgs.TorrentFilePath args = Some torrentFilePath →
  ∃ err,
    (UploadTorrent ctx torrentFilePath w).1 = (0, Some err)
    ∧ run fuel ctx args w
      = (Some ("", Some (Errorf "failed to upload torrent" (Some err))),
         (UploadTorrent ctx torrentFilePath w).2).
Proof.
  intros Hmagnet Hlink Hpath. unfold run. rewrite Hmagnet, Hlink, Hpath.
  unfold mbind, M_bind.
  destruct (UploadTorrent_fails ctx torrentFilePath w) as [[err Herr] _].
  destruct (UploadTorrent ctx torrentFilePath w) as [[torrentID e] w1].
  simpl in Herr. injection Herr as -> ->. by exists err.
Qed.

(** X9. A torrent file is never resolved: when the argument is taken for a
    torrent file, [run] returns the error "failed to upload torrent" and
    writes nothing, having sent the upload at most: it never asks for the
    files of the job nor unlocks a link (unnamed/part_000, lines 56-78 and
    91-140; client.go, lines 367-423). *)
Theorem run_never_resolves_a_torrent_file
    (fuel : nat) (ctx : Context.t) (flags : Flags.t) (input : string) (w : World) :
  cliArgs.TorrentFilePath (parseArgs flags input) = Some input →
  let r := run fuel ctx (parseArgs flags input) w in
  (∃ err, r.1 = Some ("", Some (Errorf "failed to upload torrent" (Some err))))
  ∧ (requests (since w r.2) = []
     ∨ requests (since w r.2)
       = [Request.mk "POST" "/magnet/upload/file" [("files[]", filepath_Base input)]]).
Proof.
  intros Hpath r.
  pose proof (parseArgs_modes flags input) as Hmodes. cbv zeta in Hmodes.
  rewrite Hpath in Hmodes.
  assert (cliArgs.Magnet (parseArgs flags input) = None
          ∧ cliArgs.Link (parseArgs flags input) = None) as [Hmagnet Hlink].
  { destruct (strings.HasPrefix input "magnet:"); [done|].
    destruct (strings.HasPrefix input "http:" || strings.HasPrefix input "https:");
      [done|].
    destruct (strings.HasSuffix _ _); by injection Hmodes. }
  destruct (run_torrent fuel ctx _ _ w Hmagnet Hlink Hpath) as (err & _ & Hrun).
  subst r. rewrite Hrun. simpl. split; [eauto|].
  destruct (UploadTorrent_fails ctx input w) as (_ & evs & Htrace & Hreq).
  by rewrite (since_app _ _ _ Htrace).
Qed.

(** The errors of [run]. *)
Lemma run_error
    (fuel : nat) (ctx : Context.t) (args : cliArgs.t) (w : World)
    (stdout : string) (err : error) :
  (run fuel ctx args w).1 = Some (stdout, Some err) →
  stdout = ""
  ∧ ∃ cause,
      err ∈ [Errorf "failed to upload magnet" (Some cause);
             Errorf "failed to get download links" (Some cause);
             Errorf "failed to unrestrict URL" (Some cause);
             Errorf "failed to upload torrent" (Some cause)].
Proof.
  unfold run, mbind, M_bind, mret, M_ret, loadEach.
  destruct (cliArgs.Magnet args) as [magnet|].
  { destruct (UploadMagnet ctx magnet w) as [[magnetID [e|]] w1]; simpl.
    { intros [= <- <-]. split; [done|]. exists e. rewrite !elem_of_cons. auto. }
    destruct (WaitForDownloadLinks _ _ _ _ w1) as [[[links [e|]]|] w2]; simpl;
      [|done|done].
    intros [= <- <-]. split; [done|]. exists e. rewrite !elem_of_cons. auto. }
  destruct (cliArgs.Link args) as [link|].
  { destruct (UnrestrictURL ctx link w) as [[l|e] w1]; simpl; [done|].
    intros [= <- <-]. split; [done|]. exists e. rewrite !elem_of_cons. auto. }
  destruct (cliArgs.TorrentFilePath args) as [path|]; simpl; [|done].
  destruct (UploadTorrent ctx path w) as [[torrentID [e|]] w1]; simpl.
  { intros [= <- <-]. split; [done|]. exists e. rewrite !elem_of_cons. auto 6. }
  destruct (WaitForDownloadLinks _ _ _ _ w1) as [[[links [e|]]|] w2]; simpl;
    [|done|done].
  intros [= <- <-]. split; [done|]. exists e. rewrite !elem_of_cons. auto.
Qed.

(** X10. [run] writes nothing when it returns an error: the printer is only
    reached once the links are there (unnamed/part_000, lines 91-140). *)
Theorem run_writes_nothing_when_it_fails
    (fuel : nat) (ctx : Context.t) (args : cliArgs.t) (w : World)
    (stdout : string) (err : error) :
  (run fuel ctx args w).1 = Some (stdout, Some err) →
  stdout = ""
  ∧ ∃ cause,
      err ∈ [Errorf "failed to upload magnet" (Some cause);
             Errorf "failed to get download links" (Some cause);
             Errorf "failed to unrestrict URL" (Some cause);
             Errorf "failed to upload torrent" (Some cause)].
Proof. apply run_error. Qed.

Lemma PrintLinks_one (link : Link.t) :
  PrintLinks [link]
  = if bool_decide (Link.DownloadURL link ≠ "")
    then Link.DownloadURL link +:+ newline else "".
Proof.
  unfold PrintLinks. cbn beta iota.
  destruct (decide (Link.DownloadURL link ≠ "")) as [Hurl|Hurl].
  - by rewrite bool_decide_true.
  - by rewrite bool_decide_false.
Qed.

(** X11. The size filter also applies to a single link: when the argument
    is a link and it unlocks, [run] returns no error, and with the plain
    printer it writes the download URL and a newline if the URL is not empty
    and the size in MB is at least the threshold (or the threshold is not
    positive), and nothing otherwise (unnamed/part_000, lines 106-139;
    output.go, lines 13-19). *)
Theorem run_filters_a_single_link
    (fuel : nat) (ctx : Context.t) (args : cliArgs.t) (url : string)
    (w w' : World) (link : Link.t) :
  cliArgs.Magnet args = None → cliArgs.Link args = Some url →
  cliArgs.PrintAsHTML args = false → cliArgs.PrintAsJSON args = false →
  UnrestrictURL ctx url w = (Ok link, w') →
  let minMB := cliArgs.IgnoreFilesSmallerThanMB args in
  let kept := (if (0 <? minMB)%float then (minMB <=? Link.SizeMB link)%float else true)
              && bool_decide (Link.DownloadURL link ≠ "") in
  run fuel ctx args w
  = (Some (if kept then Link.DownloadURL link +:+ newline else "", None), w').
Proof.
  intros Hmagnet Hlink Hhtml Hjson Hunlock minMB kept.
  unfold run. rewrite Hmagnet, Hlink. unfold mbind, M_bind. rewrite Hunlock.
  unfold mret, M_ret. rewrite Hhtml, Hjson. fold minMB.
  do 3 f_equal. subst kept. unfold run_filter.
  destruct (0 <? minMB)%float.
  - rewrite lo_Filter_filter, filter_cons, filter_nil.
    destruct (minMB <=? Link.SizeMB link)%float; simpl; [|done].
    apply PrintLinks_one.
  - apply PrintLinks_one.
Qed.

End RunFacts.

Lemma run_never_resolves_a_torrent_file_witness :
  let r := @run Script.remote Sample.host Sample.text Sample.marshal 5 Context.Background
             (@parseArgs Sample.text Sample.defaults "ubuntu.torrent")
             (Script.start
                [(Ok (Script.Uploads (UploadResponse.mk [FileUpload.mk 42] [])), 5%N)]) in
  (∃ err, r.1 = Some ("", Some (Errorf "failed to upload torrent" (Some err))))
  ∧ (requests (since (Script.start
                        [(Ok (Script.Uploads (UploadResponse.mk [FileUpload.mk 42] [])),
                          5%N)]) r.2) = []
     ∨ requests (since (Script.start
                          [(Ok (Script.Uploads (UploadResponse.mk [FileUpload.mk 42] [])),
                            5%N)]) r.2)
       = [Request.mk "POST" "/magnet/upload/file" [("files[]", "ubuntu.torrent")]]).
Proof.
  by apply (@run_never_resolves_a_torrent_file Script.remote Sample.host Sample.text
              Sample.marshal).
Defined.

Lemma run_writes_nothing_when_it_fails_witness :
  (@run Script.remote Sample.host Sample.text Sample.marshal 5 Context.Background
     (@parseArgs Sample.text Sample.defaults "magnet:?xt=urn:btih:c0ffee") (Script.start [])).1
  = Some ("", Some (Errorf "failed to upload magnet"
                      (Some (Errorf "upload failed"
                               (Some (Foreign "connection refused"))))))
  ∧ ("" = ""
     ∧ ∃ cause,
         Errorf "failed to upload magnet"
           (Some (Errorf "upload failed" (Some (Foreign "connection refused"))))
         ∈ [Errorf "failed to upload magnet" (Some cause);
            Errorf "failed to get download links" (Some cause);
            Errorf "failed to unrestrict URL" (Some cause);
            Errorf "failed to upload torrent" (Some cause)]).
Proof.
  split; [reflexivity|].
  by apply (@run_writes_nothing_when_it_fails Script.remote Sample.host Sample.text
              Sample.marshal 5 Context.Background
              (@parseArgs Sample.text Sample.defaults "magnet:?xt=urn:btih:c0ffee") (Script.start [])).
Defined.

Lemma run_filters_a_single_link_witness :
  ∃ w',
    @run Script.remote Sample.host Sample.text Sample.marshal 0 Context.Background
      (@parseArgs Sample.text Sample.defaults "https://host/a.nfo")
      (Script.start
         [(Ok (Script.Unlocks (UnrestrictResponse.mk "a.nfo" 1048576 "https://d/a")),
           5%N)])
    = (Some ("", None), w').
Proof.
  eexists.
  eapply (@run_filters_a_single_link Script.remote Sample.host Sample.text Sample.marshal
            0 Context.Background (@parseArgs Sample.text Sample.defaults "https://host/a.nfo")
            "https://host/a.nfo" _ _
            (Link.mk "a.nfo" "https://host/a.nfo" 1048576 "https://d/a"));
    reflexivity.
Defined.

(** ** What a reply's envelope is read for *)

Section Envelope.
Context `{Remote}.

(** X12. [UnrestrictURL] reads the data of the envelope and nothing else:
    when the exchange ends with a response that decodes, it returns a link
    made of the data and no error, whatever the status and the error of the
    envelope say; a refusal the service reports in the envelope comes back
    as a link without download URL (client.go, lines 340-364). *)
Theorem UnrestrictURL_ignores_the_envelope_status
    (ctx : Context.t) (url : string) (w w1 : World) (res : Response)
    (status : string) (data : UnrestrictResponse.t) (apiError : option (string * string)) :
  send ctx (Request.mk "GET" "/link/unlock" [("link", url)])
    (logAt LDebug "Starting link unrestriction" w) = (Ok res, w1) →
  UnmarshalJson_Unrestrict res = Ok (APIResponse.mk status data apiError) →
  UnrestrictURL ctx url w
  = (Ok (Link.mk (UnrestrictResponse.Filename data) url
           (UnrestrictResponse.Filesize data) (UnrestrictResponse.Link data)), w1).
Proof.
  intros Hsend Hjson. unfold UnrestrictURL, mbind, M_bind. cbn beta iota.
  unfold logAt in Hsend. destruct (emit _ w) as [[] w0]. simpl in Hsend.
  by rewrite Hsend, Hjson.
Qed.

(** What [UnrestrictURL] does to the world. *)
Lemma UnrestrictURL_request (ctx : Context.t) (url : string) (w : World) :
  let r := UnrestrictURL ctx url w in
  heap r.2 = heap w ∧ next r.2 = next w
  ∧ since w r.2
    = Logged LDebug "Starting link unrestriction"
      :: (if Context.isDone ctx (now w) then []
          else [Sent (now w) (Request.mk "GET" "/link/unlock" [("link", url)])])
  ∧ (Context.isDone ctx (now w) = true → ∃ err, r.1 = Err err)
  ∧ ∀ link, r.1 = Ok link → Link.URL link = url.
Proof.
  unfold UnrestrictURL, mbind, M_bind, emit. cbn beta iota zeta.
  set (w0 := mkWorld _ _ _ _ _).
  pose proof (send_trace ctx (Request.mk "GET" "/link/unlock" [("link", url)]) w0)
    as Htrace.
  pose proof (send_done ctx (Request.mk "GET" "/link/unlock" [("link", url)]) w0)
    as Hdone.
  destruct (send ctx _ w0) as [r w1] eqn:Hsend.
  apply send_spec in Hsend as (Hheap & Hnext & _ & _).
  subst w0. simpl in *.
  assert (Hsince : since w w1
    = Logged LDebug "Starting link unrestriction"
      :: (if Context.isDone ctx (now w) then []
          else [Sent (now w) (Request.mk "GET" "/link/unlock" [("link", url)])])).
  { unfold since. by rewrite Htrace, <- app_assoc, drop_app_length. }
  destruct r as [res|e].
  - destruct (UnmarshalJson_Unrestrict res) as [result|e]; simpl.
    + split_and!; try done.
      * intros Hd. by specialize (Hdone Hd).
      * by intros link [= <-].
    + split_and!; eauto. intros link [=].
  - simpl. split_and!; eauto. intros link [=].
Qed.

(** X13. [UnrestrictURL] touches no link and allocates none; it logs its
    start and sends one request, [GET /link/unlock] with the URL as its
    parameter, unless the context is done by then, in which case it sends
    nothing; the link it returns has the URL it was called with (client.go,
    lines 340-364). *)
Theorem UnrestrictURL_sends_one_request (ctx : Context.t) (url : string) (w : World) :
  let r := UnrestrictURL ctx url w in
  heap r.2 = heap w ∧ next r.2 = next w
  ∧ since w r.2
    = Logged LDebug "Starting link unrestriction"
      :: (if Context.isDone ctx (now w) then []
          else [Sent (now w) (Request.mk "GET" "/link/unlock" [("link", url)])])
  ∧ (Context.isDone ctx (now w) = true → ∃ err, r.1 = Err err)
  ∧ ∀ link, r.1 = Ok link → Link.URL link = url.
Proof. apply UnrestrictURL_request. Qed.

End Envelope.

Lemma UnrestrictURL_ignores_the_envelope_status_witness :
  ∃ w1,
    @UnrestrictURL Refusing.remote Context.Background "https://host/a.mkv" Refusing.start
    = (Ok (Link.mk "" "https://host/a.mkv" 0 ""), w1).
Proof.
  eexists.
  eapply (@UnrestrictURL_ignores_the_envelope_status Refusing.remote Context.Background
            "https://host/a.mkv" Refusing.start _ tt "error"
            (UnrestrictResponse.mk "" 0 "") Refusing.refusal);
    reflexivity.
Defined.

(** ** Requests and the clock *)

Section Timing.
Context `{Remote}.

Lemma polls_app (evs1 evs2 : list Event) : polls (evs1 ++ evs2) = polls evs1 ++ polls evs2.
Proof. unfold polls. by rewrite sent_app, filter_app, fmap_app. Qed.

Lemma isDone_false (ctx : Context.t) (t d : Z) :
  Context.isDone ctx t = false → Context.doneAt ctx = Some d → t < d.
Proof.
  unfold Context.isDone. intros Hdone Hd. rewrite Hd in Hdone.
  apply bool_decide_eq_false in Hdone. lia.
Qed.

(** A request: the clock does not pass the end of the context, and the
    request leaves only if the context is not done. *)
Lemma send_sent (ctx : Context.t) (req : Request.t) (w : World) :
  ∀ r w', send ctx req w = (r, w') →
    now w ≤ now w'
    ∧ (∀ d, Context.doneAt ctx = Some d → now w' ≤ now w `max` d)
    ∧ ∃ evs, trace w' = trace w ++ evs ∧ atMostOne ctx (now w) req evs.
Proof.
  intros r w' Hsend. pose proof (send_trace ctx req w) as Htrace.
  rewrite Hsend in Htrace. simpl in Htrace.
  pose proof (send_spec _ _ _ _ _ Hsend) as (_ & _ & Hnow & _).
  split; [done|]. split.
  - intros d Hd. revert Hsend. unfold send.
    destruct (Context.isDone ctx (now w)) eqn:Hdone.
    { intros [= <- <-]. lia. }
    destruct (roundTrip req (now w) (net w)) as [[r0 d0] net'].
    rewrite Hd. case_bool_decide; intros [= <- <-]; simpl; lia.
  - eexists. split; [exact Htrace|].
    destruct (Context.isDone ctx (now w)) eqn:Hdone; [by left|by right].
Qed.

Lemma atMostOne_log (ctx : Context.t) (t : Z) (req : Request.t) (evs : list Event)
    (before after : list Event) :
  sent before = [] → sent after = [] →
  atMostOne ctx t req evs → atMostOne ctx t req (before ++ evs ++ after).
Proof.
  intros Hb Ha. unfold atMostOne. rewrite !sent_app, Hb, Ha, app_nil_r. done.
Qed.

Lemma UnrestrictURL_sent (ctx : Context.t) (url : string) (w : World) :
  ∀ r w', UnrestrictURL ctx url w = (r, w') →
    now w ≤ now w'
    ∧ (∀ d, Context.doneAt ctx = Some d → now w' ≤ now w `max` d)
    ∧ ∃ evs, trace w' = trace w ++ evs
             ∧ atMostOne ctx (now w)
                 (Request.mk "GET" "/link/unlock" [("link", url)]) evs.
Proof.
  intros r w'. unfold UnrestrictURL, mbind, M_bind, emit. cbn beta iota zeta.
  set (w0 := mkWorld _ _ _ _ _).
  destruct (send ctx _ w0) as [r0 w1] eqn:Hsend.
  apply send_sent in Hsend as (Hnow & Hend & evs & Htrace & Hone).
  subst w0. simpl in *. intros Hret.
  assert (w' = w1) as ->.
  { destruct r0 as [res|e]; [destruct (UnmarshalJson_Unrestrict res)|];
      by injection Hret. }
  split; [done|]. split; [done|].
  exists ([Logged LDebug "Starting link unrestriction"] ++ evs ++ []).
  split; [by rewrite Htrace, app_nil_r, <- app_assoc|]. by apply atMostOne_log.
Qed.

Lemma unrestrictLink_sent (ctx : Context.t) (link : Ptr) (w : World) :
  ∀ p w', unrestrictLink ctx link w = (p, w') →
    now w ≤ now w'
    ∧ (∀ d, Context.doneAt ctx = Some d → now w' ≤ now w `max` d)
    ∧ ∃ evs, trace w' = trace w ++ evs
             ∧ atMostOne ctx (now w)
                 (Request.mk "GET" "/link/unlock" [("link", Link.URL (heap w link))]) evs.
Proof.
  intros p w'. unfold unrestrictLink, mbind, M_bind, load. cbn beta iota.
  destruct (UnrestrictURL ctx _ w) as [r0 w1] eqn:Hu. simpl.
  apply UnrestrictURL_sent in Hu as (Hnow & Hend & evs & Htrace & Hone).
  destruct r0 as [u|e]; unfold emit, storeDownloadURL, mret, M_ret; cbn beta iota;
    intros [= <- <-]; simpl; (split; [done|]); (split; [done|]).
  - exists ([] ++ evs ++ [Unlocked link (Some (Link.DownloadURL u))]).
    split; [by rewrite Htrace, <- app_assoc|]. by apply atMostOne_log.
  - exists ([] ++ evs ++ [Logged LError "Failed to unrestrict link"; Unlocked link None]).
    split; [by rewrite Htrace, <- !app_assoc|]. by apply atMostOne_log.
Qed.

Lemma atMostOne_leftUnder (ctx : Context.t) (t : Z) (req : Request.t)
    (evs : list Event) (paths : list string) :
  Request.Path req ∈ paths → atMostOne ctx t req evs →
  Forall (leftUnder ctx t paths) (sent evs).
Proof.
  intros Hpath [-> | [-> Hdone]]; [constructor|].
  constructor; [|constructor]. unfold leftUnder. simpl. split; [lia|done].
Qed.

(** The goroutines: every request is an unlock that leaves at [start]; the
    clock ends where the last of them ended. *)
Lemma goroutines_sent (n : nat) (ctx : Context.t) (start : Z) :
  ∀ (latest : Z) (pending : list Ptr) (w : World),
    let w' := (goroutines n ctx start latest pending w).2 in
    latest ≤ now w'
    ∧ (∀ d, Context.doneAt ctx = Some d → latest ≤ start `max` d →
            now w' ≤ start `max` d)
    ∧ ∃ evs, trace w' = trace w ++ evs
             ∧ Forall (leftUnder ctx start ["/link/unlock"]) (sent evs)
             ∧ Forall (λ tr, tr.1 = start) (sent evs).
Proof.
  induction n as [|n IH]; intros latest pending w.
  { simpl. split; [lia|]. split; [done|]. exists []. by rewrite app_nil_r. }
  cbn [goroutines].
  destruct (pending !! _) as [l|]; cbn zeta.
  2:{ simpl. split; [lia|]. split; [done|]. exists []. by rewrite app_nil_r. }
  unfold mbind, M_bind, setNow. cbn beta iota.
  destruct (unrestrictLink ctx l _) as [p w1] eqn:Hu.
  apply unrestrictLink_sent in Hu as (Hnow1 & Hend1 & evs1 & Htrace1 & Hone1).
  simpl in Hnow1, Hend1, Htrace1, Hone1.
  specialize (IH (latest `max` now w1) (delete
    (nextGoroutine (net w) (length pending) `mod` length pending)%nat pending) w1).
  cbv zeta in IH. destruct IH as (Hlatest & Hend & evs & Htrace & Hleft & Hat).
  split; [lia|]. split.
  { intros d Hd Hle. apply Hend; [done|]. specialize (Hend1 d Hd). lia. }
  exists (evs1 ++ evs). split; [by rewrite Htrace, Htrace1, <- app_assoc|].
  rewrite sent_app. split; apply Forall_app; split; try done.
  - eapply atMostOne_leftUnder; [|exact Hone1]. simpl. by left.
  - destruct Hone1 as [-> | [-> _]]; by repeat constructor.
Qed.

Lemma fanOut_sent (ctx : Context.t) (links : list Ptr) (w : World) :
  let w' := (fanOut ctx links w).2 in
  now w ≤ now w'
  ∧ (∀ d, Context.doneAt ctx = Some d → now w' ≤ now w `max` d)
  ∧ ∃ evs, trace w' = trace w ++ evs
           ∧ Forall (leftUnder ctx (now w) ["/link/unlock"]) (sent evs).
Proof.
  unfold fanOut, mbind, M_bind, getNow. cbn beta iota zeta.
  destruct (goroutines_sent (length links) ctx (now w) (now w) links w)
    as (Hnow & Hend & evs & Htrace & Hleft & _).
  split; [done|]. split; [|by eauto].
  intros d Hd. apply Hend; [done|lia].
Qed.

Lemma GetTorrentLinks_sent (ctx : Context.t) (torrentID : Z) (w : World) :
  ∀ r w', GetTorrentLinks ctx torrentID w = (r, w') →
    now w ≤ now w'
    ∧ (∀ d, Context.doneAt ctx = Some d → now w' ≤ now w `max` d)
    ∧ ∃ evs, trace w' = trace w ++ evs
             ∧ atMostOne ctx (now w)
                 (Request.mk "POST" "/magnet/files" [("id[]", pretty torrentID)]) evs.
Proof.
  intros r w'. unfold GetTorrentLinks, mbind, M_bind. cbn beta iota.
  destruct (send ctx _ w) as [r0 w1] eqn:Hsend.
  apply send_sent in Hsend as (Hnow & Hend & evs & Htrace & Hone).
  assert (Hnone : ∀ x, ((x, w1) : (list Ptr * option error) * World) = (r, w') →
    now w ≤ now w'
    ∧ (∀ d, Context.doneAt ctx = Some d → now w' ≤ now w `max` d)
    ∧ ∃ evs, trace w' = trace w ++ evs
             ∧ atMostOne ctx (now w)
                 (Request.mk "POST" "/magnet/files" [("id[]", pretty torrentID)]) evs).
  { intros x [= <- <-]. eauto. }
  destruct r0 as [res|e]; [|apply Hnone].
  destruct (UnmarshalJson_MagnetFiles res) as [result|e]; [|apply Hnone].
  destruct (MagnetFilesResponse.Magnets _) as [|first rest].
  { unfold emit, mret, M_ret. cbn beta iota. intros [= <- <-]. simpl.
    split; [done|]. split; [done|].
    exists ([] ++ evs ++ [Logged LDebug "No magnets found in response"]).
    split; [by rewrite Htrace, <- app_assoc|]. by apply atMostOne_log. }
  destruct (linksOf [] _ w1) as [ps w2] eqn:Hlinks.
  apply linksOf_spec in Hlinks as (_ & _ & Hnow2 & _ & Htrace2 & _).
  unfold emit, mret, M_ret. cbn beta iota. intros [= <- <-]. simpl.
  rewrite Hnow2, Htrace2. split; [done|]. split; [done|].
  exists ([] ++ evs ++ [Logged LDebug "Retrieved torrent links successfully"]).
  split; [by rewrite Htrace, <- app_assoc|]. by apply atMostOne_log.
Qed.

Lemma leftUnder_weaken (ctx : Context.t) (from from' : Z) (paths paths' : list string)
    (trs : list (Z * Request.t)) :
  from' ≤ from → paths ⊆ paths' →
  Forall (leftUnder ctx from paths) trs → Forall (leftUnder ctx from' paths') trs.
Proof.
  intros Hfrom Hpaths Hall. eapply Forall_impl; [exact Hall|].
  intros tr (Ht & Hdone & Hpath).
  split; [lia|]. split; [done|]. by apply Hpaths.
Qed.

Lemma polls_unlocks (ctx : Context.t) (from : Z) (evs : list Event) :
  Forall (leftUnder ctx from ["/link/unlock"]) (sent evs) → polls evs = [].
Proof.
  unfold polls. induction (sent evs) as [|tr trs IH]; [done|].
  intros [(_ & _ & Hpath) Htrs]%Forall_cons_1. rewrite filter_cons, decide_False.
  - by apply IH.
  - apply list_elem_of_singleton in Hpath. by rewrite Hpath.
Qed.

(** One pass of the loop: its requests leave after the pass began, before
    the context is done; at most one of them asks for the files, and not
    before the tick. *)
Lemma pollOnce_requests (ctx : Context.t) (magnetID : Z) (st : PollState) (w : World) :
  ∀ o w', pollOnce ctx magnetID st w = (o, w') →
    now w ≤ now w'
    ∧ (∀ d, Context.doneAt ctx = Some d → now w' ≤ now w `max` d)
    ∧ ∃ evs, trace w' = trace w ++ evs
             ∧ Forall (leftUnder ctx (now w) ["/magnet/files"; "/link/unlock"])
                 (sent evs)
             ∧ (polls evs = [] ∨ ∃ t, polls evs = [t] ∧ nextTick st ≤ t).
Proof.
  intros o w'. unfold pollOnce, mbind, M_bind. cbn beta iota.
  destruct (select ctx st w) as [c w1] eqn:Hsel.
  pose proof (select_now _ _ _ _ _ Hsel) as Hwake.
  apply select_spec in Hsel as (_ & _ & _ & Htrace1 & Hnow1 & _ & Htick).
  assert (Hend1 : ∀ d, Context.doneAt ctx = Some d → now w1 ≤ now w `max` d).
  { intros d Hd. rewrite Hd in Hwake. lia. }
  destruct c.
  { unfold emit, getNow, mret, M_ret. cbn beta iota. intros [= <- <-]. simpl.
    split; [done|]. split; [done|]. eexists [_]. rewrite Htrace1.
    split; [done|]. split; [constructor|by left]. }
  specialize (Htick eq_refl).
  unfold getNow, emit. cbn beta iota zeta.
  set (w2 := mkWorld _ _ _ _ _).
  destruct (GetTorrentLinks ctx magnetID w2) as [[links err] w3] eqn:Hget.
  apply GetTorrentLinks_sent in Hget as (Hnow3 & Hend3 & evs3 & Htrace3 & Hone3).
  subst w2. simpl in Hnow3, Hend3, Htrace3, Hone3.
  assert (Hleft3 : Forall (leftUnder ctx (now w) ["/magnet/files"; "/link/unlock"])
                     (sent evs3)).
  { eapply leftUnder_weaken; [exact Hnow1|reflexivity|].
    eapply atMostOne_leftUnder; [|exact Hone3]. simpl. by left. }
  assert (Hpolls3 : polls evs3 = [] ∨ ∃ t, polls evs3 = [t] ∧ nextTick st ≤ t).
  { unfold polls. destruct Hone3 as [-> | [-> _]]; [by left|]. right.
    exists (now w1). by rewrite filter_cons, decide_True. }
  assert (Hcontinue : ∀ (msg : string) (level : Level) (o' : Outcome),
    ((o', logAt level msg w3) : Outcome * World) = (o, w') →
    now w ≤ now w'
    ∧ (∀ d, Context.doneAt ctx = Some d → now w' ≤ now w `max` d)
    ∧ ∃ evs, trace w' = trace w ++ evs
             ∧ Forall (leftUnder ctx (now w) ["/magnet/files"; "/link/unlock"])
                 (sent evs)
             ∧ (polls evs = [] ∨ ∃ t, polls evs = [t] ∧ nextTick st ≤ t)).
  { intros msg level o' [= <- <-]. simpl. split; [lia|]. split.
    { intros d Hd. specialize (Hend1 d Hd). specialize (Hend3 d Hd). lia. }
    exists ([Logged LDebug "Checking for torrent links"] ++ evs3 ++ [Logged level msg]).
    split; [by rewrite Htrace3, Htrace1, <- !app_assoc|].
    by rewrite !polls_app, !sent_app, !app_nil_r. }
  destruct err as [e|]; [apply Hcontinue|].
  case_bool_decide; [|apply Hcontinue].
  destruct (fanOut_sent ctx links
              (logAt LDebug "Found download links, starting unrestriction" w3))
    as (Hnow4 & Hend4 & evs4 & Htrace4 & Hleft4).
  unfold logAt, emit in Hnow4, Hend4, Htrace4, Hleft4.
  simpl in Hnow4, Hend4, Htrace4, Hleft4.
  unfold mret, M_ret.
  destruct (fanOut ctx links _) as [[] w4] eqn:Hfan. simpl in *.
  intros [= <- <-]. split; [lia|]. split.
  { intros d Hd. specialize (Hend1 d Hd). specialize (Hend3 d Hd).
    specialize (Hend4 d Hd). lia. }
  exists ([Logged LDebug "Checking for torrent links"] ++ evs3
          ++ [Logged LDebug "Found download links, starting unrestriction"] ++ evs4).
  split; [by rewrite Htrace4, Htrace3, Htrace1, <- !app_assoc|].
  rewrite !polls_app, !sent_app. simpl.
  rewrite (polls_unlocks _ _ _ Hleft4), app_nil_r. split; [|done].
  apply Forall_app. split; [done|].
  eapply leftUnder_weaken; [|reflexivity|].
  2:{ eapply leftUnder_weaken; [reflexivity| |exact Hleft4].
      intros x Hx. apply list_elem_of_singleton in Hx as ->. right. by left. }
  lia.
Qed.

End Timing.

Section LoopTiming.
Context `{Remote}.

Lemma pollLoop_requests (fuel : nat) (ctx : Context.t) (magnetID : Z) :
  ∀ (st : PollState) (w : World),
    let w' := (pollLoop fuel ctx magnetID st w).2 in
    now w ≤ now w'
    ∧ (∀ d, Context.doneAt ctx = Some d → now w' ≤ now w `max` d)
    ∧ ∃ evs, trace w' = trace w ++ evs
             ∧ Forall (leftUnder ctx (now w) ["/magnet/files"; "/link/unlock"])
                 (sent evs)
             ∧ ∀ (i : nat) (t : Z),
                 polls evs !! i = Some t → nextTick st + period * Z.of_nat i ≤ t.
Proof.
  assert (Hperiod : 0 < period) by done.
  induction fuel as [|fuel IH]; intros st w.
  { simpl. split; [lia|]. split; [lia|]. exists []. rewrite app_nil_r.
    split; [done|]. split; [constructor|]. by intros i t. }
  cbn [pollLoop]. unfold mbind, M_bind.
  destruct (pollOnce ctx magnetID st w) as [o w1] eqn:Hpass.
  pose proof (pollOnce_requests _ _ _ _ _ _ Hpass)
    as (Hnow1 & Hend1 & evs1 & Htrace1 & Hleft1 & Hpolls1).
  assert (Hidx1 : ∀ (i : nat) (t : Z),
            polls evs1 !! i = Some t → nextTick st + period * Z.of_nat i ≤ t).
  { destruct Hpolls1 as [-> | (t1 & -> & Ht1)]; [done|].
    intros [|i] t; simpl; [|done]. intros [= <-]. lia. }
  destruct o as [st'|links err].
  2:{ simpl. split; [done|]. split; [done|]. by exists evs1. }
  apply pollOnce_Continue in Hpass.
  specialize (IH st' w1). cbv zeta in IH.
  destruct IH as (Hnow2 & Hend2 & evs2 & Htrace2 & Hleft2 & Hidx2).
  split; [lia|]. split.
  { intros d Hd. specialize (Hend1 d Hd). specialize (Hend2 d Hd). lia. }
  exists (evs1 ++ evs2). split; [by rewrite Htrace2, Htrace1, <- app_assoc|].
  rewrite sent_app, polls_app. split.
  { apply Forall_app. split; [done|].
    eapply leftUnder_weaken; [exact Hnow1|reflexivity|done]. }
  intros i t. destruct Hpolls1 as [-> | (t1 & -> & Ht1)]; simpl.
  - intros Hi. specialize (Hidx2 _ _ Hi). lia.
  - destruct i as [|i]; simpl.
    + intros [= <-]. lia.
    + intros Hi. specialize (Hidx2 _ _ Hi). lia.
Qed.

(** X14. [WaitForDownloadLinks] keeps to its timeout. The clock, which does
    not go back, is not past the timeout when the call returns (a call with
    a negative timeout returns at once); every request the call sends leaves
    strictly before the timeout has run, and before the parent context ends;
    and the call sends nothing but queries for the files of the job and
    unlocks (client.go, lines 518-583). *)
Theorem WaitForDownloadLinks_keeps_to_its_timeout
    (fuel : nat) (parent : Context.t) (magnetID timeout : Z) (w0 : World) :
  let r := WaitForDownloadLinks fuel parent magnetID timeout w0 in
  now w0 ≤ now r.2 ≤ now w0 `max` (now w0 + timeout)
  ∧ Forall (λ tr, now w0 ≤ tr.1 < now w0 + timeout
                  ∧ Request.Path tr.2 ∈ ["/magnet/files"; "/link/unlock"])
      (sent (since w0 r.2))
  ∧ ∀ pd, Context.doneAt parent = Some pd →
          now r.2 ≤ now w0 `max` pd
          ∧ Forall (λ tr, tr.1 < pd) (sent (since w0 r.2)).
Proof.
  cbv zeta. rewrite WaitForDownloadLinks_entry.
  set (ctx := loopContext parent (now w0) timeout).
  set (entry := logAt LDebug "Starting to wait for download links" w0).
  destruct (pollLoop_requests fuel ctx magnetID (loopStart (now w0)) entry)
    as (Hnow & Hend & evs & Htrace & Hleft & _).
  destruct (loopContext_ends parent (now w0) timeout) as (d & Hd & Hle & Hparent).
  fold ctx in Hd, Hparent. specialize (Hend d Hd).
  change (now entry) with (now w0) in Hnow, Hend, Hleft.
  assert (Hsince : since w0 (pollLoop fuel ctx magnetID (loopStart (now w0)) entry).2
                   = Logged LDebug "Starting to wait for download links" :: evs).
  { apply since_app. rewrite Htrace. unfold entry, logAt, emit. simpl.
    by rewrite <- app_assoc. }
  rewrite Hsince. change (sent (_ :: evs)) with (sent evs).
  split; [lia|]. split.
  { eapply Forall_impl; [exact Hleft|]. intros tr (Ht & Hdone & Hpath).
    pose proof (isDone_false _ _ _ Hdone Hd). split; [lia|done]. }
  intros pd Hpd. rewrite Hpd in Hparent.
  assert (d ≤ pd) as Hdpd.
  { case_bool_decide; destruct Hparent as [-> _]; lia. }
  split; [lia|].
  eapply Forall_impl; [exact Hleft|]. intros tr (Ht & Hdone & Hpath).
  pose proof (isDone_false _ _ _ Hdone Hd). lia.
Qed.

(** X15. The ticker paces the queries: the query number [i] of a call
    (counting from 0) leaves no earlier than [i + 1] periods of 10 s after
    the call began, so a call sends fewer queries than periods fit in its
    timeout (client.go, lines 527-547). *)
Theorem polls_are_paced_by_the_ticker
    (fuel : nat) (parent : Context.t) (magnetID timeout : Z) (w0 : World) :
  let r := WaitForDownloadLinks fuel parent magnetID timeout w0 in
  let queries := polls (since w0 r.2) in
  (∀ (i : nat) (t : Z),
     queries !! i = Some t → now w0 + period * (Z.of_nat i + 1) ≤ t < now w0 + timeout)
  ∧ (queries = [] ∨ Z.of_nat (length queries) * period < timeout).
Proof.
  cbv zeta. rewrite WaitForDownloadLinks_entry.
  set (ctx := loopContext parent (now w0) timeout).
  set (entry := logAt LDebug "Starting to wait for download links" w0).
  destruct (pollLoop_requests fuel ctx magnetID (loopStart (now w0)) entry)
    as (_ & _ & evs & Htrace & Hleft & Hidx).
  destruct (loopContext_ends parent (now w0) timeout) as (d & Hd & Hle & _).
  fold ctx in Hd.
  assert (Hsince : since w0 (pollLoop fuel ctx magnetID (loopStart (now w0)) entry).2
                   = Logged LDebug "Starting to wait for download links" :: evs).
  { apply since_app. rewrite Htrace. unfold entry, logAt, emit. simpl.
    by rewrite <- app_assoc. }
  rewrite Hsince. change (polls (_ :: evs)) with (polls evs).
  assert (Hbefore : ∀ (i : nat) (t : Z), polls evs !! i = Some t → t < now w0 + timeout).
  { intros i t Hi. apply list_elem_of_lookup_2 in Hi. unfold polls in Hi.
    apply list_elem_of_fmap in Hi as (tr & -> & Htr).
    apply list_elem_of_filter in Htr as [_ Htr].
    rewrite Forall_forall in Hleft. destruct (Hleft _ Htr) as (Ht & Hdone & _).
    change (now entry) with (now w0) in Ht.
    pose proof (isDone_false _ _ _ Hdone Hd). simpl in *. lia. }
  assert (Hpaced : ∀ (i : nat) (t : Z),
    polls evs !! i = Some t → now w0 + period * (Z.of_nat i + 1) ≤ t < now w0 + timeout).
  { intros i t Hi. specialize (Hidx _ _ Hi). specialize (Hbefore _ _ Hi).
    unfold loopStart in Hidx. simpl in Hidx. lia. }
  split; [done|].
  destruct (polls evs) as [|t ts] eqn:Hpolls using rev_ind; [by left|]. right.
  clear IHts. rewrite length_app. simpl.
  specialize (Hpaced (length ts) t). rewrite lookup_app_r, Nat.sub_diag in Hpaced by lia.
  specialize (Hpaced eq_refl). lia.
Qed.

End LoopTiming.

(** ** The links of a query *)

Section Links.
Context `{Remote}.

(** X16. The links [GetTorrentLinks] returns are new and distinct, and no
    link that existed is touched; each has a source URL that is not empty
    and no download URL yet; with an error no link is returned and none is
    allocated (client.go, lines 457-499; output.go, lines 163-166 and
    182-227). *)
Theorem GetTorrentLinks_returns_fresh_links
    (ctx : Context.t) (torrentID : Z) (w : World) :
  let r := GetTorrentLinks ctx torrentID w in
  let links := r.1.1 in
  NoDup links
  ∧ Forall (λ p, (next w ≤ p < next r.2)%nat
                 ∧ Link.URL (heap r.2 p) ≠ ""
                 ∧ Link.DownloadURL (heap r.2 p) = "") links
  ∧ (∀ q, (q < next w)%nat → heap r.2 q = heap w q)
  ∧ (is_Some r.1.2 → links = [] ∧ next r.2 = next w).
Proof.
  cbv zeta.
  destruct (GetTorrentLinks ctx torrentID w) as [[links err] w'] eqn:Hget. simpl.
  pose proof (GetTorrentLinks_spec _ _ _ _ _ _ Hget)
    as (_ & Hseq & Hnext & Hold & Hnourl & Herr & _).
  split; [rewrite Hseq; apply NoDup_seq|]. split.
  2:{ split; [done|]. intros He. rewrite (Herr He) in *. simpl in Hnext. split; [done|lia]. }
  apply Forall_forall. intros p Hp. split.
  { rewrite Hseq in Hp. apply elem_of_seq in Hp. lia. }
  split; [|by apply Hnourl].
  revert Hget. unfold GetTorrentLinks, mbind, M_bind. cbn beta iota.
  destruct (send ctx _ w) as [[res|e] w1] eqn:Hsend.
  2:{ intros [= <- _ _]. by apply elem_of_nil in Hp. }
  destruct (UnmarshalJson_MagnetFiles res) as [result|e].
  2:{ intros [= <- _ _]. by apply elem_of_nil in Hp. }
  destruct (MagnetFilesResponse.Magnets _) as [|first rest].
  { unfold emit, mret, M_ret. cbn beta iota. intros [= <- _ _].
    by apply elem_of_nil in Hp. }
  destruct (linksOf [] _ w1) as [ps w2] eqn:Hlinks.
  apply linksOf_spec in Hlinks as (-> & _ & _ & _ & _ & _ & Hnew).
  unfold emit, mret, M_ret. cbn beta iota. intros [= <- _ <-]. simpl in *.
  apply elem_of_seq in Hp as [Hp1 Hp2].
  destruct (lookup_lt_is_Some_2 (Typed.flattenTree (MagnetFiles.Files first))
              (p - next w1)) as [file Hfile]; [lia|].
  specialize (Hnew _ _ Hfile).
  replace (next w1 + (p - next w1))%nat with p in Hnew by lia. rewrite Hnew. simpl.
  pose proof (Typed_records_of_files (MagnetFiles.Files first)) as Hfiles.
  rewrite Forall_forall in Hfiles.
  by apply (Hfiles file), list_elem_of_lookup_2 with (p - next w1)%nat.
Qed.

End Links.

(** ** A job the service never lists *)

Section Unlisted.
Context `{Remote}.

(** No reply to a query for the files lists a magnet. *)
Hypothesis never_listed :
  ∀ (res : Response) (result : APIResponse.t MagnetFilesResponse.t),
    UnmarshalJson_MagnetFiles res = Ok result →
    MagnetFilesResponse.Magnets (APIResponse.Data result) = [].

Lemma GetTorrentLinks_unlisted (ctx : Context.t) (torrentID : Z) (w : World) :
  (GetTorrentLinks ctx torrentID w).1.1 = [].
Proof.
  unfold GetTorrentLinks, mbind, M_bind. cbn beta iota.
  destruct (send ctx _ w) as [[res|e] w1]; [|done].
  destruct (UnmarshalJson_MagnetFiles res) as [result|e] eqn:Hjson; [|done].
  by rewrite (never_listed _ _ Hjson).
Qed.

Lemma pollOnce_unlisted (ctx : Context.t) (magnetID : Z) (st : PollState)
    (w w' : World) (links : list Ptr) (err : option error) :
  pollOnce ctx magnetID st w = (Return links err, w') →
  links = [] ∧ err = Some (Context.reasonErr (Context.why ctx))
  ∧ Context.isDone ctx (now w') = true.
Proof.
  intros Hpass.
  destruct (pollOnce_Return _ _ _ _ _ _ _ Hpass)
    as [(-> & -> & w1 & Hsel)|(Hlinks & _ & w1 & w2 & _ & Hget)].
  - split; [done|]. split; [done|].
    rewrite (pollOnce_Done _ _ _ _ _ Hsel) in Hpass. injection Hpass as <-.
    by apply select_spec in Hsel as (_ & _ & _ & _ & _ & Hdone & _); apply Hdone.
  - exfalso. apply Hlinks.
    pose proof (GetTorrentLinks_unlisted ctx magnetID
                  (logAt LDebug "Checking for torrent links" w1)) as Hnone.
    by rewrite Hget in Hnone.
Qed.

Lemma pollLoop_unlisted (fuel : nat) (ctx : Context.t) (magnetID : Z) :
  ∀ (st : PollState) (w w' : World) (links : list Ptr) (err : option error),
    pollLoop fuel ctx magnetID st w = (Some (links, err), w') →
    links = [] ∧ err = Some (Context.reasonErr (Context.why ctx))
    ∧ Context.isDone ctx (now w') = true.
Proof.
  induction fuel as [|fuel IH]; intros st w w' links err; [done|].
  cbn [pollLoop]. unfold mbind, M_bind.
  destruct (pollOnce ctx magnetID st w) as [[st'|links' err'] w1] eqn:Hpass.
  - apply IH.
  - intros [= <- <- <-]. by eapply pollOnce_unlisted.
Qed.

(** X17. A job the service never lists is awaited until the timeout: when
    no reply to a query lists a magnet, whatever its status and error say,
    the call returns no link and the error of its context, and nothing of
    what the service answered; under a parent that never ends that is
    [DeadlineExceeded], returned when the timeout has run (client.go, lines
    457-479 and 518-583). *)
Theorem an_unlisted_job_is_awaited_until_the_timeout
    (fuel : nat) (parent : Context.t) (magnetID timeout : Z) (w0 : World) :
  (Z.to_nat (timeout `div` period) + 2 ≤ fuel)%nat →
  let ctx := loopContext parent (now w0) timeout in
  ∃ w',
    WaitForDownloadLinks fuel parent magnetID timeout w0
    = (Some ([], Some (Context.reasonErr (Context.why ctx))), w')
    ∧ (Context.doneAt parent = None → 0 ≤ timeout →
       Context.reasonErr (Context.why ctx) = DeadlineExceeded
       ∧ now w' = now w0 + timeout).
Proof.
  intros Hfuel ctx.
  destruct (loopContext_ends parent (now w0) timeout) as (d & Hd & Hle & Hparent).
  fold ctx in Hd, Hparent. rewrite WaitForDownloadLinks_entry. fold ctx.
  set (entry := logAt LDebug "Starting to wait for download links" w0).
  set (n := Z.to_nat (timeout `div` period)) in *.
  destruct (pollLoop_returns n (fuel - n - 2) ctx magnetID d Hd
              (loopStart (now w0)) entry) as (links & err & w' & Hloop & _).
  { unfold loopStart. simpl.
    pose proof (Z.mul_succ_div_gt timeout period) as Hgt.
    assert (timeout `div` period ≤ Z.of_nat n) as Hn by (subst n; lia).
    unfold period in *. nia. }
  replace (n + 2 + (fuel - n - 2))%nat with fuel in Hloop by lia.
  destruct (pollLoop_unlisted _ _ _ _ _ _ _ _ Hloop) as (-> & -> & Hdone).
  exists w'. split; [done|]. intros Hnone Htimeout. rewrite Hnone in Hparent.
  destruct Hparent as [-> Hwhy]. split; [by rewrite Hwhy|].
  destruct (pollLoop_requests fuel ctx magnetID (loopStart (now w0)) entry)
    as (_ & Hend & _).
  rewrite Hloop in Hend. specialize (Hend _ Hd). simpl in Hend.
  apply isDone_spec in Hdone as (d' & Hd' & Hle').
  rewrite Hd in Hd'. injection Hd' as <-. lia.
Qed.

End Unlisted.

Lemma an_unlisted_job_is_awaited_until_the_timeout_witness :
  ∃ w',
    @WaitForDownloadLinks Refusing.remote 4 Context.Background 42 (25 * Script.second)
      Refusing.start
    = (Some ([], Some (Context.reasonErr
                         (Context.why (loopContext Context.Background
                                         (now Refusing.start) (25 * Script.second))))),
       w')
    ∧ (Context.doneAt Context.Background = None → 0 ≤ 25 * Script.second →
       Context.reasonErr
         (Context.why (loopContext Context.Background (now Refusing.start)
                         (25 * Script.second)))
       = DeadlineExceeded
       ∧ now w' = now Refusing.start + 25 * Script.second).
Proof.
  apply (@an_unlisted_job_is_awaited_until_the_timeout Refusing.remote).
  - by intros res result [= <-].
  - vm_compute. lia.
Defined.

(** ** Responses in error state *)

Section ErrorState.
Context `{Remote}.

Lemma send_error_state (ctx : Context.t) (req : Request.t) (w : World) :
  (∃ res d net', roundTrip req (now w) (net w) = (Ok res, d, net')
                 ∧ IsErrorState res = true) →
  ∃ e, (send ctx req w).1 = Err e.
Proof.
  intros (res & d & net' & Htrip & Hstate). unfold send.
  destruct (Context.isDone ctx (now w)); [by eauto|]. rewrite Htrip.
  assert (∃ e, received (Ok res) = Err e) as [e He].
  { unfold received, OnAfterResponse. rewrite Hstate.
    destruct (UnmarshalJson_Error res); eauto. }
  rewrite He.
  destruct (Context.doneAt ctx) as [ends|]; [case_bool_decide|]; simpl; eauto.
Qed.

(** X18. A response in the error state of HTTP is an error of every
    operation, whatever its body holds, an error object or none: the
    response hook turns it into an error before a decoder of data sees it.
    [UnrestrictURL] returns no link, [UploadMagnet] no identifier,
    [GetTorrentLinks] no links, and none allocates a link (client.go, lines
    321-332, 340-364, 426-454 and 457-499). *)
Theorem error_state_is_an_error
    (ctx : Context.t) (url magnetURI : string) (torrentID : Z) (w : World) :
  (∀ req, ∃ res d net', roundTrip req (now w) (net w) = (Ok res, d, net')
                        ∧ IsErrorState res = true) →
  (∃ e, (UnrestrictURL ctx url w).1 = Err e)
  ∧ (∃ e, (UploadMagnet ctx magnetURI w).1 = (0, Some e))
  ∧ (∃ e, (GetTorrentLinks ctx torrentID w).1 = ([], Some e))
  ∧ next (GetTorrentLinks ctx torrentID w).2 = next w.
Proof.
  intros Hstate. split_and!.
  - unfold UnrestrictURL, mbind, M_bind, emit. cbn beta iota zeta.
    set (w0 := mkWorld _ _ _ _ _).
    destruct (send_error_state ctx
                (Request.mk "GET" "/link/unlock" [("link", url)]) w0) as [e He].
    { apply Hstate. }
    destruct (send ctx _ w0) as [r w1]. simpl in He. subst r. simpl. eauto.
  - unfold UploadMagnet, mbind, M_bind.
    destruct (send_error_state ctx
                (Request.mk "POST" "/magnet/upload" [("magnets[]", magnetURI)]) w)
      as [e He]; [apply Hstate|].
    destruct (send ctx _ w) as [r w1]. simpl in He. subst r. simpl. eauto.
  - unfold GetTorrentLinks, mbind, M_bind.
    destruct (send_error_state ctx
                (Request.mk "POST" "/magnet/files" [("id[]", pretty torrentID)]) w)
      as [e He]; [apply Hstate|].
    destruct (send ctx _ w) as [r w1]. simpl in He. subst r. simpl. eauto.
  - destruct (GetTorrentLinks ctx torrentID w) as [[links err] w'] eqn:Hget.
    pose proof (GetTorrentLinks_spec _ _ _ _ _ _ Hget) as (_ & _ & Hnext & _ & _ & Herr & _).
    revert Hget. unfold GetTorrentLinks, mbind, M_bind.
    destruct (send_error_state ctx
                (Request.mk "POST" "/magnet/files" [("id[]", pretty torrentID)]) w)
      as [e He]; [apply Hstate|].
    destruct (send ctx _ w) as [r w1]. simpl in He. subst r. simpl.
    intros [= <- _ <-]. simpl in *. lia.
Qed.

End ErrorState.

Lemma error_state_is_an_error_witness :
  let w := Script.start [(Ok (Script.Refuses "AUTH_BAD_APIKEY" "The auth apikey is invalid"),
                          5%N)] in
  (∃ e, (@UnrestrictURL Script.remote Context.Background "https://host/a" w).1 = Err e)
  ∧ (∃ e, (@UploadMagnet Script.remote Context.Background "magnet:?xt=urn:btih:c0ffee" w).1
          = (0, Some e))
  ∧ (∃ e, (@GetTorrentLinks Script.remote Context.Background 42 w).1 = ([], Some e))
  ∧ next (@GetTorrentLinks Script.remote Context.Background 42 w).2 = next w.
Proof.
  apply (@error_state_is_an_error Script.remote).
  intros req. by eexists _, _, _.
Defined.

(** ** The two size filters *)

(** The filter of [run], as a filter. *)
Lemma size_filter_run (minMB : float) (links : list Link.t) :
  run_filter minMB links
  = (if (0 <? minMB)%float
     then filter (λ l, (minMB <=? Link.SizeMB l)%float = true) links
     else links).
Proof.
  unfold run_filter. destruct (0 <? minMB)%float; [|done].
  apply (lo_Filter_filter links (λ l, (minMB <=? Link.SizeMB l)%float)).
Qed.

Lemma ltb_leb (x y : float) : (x <? y)%float = true → (x <=? y)%float = true.
Proof.
  rewrite ltb_spec, leb_spec. unfold SFltb, SFleb.
  by destruct (SFcompare (Prim2SF x) (Prim2SF y)) as [[]|].
Qed.

Lemma filter_sublist_impl {A : Type} (P Q : A → Prop)
    `{∀ x, Decision (P x)} `{∀ x, Decision (Q x)} (l : list A) :
  (∀ x, P x → Q x) → sublist (filter P l) (filter Q l).
Proof.
  intros HPQ. induction l as [|x l IH]; [done|].
  rewrite !filter_cons. destruct (decide (P x)) as [HP|HP].
  - rewrite decide_True by auto. by constructor.
  - destruct (decide (Q x)); [by constructor|done].
Qed.

Lemma filterLargeFiles_filter (links : list Link.t) (minSizeMB : float) :
  filterLargeFiles links minSizeMB
  = filter (λ link, (minSizeMB <? Link.SizeMB link)%float = true) links.
Proof.
  unfold filterLargeFiles. rewrite appendEach_concat. simpl.
  induction links as [|link links IH]; [done|].
  rewrite filter_cons. csimpl. rewrite IH.
  by destruct (minSizeMB <? Link.SizeMB link)%float.
Qed.

(** X19. The helper [filterLargeFiles] keeps the links strictly larger than
    its threshold and has no guard. What it keeps, the filter of [run]
    keeps; the two differ on a link of exactly the threshold, and on a
    threshold that is not a number, where the helper drops every link and
    [run] keeps them all. Filtering twice with [run]'s filter is filtering
    once (unnamed/part_000, lines 80-89 and 124-128). *)
Theorem filterLargeFiles_is_the_stricter_filter (links : list Link.t) (minSizeMB : float) :
  filterLargeFiles links minSizeMB
  = filter (λ link, (minSizeMB <? Link.SizeMB link)%float = true) links
  ∧ sublist (filterLargeFiles links minSizeMB) (run_filter minSizeMB links)
  ∧ filterLargeFiles links nan = []
  ∧ run_filter nan links = links
  ∧ run_filter minSizeMB (run_filter minSizeMB links) = run_filter minSizeMB links.
Proof.
  pose proof (size_filter_run minSizeMB) as Hrun.
  split; [apply filterLargeFiles_filter|]. split; [|split; [|split]].
  - rewrite filterLargeFiles_filter, Hrun.
    destruct (0 <? minSizeMB)%float; [|apply sublist_filter].
    apply filter_sublist_impl. intros link. apply ltb_leb.
  - rewrite filterLargeFiles_filter. induction links as [|link links IH]; [done|].
    rewrite filter_cons, IH. rewrite decide_False; [done|].
    rewrite ltb_spec. change (Prim2SF nan) with S754_nan. by intros ?.
  - by rewrite size_filter_run.
  - rewrite !Hrun. destruct (0 <? minSizeMB)%float; [|done].
    induction links as [|link links IH]; [done|].
    rewrite filter_cons. destruct (decide _) as [Hkeep|Hdrop]; [|done].
    rewrite filter_cons, decide_True by done. by rewrite IH.
Qed.

(** ** The first revision of the client *)

Section FirstRevision.
Context `{Host, !Envelopes}.

Lemma First_send_Ok (ctx : Context.t) (req : Request.t) (w : World)
    (res : Response) (d : N) (net' : Net) :
  Context.doneAt ctx = None →
  roundTrip req (now w) (net w) = (Ok res, d, net') →
  (First.send ctx req w).1 = Ok res.
Proof.
  intros Hnone Htrip. unfold First.send, Context.isDone. by rewrite Hnone, Htrip.
Qed.

Lemma First_checkError_error (resp : Response) (data : RawMessage)
    (apiError : string * string) :
  UnmarshalJson_APIResponse resp = Ok (APIResponse.mk "error" data (Some apiError)) →
  First.checkError resp = Some (APIError (Some apiError)).
Proof. intros Hjson. unfold First.checkError. by rewrite Hjson. Qed.

(** X20. The first revision reports what the envelope reports: under a
    context that never ends, when the replies decode to an envelope with
    the status "error" and an error, [UnrestrictURL], [UploadMagnet] and
    [UploadTorrent] each return that very error, not wrapped, and no link
    or identifier. [checkError] passes an envelope with another status, and
    one with the status "error" and no error (client.go, lines 53-64,
    67-97, 100-148 and 151-182). *)
Theorem first_revision_reports_the_envelope_error
    (ctx : Context.t) (url magnetURI torrentPath : string) (w : World)
    (data : RawMessage) (apiError : string * string) :
  Context.doneAt ctx = None →
  (∀ req, ∃ res d net',
     roundTrip req (now w) (net w) = (Ok res, d, net')
     ∧ UnmarshalJson_APIResponse res
       = Ok (APIResponse.mk "error" data (Some apiError))) →
  (First.UnrestrictURL ctx url w).1 = Err (APIError (Some apiError))
  ∧ (First.UploadMagnet ctx magnetURI w).1 = (0, Some (APIError (Some apiError)))
  ∧ (os_Open torrentPath = None →
     (First.UploadTorrent ctx torrentPath w).1 = (0, Some (APIError (Some apiError))))
  ∧ ∀ (resp : Response) (apiResp : APIResponse.t RawMessage),
      UnmarshalJson_APIResponse resp = Ok apiResp →
      APIResponse.Status apiResp ≠ "error" ∨ APIResponse.Error apiResp = None →
      First.checkError resp = None.
Proof.
  intros Hnone Hreplies. split_and!.
  - unfold First.UnrestrictURL, mbind, M_bind.
    destruct (Hreplies (Request.mk "GET" "https://api.alldebrid.com/v4/link/unlock"
                          [("link", url)])) as (res & d & net' & Htrip & Hjson).
    pose proof (First_send_Ok ctx _ w res d net' Hnone Htrip) as Hsend.
    destruct (First.send ctx _ w) as [r w1]. simpl in Hsend. subst r.
    by rewrite (First_checkError_error _ _ _ Hjson).
  - unfold First.UploadMagnet, mbind, M_bind.
    destruct (Hreplies (Request.mk "POST" "https://api.alldebrid.com/v4/magnet/upload"
                          [("magnets[]", magnetURI)])) as (res & d & net' & Htrip & Hjson).
    pose proof (First_send_Ok ctx _ w res d net' Hnone Htrip) as Hsend.
    destruct (First.send ctx _ w) as [r w1]. simpl in Hsend. subst r.
    by rewrite (First_checkError_error _ _ _ Hjson).
  - intros Hopen. unfold First.UploadTorrent, mbind, M_bind. rewrite Hopen.
    destruct (Hreplies (Request.mk "POST"
                          "https://api.alldebrid.com/v4/magnet/upload/file"
                          [("files[]", filepath_Base torrentPath)]))
      as (res & d & net' & Htrip & Hjson).
    pose proof (First_send_Ok ctx _ w res d net' Hnone Htrip) as Hsend.
    destruct (First.send ctx _ w) as [r w1]. simpl in Hsend. subst r.
    rewrite (First_checkError_error _ _ _ Hjson).
    by destruct (file_Close torrentPath).
  - intros resp apiResp Hjson Hpass. unfold First.checkError. rewrite Hjson.
    case_bool_decide as Hstatus; [|done].
    destruct Hpass as [Hpass| ->]; done.
Qed.

(** X21. The first revision does upload a torrent file: when the file
    opens, the reply passes the check and its data list uploaded files,
    [UploadTorrent] returns the identifier of the first one and no error
    (client.go, lines 100-148). *)
Theorem first_revision_uploads_a_torrent_file
    (ctx : Context.t) (torrentPath : string) (w w1 : World) (resp : Response)
    (apiResp : APIResponse.t RawMessage) (uploadResp : UploadResponse.t)
    (first : FileUpload.t) (rest : list FileUpload.t) :
  os_Open torrentPath = None →
  First.send ctx (Request.mk "POST" "https://api.alldebrid.com/v4/magnet/upload/file"
                    [("files[]", filepath_Base torrentPath)]) w = (Ok resp, w1) →
  UnmarshalJson_APIResponse resp = Ok apiResp →
  APIResponse.Status apiResp ≠ "error" ∨ APIResponse.Error apiResp = None →
  json_Unmarshal_Upload (APIResponse.Data apiResp) = Ok uploadResp →
  UploadResponse.Files uploadResp = first :: rest →
  (First.UploadTorrent ctx torrentPath w).1 = (FileUpload.ID first, None).
Proof.
  intros Hopen Hsend Hjson Hpass Hdata Hfiles.
  unfold First.UploadTorrent, mbind, M_bind. rewrite Hopen, Hsend.
  assert (First.checkError resp = None) as ->.
  { unfold First.checkError. rewrite Hjson.
    case_bool_decide as Hstatus; [|done]. destruct Hpass as [Hpass| ->]; done. }
  rewrite Hjson, Hdata, Hfiles. by destruct (file_Close torrentPath).
Qed.

End FirstRevision.

Lemma first_revision_reports_the_envelope_error_witness :
  let w := Script.start [(Ok (Script.Refuses "LINK_HOST_NOT_SUPPORTED"
                                "This host or link is not supported"), 5%N)] in
  let apiError := ("LINK_HOST_NOT_SUPPORTED", "This host or link is not supported") in
  (@First.UnrestrictURL Script.remote Sample.envelopes Context.Background
     "https://host/a" w).1 = Err (APIError (Some apiError))
  ∧ (@First.UploadMagnet Script.remote Sample.envelopes Context.Background
       "magnet:?xt=urn:btih:c0ffee" w).1 = (0, Some (APIError (Some apiError)))
  ∧ (@os_Open Script.remote Sample.host "ubuntu.torrent" = None →
     (@First.UploadTorrent Script.remote Sample.host Sample.envelopes Context.Background
        "ubuntu.torrent" w).1 = (0, Some (APIError (Some apiError))))
  ∧ ∀ (resp : @Response Script.remote)
      (apiResp : APIResponse.t (@RawMessage Script.remote Sample.envelopes)),
      @UnmarshalJson_APIResponse Script.remote Sample.envelopes resp = Ok apiResp →
      APIResponse.Status apiResp ≠ "error" ∨ APIResponse.Error apiResp = None →
      @First.checkError Script.remote Sample.envelopes resp = None.
Proof.
  apply (@first_revision_reports_the_envelope_error Script.remote Sample.host
           Sample.envelopes Context.Background "https://host/a"
           "magnet:?xt=urn:btih:c0ffee" "ubuntu.torrent" _
           (Script.Refuses "LINK_HOST_NOT_SUPPORTED" "This host or link is not supported")).
  - reflexivity.
  - intros req. by eexists _, _, _.
Defined.

Lemma first_revision_uploads_a_torrent_file_witness :
  (@First.UploadTorrent Script.remote Sample.host Sample.envelopes Context.Background
     "ubuntu.torrent"
     (Script.start
        [(Ok (Script.Uploads (UploadResponse.mk [FileUpload.mk 42] [])), 5%N)])).1
  = (42, None).
Proof.
  eapply (@first_revision_uploads_a_torrent_file Script.remote Sample.host
            Sample.envelopes Context.Background "ubuntu.torrent" _ _ _
            (APIResponse.mk "success"
               (Script.Uploads (UploadResponse.mk [FileUpload.mk 42] [])) None)
            (UploadResponse.mk [FileUpload.mk 42] []) (FileUpload.mk 42) []);
    try reflexivity.
  by right.
Defined.

(** ** The links a call writes to *)

Section Frame.
Context `{Remote}.

Lemma pollOnce_frame (ctx : Context.t) (magnetID : Z) (st : PollState) (w : World) :
  ∀ o w', pollOnce ctx magnetID st w = (o, w') →
    (next w ≤ next w')%nat
    ∧ (∀ q, (q < next w)%nat → heap w' q = heap w q)
    ∧ ∀ links err, o = Return links err →
        NoDup links ∧ Forall (λ p, (next w ≤ p < next w')%nat) links.
Proof.
  intros o w'.
  destruct (select ctx st w) as [[] w1] eqn:Hsel.
  { rewrite (pollOnce_Done _ _ _ _ _ Hsel).
    apply select_spec in Hsel as (_ & Hheap & Hnext & _).
    intros [= <- <-]. unfold logAt, emit. simpl. rewrite Hheap, Hnext.
    split; [done|]. split; [done|]. intros links err [= <- _].
    split; constructor. }
  destruct (GetTorrentLinks ctx magnetID
              (logAt LDebug "Checking for torrent links" w1))
    as [[links err] w2] eqn:Hget.
  rewrite (pollOnce_Tick _ _ _ _ _ _ _ _ Hsel Hget). cbn zeta.
  apply select_spec in Hsel as (_ & Hheap1 & Hnext1 & _).
  apply GetTorrentLinks_spec in Hget as (_ & Hseq & Hnext2 & Hold2 & _).
  unfold logAt, emit in Hseq, Hnext2, Hold2. simpl in Hseq, Hnext2, Hold2.
  rewrite Hnext1 in Hseq, Hnext2, Hold2.
  assert (Hcontinue : ∀ (o' : Outcome) (level : Level) (msg : string),
    (∀ links' err', o' ≠ Return links' err') →
    ((o', logAt level msg w2) : Outcome * World) = (o, w') →
    (next w ≤ next w')%nat
    ∧ (∀ q, (q < next w)%nat → heap w' q = heap w q)
    ∧ ∀ links err, o = Return links err →
        NoDup links ∧ Forall (λ p, (next w ≤ p < next w')%nat) links).
  { intros o' level msg Hnot [= <- <-]. unfold logAt, emit. simpl.
    split; [lia|]. split.
    - intros q Hq. by rewrite Hold2, Hheap1.
    - intros links' err' Ho. by destruct (Hnot links' err'). }
  destruct err as [e|]; [by apply Hcontinue|].
  case_bool_decide; [|by apply Hcontinue].
  intros [= <- <-].
  set (w3 := logAt LDebug "Found download links, starting unrestriction" w2).
  assert (Hnd : NoDup links) by (rewrite Hseq; apply NoDup_seq).
  destruct (fanOut_spec ctx links w3 _ Hnd eq_refl) as (Hnext4 & _ & Hothers & _).
  change (next w3) with (next w2) in Hnext4.
  change (heap w3) with (heap w2) in Hothers.
  assert (Hin : ∀ p, p ∈ links → (next w ≤ p < next w2)%nat).
  { intros p Hp. rewrite Hseq in Hp. apply elem_of_seq in Hp. lia. }
  split; [lia|]. split.
  - intros q Hq. rewrite Hothers, Hold2, Hheap1; [done|done|].
    intros Hq'. apply Hin in Hq'. lia.
  - intros links' err' [= <- _]. split; [done|].
    apply Forall_forall. intros p Hp. apply Hin in Hp. lia.
Qed.

Lemma pollLoop_frame (fuel : nat) (ctx : Context.t) (magnetID : Z) :
  ∀ (st : PollState) (w : World),
    let r := pollLoop fuel ctx magnetID st w in
    (next w ≤ next r.2)%nat
    ∧ (∀ q, (q < next w)%nat → heap r.2 q = heap w q)
    ∧ ∀ links err, r.1 = Some (links, err) →
        NoDup links ∧ Forall (λ p, (next w ≤ p < next r.2)%nat) links.
Proof.
  induction fuel as [|fuel IH]; intros st w; [done|].
  cbn [pollLoop]. unfold mbind, M_bind.
  destruct (pollOnce ctx magnetID st w) as [o w1] eqn:Hpass.
  apply pollOnce_frame in Hpass as (Hnext1 & Hold1 & Hret1).
  destruct o as [st'|links err].
  - specialize (IH st' w1). cbv zeta in IH. destruct IH as (Hnext & Hold & Hret).
    cbv zeta. split; [lia|]. split.
    + intros q Hq. rewrite Hold by lia. by apply Hold1.
    + intros links err Hr. destruct (Hret _ _ Hr) as [Hnd Hin]. split; [done|].
      eapply Forall_impl; [exact Hin|]. simpl. lia.
  - simpl. split; [done|]. split; [done|]. intros links' err' [= <- <-]. eauto.
Qed.

(** X22. [WaitForDownloadLinks] writes to no link that existed when it was
    called: the links it returns are distinct and were allocated by the
    call, and every link allocated before is left as it was (client.go,
    lines 482-491 and 518-583). *)
Theorem WaitForDownloadLinks_writes_to_its_own_links_only
    (fuel : nat) (parent : Context.t) (magnetID timeout : Z) (w0 : World) :
  let r := WaitForDownloadLinks fuel parent magnetID timeout w0 in
  (next w0 ≤ next r.2)%nat
  ∧ (∀ q, (q < next w0)%nat → heap r.2 q = heap w0 q)
  ∧ ∀ links err, r.1 = Some (links, err) →
      NoDup links ∧ Forall (λ p, (next w0 ≤ p < next r.2)%nat) links.
Proof.
  cbv zeta. rewrite WaitForDownloadLinks_entry.
  apply (pollLoop_frame fuel _ magnetID (loopStart (now w0))
           (logAt LDebug "Starting to wait for download links" w0)).
Qed.

End Frame.

(** ** A context that is done *)

Section Done.
Context `{Host}.

Lemma since_logs (w w' : World) (evs : list Event) :
  trace w' = trace w ++ evs → sent evs = [] → sent (since w w') = [].
Proof. intros Htrace Hevs. by rewrite (since_app _ _ _ Htrace). Qed.

Lemma since_nil (w w' : World) : trace w' = trace w → sent (since w w') = [].
Proof. intros Htrace. apply (since_logs w w' []); [by rewrite app_nil_r|done]. Qed.

(** X23. Under a context that is already done no request leaves and every
    operation fails: [UnrestrictURL], [UploadMagnet], [GetTorrentLinks] and
    [UploadTorrent] return an error, [WaitForDownloadLinks] returns the
    error of its context at once, and none of them allocates or changes a
    link (client.go, lines 340-364, 367-423, 426-454, 457-499 and
    518-583). *)
Theorem nothing_is_sent_under_a_done_context
    (ctx : Context.t) (url magnetURI torrentPath : string) (id timeout : Z)
    (fuel : nat) (w : World) :
  Context.isDone ctx (now w) = true →
  let unlocked := UnrestrictURL ctx url w in
  let magnet := UploadMagnet ctx magnetURI w in
  let listed := GetTorrentLinks ctx id w in
  let torrent := UploadTorrent ctx torrentPath w in
  let waited := WaitForDownloadLinks (S fuel) ctx id timeout w in
  (is_Some magnet.1.2 ∧ is_Some listed.1.2 ∧ is_Some torrent.1.2
   ∧ (∃ err, unlocked.1 = Err err)
   ∧ ∃ err, waited.1 = Some ([], Some err) ∧ err ∈ [Canceled; DeadlineExceeded])
  ∧ Forall (λ w', sent (since w w') = [] ∧ heap w' = heap w ∧ next w' = next w)
      [unlocked.2; magnet.2; listed.2; torrent.2; waited.2].
Proof.
  intros Hdone unlocked magnet listed torrent waited.
  assert (Hu : (∃ err, unlocked.1 = Err err)
               ∧ sent (since w unlocked.2) = []
               ∧ heap unlocked.2 = heap w ∧ next unlocked.2 = next w).
  { subst unlocked.
    destruct (UnrestrictURL_request ctx url w) as (Hheap & Hnext & Hsince & Herr & _).
    rewrite Hsince, Hdone. split; [by apply Herr|]. done. }
  assert (Hm : is_Some magnet.1.2 ∧ sent (since w magnet.2) = []
               ∧ heap magnet.2 = heap w ∧ next magnet.2 = next w).
  { subst magnet. unfold UploadMagnet, mbind, M_bind.
    rewrite (send_done ctx _ w Hdone). simpl. split; [by eexists|].
    split; [by apply since_nil|done]. }
  assert (Hl : is_Some listed.1.2 ∧ sent (since w listed.2) = []
               ∧ heap listed.2 = heap w ∧ next listed.2 = next w).
  { subst listed. destruct (GetTorrentLinks_done ctx id w Hdone) as [e ->]. simpl.
    split; [by eexists|]. split; [by apply since_nil|done]. }
  assert (Ht : is_Some torrent.1.2 ∧ sent (since w torrent.2) = []
               ∧ heap torrent.2 = heap w ∧ next torrent.2 = next w).
  { subst torrent. unfold UploadTorrent, mbind, M_bind, emit, mret, M_ret.
    cbn beta iota zeta. destruct (os_Open torrentPath) as [err|].
    { simpl. split; [by eexists|]. split; [|done].
      eapply since_logs; [simpl; by rewrite <- app_assoc|done]. }
    set (w1 := mkWorld _ _ _ _ _).
    rewrite (send_done ctx _ w1 Hdone).
    destruct (file_Close torrentPath) as [closeErr|]; simpl;
      (split; [by eexists|]); (split; [|done]).
    - eapply since_logs; [simpl; by rewrite <- app_assoc|done].
    - by eapply since_logs. }
  assert (Hw : (∃ err, waited.1 = Some ([], Some err) ∧ err ∈ [Canceled; DeadlineExceeded])
               ∧ sent (since w waited.2) = []
               ∧ heap waited.2 = heap w ∧ next waited.2 = next w).
  { subst waited. rewrite WaitForDownloadLinks_entry.
    set (ctx' := loopContext ctx (now w) timeout).
    set (entry := logAt LDebug "Starting to wait for download links" w).
    destruct (loopContext_ends ctx (now w) timeout) as (d & Hd & _ & Hparent).
    fold ctx' in Hd, Hparent.
    apply isDone_spec in Hdone as (pd & Hpd & Hle). rewrite Hpd in Hparent.
    assert (d ≤ now w) as Hdw.
    { case_bool_decide; destruct Hparent as [-> _]; lia. }
    destruct (select_only_done ctx' (loopStart (now w)) entry) as [w1 Hsel].
    { apply isDone_spec. exists d. split; [done|]. by change (now entry) with (now w). }
    { unfold loopStart. simpl. unfold period. lia. }
    cbn [pollLoop]. unfold mbind, M_bind.
    rewrite (pollOnce_Done _ _ _ _ _ Hsel). simpl.
    apply select_spec in Hsel as (_ & Hheap & Hnext & Htrace & _).
    rewrite Hheap, Hnext. split.
    { eexists. split; [done|]. rewrite !elem_of_cons.
      destruct (Context.why ctx'); auto. }
    split; [|done].
    eapply since_logs;
      [unfold logAt, emit; simpl; rewrite Htrace; unfold entry, logAt, emit; simpl;
       by rewrite <- !app_assoc|done]. }
  destruct Hu as (? & ? & ? & ?), Hm as (? & ? & ? & ?), Hl as (? & ? & ? & ?),
    Ht as (? & ? & ? & ?), Hw as (? & ? & ? & ?).
  split; [done|]. by repeat constructor.
Qed.

End Done.

Lemma nothing_is_sent_under_a_done_context_witness :
  let ctx := Context.mk (Some 0) Context.ByCancel in
  let w := Script.start Script.alreadyDone in
  let unlocked := @UnrestrictURL Script.remote ctx "https://host/a" w in
  let magnet := @UploadMagnet Script.remote ctx "magnet:?xt=urn:btih:c0ffee" w in
  let listed := @GetTorrentLinks Script.remote ctx 42 w in
  let torrent := @UploadTorrent Script.remote Sample.host ctx "ubuntu.torrent" w in
  let waited := @WaitForDownloadLinks Script.remote 1 ctx 42 (600 * Script.second) w in
  (is_Some magnet.1.2 ∧ is_Some listed.1.2 ∧ is_Some torrent.1.2
   ∧ (∃ err, unlocked.1 = Err err)
   ∧ ∃ err, waited.1 = Some ([], Some err) ∧ err ∈ [Canceled; DeadlineExceeded])
  ∧ Forall (λ w', sent (since w w') = [] ∧ heap w' = heap w ∧ next w' = next w)
      [unlocked.2; magnet.2; listed.2; torrent.2; waited.2].
Proof.
  by apply (@nothing_is_sent_under_a_done_context Script.remote Sample.host).
Defined.

(** ** How the program ends *)

Section MainFacts.
Context `{Host, !Text, !Marshal}.


End MainFacts.
